(** * uat-bbox: FlatGeobuf features to a CSV of bounding boxes

    A shallow embedding of the [kmx::gis] sources (bounding_box,
    geometry_processor, flatgeobuf_processor, thread_pool and main) together
    with the properties their specification states about them.

    Conventions of the embedding.
    - A C++ [double] coordinate is a real number ([R]); NaN and the
      infinities are left out.  The bounding-box code only compares
      coordinates (inside [std::min] and [std::max]), which is exact; the
      area that [write_csv_row] prints is computed in [R] and handed to the
      number formatting of the standard library.
    - [std::uint32_t], [flatbuffers::uoffset_t] and [std::size_t] values are
      integers ([Z]); every assignment that narrows to 32 bits has its
      wrap-around written out.  [std::size_t] is 64 bits wide.
    - File and blob contents are lists of [byte]; a [std::string] is a
      [string].
    - FlatBuffers table fields that may be absent are [option]s; elements of
      a FlatBuffers vector of tables are never null.
    - Loops that the C++ type system does not bound carry fuel and return
      [None] when it runs out.
    - Exceptions: a file that cannot be read, the reservation of the
      futures ([std::length_error] and [std::bad_alloc]) and
      [PackedRTree::size] are modelled.  Every other memory allocation and
      the creation of the worker threads are taken to succeed. *)

From Stdlib Require Import Reals Lra ZArith List String Ascii Bool Lia.
From Stdlib Require Import Permutation DecimalString DecimalPos DecimalZ.
From Stdlib.Strings Require Import Byte.
Import ListNotations.

Open Scope Z_scope.

Set Warnings "-register-all".

(** ** Small helpers shared by the whole model *)

(** The double-quote character, code 34. *)
Definition dquote : ascii := ascii_of_nat 34.
(** The line-feed character, code 10. *)
Definition newline : ascii := ascii_of_nat 10.
(** The comma. *)
Definition comma : ascii := ","%char.

Definition byte_val (b : byte) : Z := Z.of_N (Byte.to_N b).

Definition u32_wrap (v : Z) : Z := v mod 2 ^ 32.

(** [flatbuffers::Vector<T>::size()], a [uoffset_t]. *)
Definition vector_size {A : Type} (v : list A) : Z :=
  u32_wrap (Z.of_nat (List.length v)).

(** [std::to_string] on an integer: decimal digits, a leading minus sign for
    negative values. *)
Definition to_string (v : Z) : string := NilZero.string_of_int (Z.to_int v).

(** The value of a [w]-bit pattern read as a two's-complement integer. *)
Definition as_signed (w : Z) (v : Z) : Z :=
  if v <? 2 ^ (w - 1) then v else v - 2 ^ w.

(** ** bounding_box.hpp / bounding_box.cpp *)

(** [std::numeric_limits<double>::max()]. *)
Definition DBL_MAX : R := IZR (2 ^ 1024 - 2 ^ 971).

(** [std::min(a, b)] is [(b < a) ? b : a]. *)
Definition std_min (a b : R) : R := if Rlt_dec b a then b else a.
(** [std::max(a, b)] is [(a < b) ? b : a]. *)
Definition std_max (a b : R) : R := if Rlt_dec a b then b else a.

Record bounding_box : Type := mk_bounding_box {
  min_x : R;
  min_y : R;
  max_x : R;
  max_y : R;
  is_valid : bool
}.

(** The default member initialisers: [min_x {max()}], [min_y {max()}],
    [max_x {}], [max_y {}], [is_valid {}]. *)
Definition bounding_box_default : bounding_box :=
  {| min_x := DBL_MAX; min_y := DBL_MAX; max_x := 0%R; max_y := 0%R;
     is_valid := false |}.

Definition update (bb : bounding_box) (x y : R) : bounding_box :=
  {| min_x := std_min (min_x bb) x;
     min_y := std_min (min_y bb) y;
     max_x := std_max (max_x bb) x;
     max_y := std_max (max_y bb) y;
     is_valid := true |}.

(** A sequence of [update] calls, first point first. *)
Definition update_all (bb : bounding_box) (pts : list (R * R)) : bounding_box :=
  fold_left (fun b p => update b (fst p) (snd p)) pts bb.

(** The point lies inside the stored extent. *)
Definition includes (bb : bounding_box) (x y : R) : Prop :=
  (min_x bb <= x <= max_x bb /\ min_y bb <= y <= max_y bb)%R.

Definition invalid_bbox_csv_marker : string := ",,,".
Definition csv_coordinate_precision : Z := 3.

(** ** FlatGeobuf tables as the generated accessors present them *)

(** [FlatGeobuf::GeometryType] (header_generated.h). *)
Inductive GeometryType : Type :=
| Unknown | Point | LineString | Polygon | MultiPoint | MultiLineString
| MultiPolygon | GeometryCollection | CircularString | CompoundCurve
| CurvePolygon | MultiCurve | MultiSurface | Curve | Surface
| PolyhedralSurface | TIN | Triangle.

(** [FlatGeobuf::ColumnType] (header_generated.h); [OtherColumnType] stands
    for a tag byte outside the enumeration. *)
Inductive ColumnType : Type :=
| Byte_ | UByte | Bool | Short | UShort | Int | UInt | Long | ULong
| Float | Double | String_ | Json | DateTime | Binary
| OtherColumnType (tag : Z).

(** [FlatGeobuf::Geometry]: the [xy] vector, the [parts] vector and the type
    tag.  Absent vectors are [None]. *)
Inductive Geometry : Type :=
| mkGeometry (g_xy : option (list R)) (g_parts : option (list Geometry))
             (g_type : GeometryType).

Definition xy (g : Geometry) : option (list R) :=
  match g with mkGeometry c _ _ => c end.
Definition parts (g : Geometry) : option (list Geometry) :=
  match g with mkGeometry _ p _ => p end.
Definition geometry_type_of (g : Geometry) : GeometryType :=
  match g with mkGeometry _ _ t => t end.

Record Column : Type := mkColumn {
  col_name : option string;
  col_type : ColumnType
}.

Record Header : Type := mkHeader {
  name : option string;
  geometry_type : GeometryType;
  has_z : bool;
  has_m : bool;
  features_count : Z;
  columns : option (list Column);
  index_node_size : Z
}.

Record Feature : Type := mkFeature {
  geometry : option Geometry;
  properties : option (list byte)
}.

(** ** geometry_processor.cpp *)

(** The loop [for (i = 0; (i + 1) < num_doubles; i += stride)] of
    [update_bbox_from_coordinates].  With [stride = 0] the C++ loop does not
    terminate; the model then runs out of fuel. *)
Fixpoint coordinates_loop (fuel : nat) (coords : list R) (stride i : nat)
    (bb : bounding_box) : option bounding_box :=
  if (i + 1 <? List.length coords)%nat then
    match fuel with
    | O => None
    | S fuel' =>
        coordinates_loop fuel' coords stride (i + stride)
          (update bb (nth i coords 0%R) (nth (i + 1) coords 0%R))
    end
  else Some bb.

Definition update_bbox_from_coordinates (bb : bounding_box) (geom : Geometry)
    (stride : nat) : option bounding_box :=
  match xy geom with
  | None => Some bb
  | Some coords =>
      if (List.length coords =? 0)%nat then Some bb
      else coordinates_loop (List.length coords) coords stride 0 bb
  end.

(** A [for] loop over a FlatBuffers vector whose body may fail to return. *)
Fixpoint for_each {A : Type} (body : bounding_box -> A -> option bounding_box)
    (items : list A) (bb : bounding_box) : option bounding_box :=
  match items with
  | [] => Some bb
  | x :: rest =>
      match body bb x with
      | None => None
      | Some bb' => for_each body rest bb'
      end
  end.

Definition process_single_polygon_for_bbox (bbox : bounding_box)
    (polygon : option Geometry) (coordinate_stride : nat)
    : option bounding_box :=
  match polygon with
  | None => Some bbox
  | Some pg =>
      match parts pg with
      | Some rings =>
          for_each (fun b ring => update_bbox_from_coordinates b ring coordinate_stride)
                   rings bbox
      | None =>
          match xy pg with
          | Some coords =>
              if (0 <? List.length coords)%nat
              then update_bbox_from_coordinates bbox pg coordinate_stride
              else Some bbox
          | None => Some bbox
          end
      end
  end.

Definition calculate_for_geometry (geometry_fbs_table : option Geometry)
    (coordinate_stride : nat) (actual_geometry_type : GeometryType)
    : option bounding_box :=
  match geometry_fbs_table with
  | None => Some bounding_box_default
  | Some g =>
      match actual_geometry_type with
      | Polygon =>
          process_single_polygon_for_bbox bounding_box_default (Some g)
                                          coordinate_stride
      | MultiPolygon =>
          match parts g with
          | Some polygon_parts =>
              for_each (fun b pg =>
                          process_single_polygon_for_bbox b (Some pg) coordinate_stride)
                       polygon_parts bounding_box_default
          | None => Some bounding_box_default
          end
      | _ =>
          match xy g with
          | Some coords =>
              if (0 <? List.length coords)%nat
              then update_bbox_from_coordinates bounding_box_default g coordinate_stride
              else Some bounding_box_default
          | None => Some bounding_box_default
          end
      end
  end.

(** ** Code outside the repository

    The FlatBuffers accessors generated from the FlatGeobuf schema, the packed
    R-tree size formula and the number formatting of the C++ standard library
    are used by the sources but are not part of them.  The model takes them
    as an interface. *)

Class Library : Type := {
  (** [FlatGeobuf::GetHeader(buffer + offset)]. *)
  GetHeader : list byte -> Z -> option Header;
  (** [FlatGeobuf::GetSizePrefixedFeature(buffer + offset)]. *)
  GetSizePrefixedFeature : list byte -> Z -> option Feature;
  (** [FlatGeobuf::PackedRTree::size(num_items, node_size)]; [None] when the
      call throws (the library rejects some arguments with an exception). *)
  PackedRTree_size : Z -> Z -> option Z;
  (** [oss << std::fixed << std::setprecision(15) << v] for the [float] with
      the given bit pattern. *)
  format_float : Z -> string;
  (** The same for a [double]. *)
  format_double : Z -> string;
  (** [os << v] for a [double] under the given format flags and precision. *)
  put_double : Z -> Z -> R -> string;
  (** [os << v] for an unsigned integer under the given format flags. *)
  put_unsigned : Z -> Z -> string;
  (** Whether the allocator provides the memory for [n] futures; it throws
      [std::bad_alloc] when it does not. *)
  allocate_futures : Z -> bool
}.

(** ** Reading a property blob, with the offsets that are touched

    A computation over a blob yields its value together with the list of blob
    offsets whose bytes it read, in order. *)

Definition traced (A : Type) : Type := (A * list Z)%type.

Definition ret {A : Type} (a : A) : traced A := (a, []).

Definition bind {A B : Type} (m : traced A) (f : A -> traced B) : traced B :=
  let (a, t1) := m in
  let (b, t2) := f a in
  (b, t1 ++ t2).

Notation "x <- m ;; k" := (bind m (fun x => k))
  (at level 61, m at next level, right associativity).

Definition value_of {A : Type} (m : traced A) : A := fst m.
Definition offsets_of {A : Type} (m : traced A) : list Z := snd m.

(** The byte stored [off] bytes after the start of the blob. *)
Definition byte_at (data : list byte) (off : Z) : byte :=
  nth (Z.to_nat off) data x00.

(** The offsets [off], [off + 1], ..., [off + n - 1]. *)
Definition span (off : Z) (n : nat) : list Z :=
  map (fun k => off + Z.of_nat k) (seq 0 n).

Fixpoint little_endian (bs : list byte) : Z :=
  match bs with
  | [] => 0
  | b :: rest => byte_val b + 256 * little_endian rest
  end.

(** [flatbuffers::ReadScalar<T>(data + off)] for a [width]-byte unsigned [T]. *)
Definition ReadScalar (width : nat) (data : list byte) (off : Z) : traced Z :=
  (little_endian (map (byte_at data) (span off width)), span off width).

(** [std::string(data + off, len)]. *)
Definition read_chars (data : list byte) (off : Z) (len : Z) : traced string :=
  (string_of_list_ascii
     (map (fun o => ascii_of_byte (byte_at data o)) (span off (Z.to_nat len))),
   span off (Z.to_nat len)).

(** ** flatgeobuf_processor.cpp: property decoding *)

(** The template arguments of [read_scalar_as_string_static_helper]. *)
Inductive scalar_type : Type :=
| int8_t | uint8_t | int16_t | uint16_t | int32_t | uint32_t
| int64_t | uint64_t | float_t | double_t.

Definition sizeof (T : scalar_type) : Z :=
  match T with
  | int8_t | uint8_t => 1
  | int16_t | uint16_t => 2
  | int32_t | uint32_t | float_t => 4
  | int64_t | uint64_t | double_t => 8
  end.

Section PropertyDecoding.
Context `{Library}.

(** The text produced for the scalar of type [T] with bit pattern [bits]. *)
Definition scalar_text (T : scalar_type) (bits : Z) : string :=
  match T with
  | int8_t => to_string (as_signed 8 bits)
  | int16_t => to_string (as_signed 16 bits)
  | int32_t => to_string (as_signed 32 bits)
  | int64_t => to_string (as_signed 64 bits)
  | uint8_t | uint16_t | uint32_t | uint64_t => to_string bits
  | float_t => format_float bits
  | double_t => format_double bits
  end.

(** Returns the text and [bytes_read_for_this_scalar]. *)
Definition read_scalar_as_string_static_helper (T : scalar_type)
    (data : list byte) (value_off : Z) (remaining_size_at_value : Z)
    : traced (string * Z) :=
  if sizeof T >? remaining_size_at_value then ret (EmptyString, 0)
  else
    bits <- ReadScalar (Z.to_nat (sizeof T)) data value_off ;;
    ret (scalar_text T bits, sizeof T).

(** Returns the text and [bytes_read_for_value]. *)
Definition read_and_convert_property_value_at_offset (col_type : ColumnType)
    (properties_data_start : list byte) (value_offset_in_blob : Z)
    (properties_blob_size : Z) : traced (string * Z) :=
  if value_offset_in_blob >=? properties_blob_size then ret (EmptyString, 0)
  else
    let remaining := u32_wrap (properties_blob_size - value_offset_in_blob) in
    let scalar T :=
      read_scalar_as_string_static_helper T properties_data_start
        value_offset_in_blob remaining in
    match col_type with
    | Byte_ => scalar int8_t
    | UByte => scalar uint8_t
    | Bool =>
        r <- scalar uint8_t ;;
        let bool_val_str := fst r in
        ret (if String.eqb bool_val_str EmptyString then EmptyString
             else if String.eqb bool_val_str "0" then "false"%string
             else "true"%string,
             snd r)
    | Short => scalar int16_t
    | UShort => scalar uint16_t
    | Int => scalar int32_t
    | UInt => scalar uint32_t
    | Long => scalar int64_t
    | ULong => scalar uint64_t
    | Float => scalar float_t
    | Double => scalar double_t
    | String_ =>
        if 4 >? remaining then ret (EmptyString, 0)
        else
          len <- ReadScalar 4 properties_data_start value_offset_in_blob ;;
          if 4 + len >? remaining then ret (EmptyString, 0)
          else
            s <- read_chars properties_data_start (value_offset_in_blob + 4) len ;;
            ret (s, u32_wrap (4 + len))
    | _ => ret (EmptyString, 0)
    end.

Definition skip_property_value_at_offset (col_type : ColumnType)
    (properties_data_start : list byte) (value_offset_in_blob : Z)
    (properties_blob_size : Z) : traced Z :=
  if value_offset_in_blob >=? properties_blob_size then ret 0
  else
    let remaining_size := u32_wrap (properties_blob_size - value_offset_in_blob) in
    let can_skip needed := needed <=? remaining_size in
    let finish bytes_to_skip :=
      ret (if can_skip bytes_to_skip then bytes_to_skip else remaining_size) in
    match col_type with
    | Byte_ | UByte | Bool => finish 1
    | Short | UShort => finish 2
    | Int | UInt | Float => finish 4
    | Long | ULong | Double => finish 8
    | String_ =>
        if negb (can_skip 4) then ret remaining_size
        else
          len <- ReadScalar 4 properties_data_start value_offset_in_blob ;;
          finish (u32_wrap (4 + len))
    | _ =>
        if negb (can_skip 4) then ret remaining_size
        else
          len <- ReadScalar 4 properties_data_start value_offset_in_blob ;;
          let bytes_to_skip := u32_wrap (4 + len) in
          if negb (can_skip bytes_to_skip) then ret remaining_size
          else finish bytes_to_skip
    end.

(** The [while (current_offset_in_blob < properties_blob_size)] loop of
    [get_string_value_for_property]; [None] when the fuel runs out. *)
Fixpoint property_scan (fuel : nat) (cols : list Column)
    (target_column_index : Z) (properties_data_ptr : list byte)
    (properties_blob_size : Z) (current_offset_in_blob : Z)
    : traced (option string) :=
  if current_offset_in_blob <? properties_blob_size then
    match fuel with
    | O => ret None
    | S fuel' =>
        if current_offset_in_blob + 2 >? properties_blob_size
        then ret (Some EmptyString)
        else
          current_fbs_col_idx <-
            ReadScalar 2 properties_data_ptr current_offset_in_blob ;;
          let offset := u32_wrap (current_offset_in_blob + 2) in
          if current_fbs_col_idx >=? vector_size cols
          then ret (Some EmptyString)
          else
            match nth_error cols (Z.to_nat current_fbs_col_idx) with
            | None => ret (Some EmptyString)
            | Some column_schema =>
                if current_fbs_col_idx =? target_column_index then
                  r <- read_and_convert_property_value_at_offset
                         (col_type column_schema) properties_data_ptr offset
                         properties_blob_size ;;
                  ret (Some (fst r))
                else
                  bytes_to_skip_for_value <-
                    skip_property_value_at_offset (col_type column_schema)
                      properties_data_ptr offset properties_blob_size ;;
                  if bytes_to_skip_for_value
                       >? u32_wrap (properties_blob_size - offset)
                  then ret (Some EmptyString)
                  else
                    property_scan fuel' cols target_column_index
                      properties_data_ptr properties_blob_size
                      (u32_wrap (offset + bytes_to_skip_for_value))
            end
    end
  else ret (Some EmptyString).

(** The scan over a blob given by its start and declared size, as
    [get_string_value_for_property] runs it once its arguments are
    validated. *)
Definition scan_blob (cols : list Column) (target_column_index : Z)
    (properties_data_ptr : list byte) (properties_blob_size : Z)
    : traced (option string) :=
  property_scan (S (Z.to_nat properties_blob_size)) cols target_column_index
    properties_data_ptr properties_blob_size 0.

Definition get_string_value_for_property (fbs_feature : option Feature)
    (fbs_header : option Header) (target_column_index : Z)
    : traced (option string) :=
  match fbs_feature, fbs_header with
  | Some feature, Some header =>
      match properties feature, columns header with
      | Some props, Some cols =>
          if target_column_index >=? vector_size cols
          then ret (Some EmptyString)
          else scan_blob cols target_column_index props (vector_size props)
      | _, _ => ret (Some EmptyString)
      end
  | _, _ => ret (Some EmptyString)
  end.

End PropertyDecoding.

(** ** Output streams

    What the program observes of a [std::ostream]: the characters written so
    far, the format flags and the precision.  Nothing in the program sets a
    field width or enables stream exceptions. *)

Record ostream : Type := mk_ostream {
  content : string;
  flags : Z;
  precision : Z
}.

(** [std::ios_base::fixed], [scientific] and [floatfield] (libstdc++). *)
Definition ios_fixed : Z := Z.shiftl 1 2.
Definition ios_scientific : Z := Z.shiftl 1 8.
Definition ios_floatfield : Z := Z.lor ios_scientific ios_fixed.
(** The flags of a freshly constructed stream: [skipws | dec]. *)
Definition ios_initial_flags : Z := Z.lor (Z.shiftl 1 12) (Z.shiftl 1 1).

(** A stream just opened on an empty file. *)
Definition fresh_stream : ostream :=
  {| content := EmptyString; flags := ios_initial_flags; precision := 6 |}.

(** [os << s] for text. *)
Definition put_string (s : string) (os : ostream) : ostream :=
  {| content := content os ++ s; flags := flags os; precision := precision os |}.

(** [os << c] for one character. *)
Definition put_char (c : ascii) (os : ostream) : ostream :=
  put_string (String c EmptyString) os.

(** [os.flags(f)]. *)
Definition set_flags (f : Z) (os : ostream) : ostream :=
  {| content := content os; flags := f; precision := precision os |}.

(** [os.precision(p)] and [os << std::setprecision(p)]. *)
Definition set_precision (p : Z) (os : ostream) : ostream :=
  {| content := content os; flags := flags os; precision := p |}.

(** [os << std::fixed], that is [setf(fixed, floatfield)]. *)
Definition std_fixed (os : ostream) : ostream :=
  set_flags (Z.lor (Z.land (flags os) (Z.lnot ios_floatfield))
                   (Z.land ios_fixed ios_floatfield)) os.

(** ** types.hpp *)

Record county_code : Type := mk_county_code {
  code0 : ascii;
  code1 : ascii
}.

Definition space : ascii := " "%char.

(** [county_code()]. *)
Definition county_code_default : county_code :=
  {| code0 := space; code1 := space |}.

(** [county_code(const std::string&)]. *)
Definition county_code_of_string (s : string) : county_code :=
  match s with
  | EmptyString => county_code_default
  | String c0 EmptyString => {| code0 := c0; code1 := space |}
  | String c0 (String c1 _) => {| code0 := c0; code1 := c1 |}
  end.

Definition county_is_empty (c : county_code) : bool :=
  Ascii.eqb (code0 c) space && Ascii.eqb (code1 c) space.

Definition county_to_string (c : county_code) : string :=
  if county_is_empty c then EmptyString
  else String (code0 c) (String (code1 c) EmptyString).

Record task_input_data : Type := mk_task_input_data {
  in_uat_name : string;
  in_uat_code : Z;
  in_county_mn : county_code;
  geometry_ptr : option Geometry;
  coordinate_stride : Z;
  actual_geometry_type : GeometryType
}.

Record task_result : Type := mk_task_result {
  uat_name : string;
  uat_code : Z;
  county_mn : county_code;
  bbox : bounding_box
}.

(** ** flatgeobuf_processor.cpp: CSV output *)

Definition csv_delimiter_ : ascii := comma.
Definition csv_newline_ : string := String newline EmptyString.
Definition square_meters_in_square_kilometer_ : R := 1000000%R.

(** [value.find_first_of(chars)]: the position of the first character of
    [value] that occurs in [chars], counted from [pos]. *)
Fixpoint find_first_of (value : string) (chars : list ascii) (pos : nat)
    : option nat :=
  match value with
  | EmptyString => None
  | String c rest =>
      if existsb (Ascii.eqb c) chars then Some pos
      else find_first_of rest chars (S pos)
  end.

(** [local_csv_escaped_quote_str]: two double quotes. *)
Definition local_csv_escaped_quote_str : string :=
  String dquote (String dquote EmptyString).

Definition write_csv_escaped_string (out_file : ostream) (value : string)
    : ostream :=
  match find_first_of value [comma; dquote; newline] 0 with
  | Some _ =>
      let out1 := put_char dquote out_file in
      let out2 :=
        fold_left (fun os c =>
                     if Ascii.eqb c dquote
                     then put_string local_csv_escaped_quote_str os
                     else put_char c os)
                  (list_ascii_of_string value) out1 in
      put_char dquote out2
  | None => put_string value out_file
  end.

Section CsvOutput.
Context `{Library}.

(** [os << v] for a [double]. *)
Definition put_double_value (v : R) (os : ostream) : ostream :=
  put_string (put_double (flags os) (precision os) v) os.

(** [os << v] for a [std::uint32_t]. *)
Definition put_unsigned_value (v : Z) (os : ostream) : ostream :=
  put_string (put_unsigned (flags os) v) os.

Definition write_to_stream (bb : bounding_box) (os : ostream) : ostream :=
  if negb (is_valid bb) then put_string invalid_bbox_csv_marker os
  else
    let original_flags := flags os in
    let original_precision := precision os in
    let os := set_precision csv_coordinate_precision (std_fixed os) in
    let os := put_double_value (min_x bb) os in
    let os := put_string "," os in
    let os := put_double_value (min_y bb) os in
    let os := put_string "," os in
    let os := put_double_value (max_x bb) os in
    let os := put_string "," os in
    let os := put_double_value (max_y bb) os in
    let os := set_flags original_flags os in
    set_precision original_precision os.

Definition write_csv_header (out_file : ostream) : ostream :=
  let d := String csv_delimiter_ EmptyString in
  put_string
    ("uat_name" ++ d ++ "uat_code" ++ d ++ "county_code_mn" ++ d ++ "min_x"
     ++ d ++ "min_y" ++ d ++ "max_x" ++ d ++ "max_y" ++ d ++ "bbox_area_km2"
     ++ csv_newline_) out_file.

Definition write_csv_row (out_file : ostream) (uat_name : string)
    (uat_code : Z) (county_mn : county_code) (bbox : bounding_box) : ostream :=
  let os := write_csv_escaped_string out_file uat_name in
  let os := put_char csv_delimiter_ os in
  let os := put_unsigned_value uat_code os in
  let os := put_char csv_delimiter_ os in
  let os := write_csv_escaped_string os (county_to_string county_mn) in
  let os := put_char csv_delimiter_ os in
  let original_flags_coords := flags os in
  let original_precision_coords := precision os in
  let os := set_precision csv_coordinate_precision (std_fixed os) in
  let os :=
    if is_valid bbox then
      let os := put_double_value (min_x bbox) os in
      let os := put_char csv_delimiter_ os in
      let os := put_double_value (min_y bbox) os in
      let os := put_char csv_delimiter_ os in
      let os := put_double_value (max_x bbox) os in
      let os := put_char csv_delimiter_ os in
      put_double_value (max_y bbox) os
    else
      let os := put_char csv_delimiter_ os in
      let os := put_char csv_delimiter_ os in
      put_char csv_delimiter_ os in
  let os := set_flags original_flags_coords os in
  let os := set_precision original_precision_coords os in
  let os := put_char csv_delimiter_ os in
  let os :=
    if is_valid bbox then
      let width_m := (max_x bbox - min_x bbox)%R in
      let height_m := (max_y bbox - min_y bbox)%R in
      let area_sq_m := (width_m * height_m)%R in
      let area_sq_km := (area_sq_m / square_meters_in_square_kilometer_)%R in
      let original_flags_area := flags os in
      let original_precision_area := precision os in
      let os := put_double_value area_sq_km (set_precision 1 (std_fixed os)) in
      let os := set_flags original_flags_area os in
      set_precision original_precision_area os
    else os in
  put_string csv_newline_ os.

(** The row [collect_and_write_results] writes for one task result. *)
Definition write_result_row (os : ostream) (r : task_result) : ostream :=
  write_csv_row os (uat_name r) (uat_code r) (county_mn r) (bbox r).

End CsvOutput.

(** ** flatgeobuf_processor.cpp: the feature pipeline *)

(** A computation that may fail to return. *)
Definition obind {A B : Type} (m : option A) (f : A -> option B) : option B :=
  match m with
  | Some a => f a
  | None => None
  end.

Notation "x <~ m ;; k" := (obind m (fun x => k))
  (at level 61, m at next level, right associativity).

(** Arithmetic in [std::size_t]. *)
Definition size_t_wrap (v : Z) : Z := v mod 2 ^ 64.

Definition default_coordinate_stride_ : Z := 2.
Definition min_fgb_file_size_ : Z := 12.
Definition expected_uat_name_column_ : string := "name".
Definition expected_uat_code_column_ : string := "natcode".
Definition expected_county_mn_column_ : string := "countyMn".
Definition uat_name_fallback_prefix_ : string := "Name_Unavailable_Index_".

(** [sizeof(std::future<task_result>)]: a shared pointer, two words. *)
Definition sizeof_future : Z := 16.

(** [processing_futures_.max_size()] with 64-bit pointers:
    [PTRDIFF_MAX / sizeof(value_type)]. *)
Definition futures_max_size : Z := (2 ^ 63 - 1) / sizeof_future.

Definition expected_magic_bytes : list byte :=
  [x66; x67; x62; x03; x66; x67; x62; x00].

(** [::isspace] in the C locale. *)
Definition isspace (c : ascii) : bool :=
  let n := nat_of_ascii c in
  ((n =? 32) || ((9 <=? n) && (n <=? 13)))%nat.

Fixpoint drop_spaces (l : list ascii) : list ascii :=
  match l with
  | c :: rest => if isspace c then drop_spaces rest else l
  | [] => []
  end.

(** The two [find_if_not] / [erase] pairs of [submit_feature_tasks]. *)
Definition trim (s : string) : string :=
  string_of_list_ascii
    (rev (drop_spaces (rev (drop_spaces (list_ascii_of_string s))))).

Definition is_digit (c : ascii) : bool :=
  let n := nat_of_ascii c in ((48 <=? n) && (n <=? 57))%nat.

Fixpoint leading_digits (l : list ascii) : list ascii :=
  match l with
  | c :: rest => if is_digit c then c :: leading_digits rest else []
  | [] => []
  end.

Definition digits_value (ds : list ascii) : Z :=
  fold_left (fun acc c => 10 * acc + (Z.of_nat (nat_of_ascii c) - 48)) ds 0.

Inductive errc : Type := errc_ok | invalid_argument | result_out_of_range.

Record from_chars_result : Type := mk_from_chars_result {
  ptr : nat;
  ec : errc;
  parsed : Z
}.

(** [std::from_chars(first, last, value)] for a [std::uint32_t] in base 10;
    [ptr] counts the characters consumed and [parsed] is the value stored
    ([value] is left at [initial] on failure). *)
Definition from_chars (s : string) (initial : Z) : from_chars_result :=
  let ds := leading_digits (list_ascii_of_string s) in
  match ds with
  | [] => {| ptr := 0; ec := invalid_argument; parsed := initial |}
  | _ =>
      if digits_value ds <? 2 ^ 32
      then {| ptr := List.length ds; ec := errc_ok; parsed := digits_value ds |}
      else {| ptr := List.length ds; ec := result_out_of_range; parsed := initial |}
  end.

Definition errc_is_ok (e : errc) : bool :=
  match e with errc_ok => true | _ => false end.

(** The members of [flatgeobuf_processor] that the run reads and writes.
    Each element of [processing_futures_] is the input of the task whose
    result the future at that position delivers. *)
Record flatgeobuf_processor : Type := mk_flatgeobuf_processor {
  fgb_buffer_ : list byte;
  processing_futures_ : list task_input_data;
  feature_submission_count_ : Z;
  uat_name_column_index_ : option Z;
  uat_code_column_index_ : option Z;
  county_mn_column_index_ : option Z
}.

(** The outcome of a call: a return value or a thrown [std::exception]. *)
Inductive completion (A : Type) : Type :=
| Returned (a : A)
| Thrown (what : string).
Arguments Returned {A} a.
Arguments Thrown {A} what.

(** What a run of [process_features] leaves behind: its return value, the
    text of the CSV file ([None] when the file was never opened) and the
    tasks handed to the pool, in submission order. *)
Record run_report : Type := mk_run_report {
  return_value : bool;
  output_csv : option string;
  submitted : list task_input_data
}.

Section Pipeline.
Context `{Library}.

Definition process_single_feature_task (task_data : task_input_data)
    : option task_result :=
  bbox <~ calculate_for_geometry (geometry_ptr task_data)
            (Z.to_nat (coordinate_stride task_data))
            (actual_geometry_type task_data) ;;
  Some {| uat_name := in_uat_name task_data;
          uat_code := in_uat_code task_data;
          county_mn := in_county_mn task_data;
          bbox := bbox |}.

Fixpoint find_column (cols : list Column) (property_name_to_find : string)
    (i : Z) : option Z :=
  match cols with
  | [] => None
  | col :: rest =>
      match col_name col with
      | Some n =>
          if String.eqb n property_name_to_find then Some i
          else find_column rest property_name_to_find (i + 1)
      | None => find_column rest property_name_to_find (i + 1)
      end
  end.

Definition find_property_index_by_name (fbs_header : option Header)
    (property_name_to_find : string) : option Z :=
  match fbs_header with
  | None => None
  | Some header =>
      match columns header with
      | None => None
      | Some cols => find_column cols property_name_to_find 0
      end
  end.

(** The property text for an optional column index; the empty string when
    the index was not resolved. *)
Definition property_or_empty (fbs_feature : Feature) (fbs_header : Header)
    (index : option Z) : option string :=
  match index with
  | Some i =>
      value_of (get_string_value_for_property (Some fbs_feature)
                                              (Some fbs_header) i)
  | None => Some EmptyString
  end.

(** The UAT code of a feature: the trimmed property text parsed as a
    [std::uint32_t], 0 when absent or not fully parsed. *)
Definition extract_uat_code (fbs_feature : Feature) (fbs_header : Header)
    (index : option Z) : option Z :=
  match index with
  | None => Some 0
  | Some i =>
      code_value_str <~ value_of (get_string_value_for_property
                                    (Some fbs_feature) (Some fbs_header) i) ;;
      if String.eqb code_value_str EmptyString then Some 0
      else
        let code_value_str := trim code_value_str in
        if String.eqb code_value_str EmptyString then Some 0
        else
          let result := from_chars code_value_str 0 in
          if errc_is_ok (ec result)
             && (ptr result =? String.length code_value_str)%nat
          then Some (parsed result)
          else Some 0
  end.

(** The part of the loop body of [submit_feature_tasks] that extracts the
    three properties of a feature and builds its [task_input_data]. *)
Definition prepare_task (feature : Feature) (fbs_header : Header)
    (coordinate_stride : Z) (st : flatgeobuf_processor)
    : option task_input_data :=
  uat_name_val <~ property_or_empty feature fbs_header
                    (uat_name_column_index_ st) ;;
  let uat_name_val :=
    if String.eqb uat_name_val EmptyString
    then (uat_name_fallback_prefix_
          ++ to_string (feature_submission_count_ st + 1))%string
    else uat_name_val in
  uat_code_val <~ extract_uat_code feature fbs_header
                    (uat_code_column_index_ st) ;;
  county_mn_str_val <~ property_or_empty feature fbs_header
                         (county_mn_column_index_ st) ;;
  let county_mn_val := county_code_of_string county_mn_str_val in
  let fbs_geometry_ptr := geometry feature in
  Some {| in_uat_name := uat_name_val;
          in_uat_code := uat_code_val;
          in_county_mn := county_mn_val;
          geometry_ptr := fbs_geometry_ptr;
          coordinate_stride := coordinate_stride;
          actual_geometry_type :=
            match fbs_geometry_ptr with
            | Some g => geometry_type_of g
            | None => Unknown
            end |}.

(** [feature_submission_count_++] and the [push_back] of the future that
    [enqueue_task] returns. *)
Definition enqueue (st : flatgeobuf_processor) (task : task_input_data)
    : flatgeobuf_processor :=
  {| fgb_buffer_ := fgb_buffer_ st;
     processing_futures_ := processing_futures_ st ++ [task];
     feature_submission_count_ := feature_submission_count_ st + 1;
     uat_name_column_index_ := uat_name_column_index_ st;
     uat_code_column_index_ := uat_code_column_index_ st;
     county_mn_column_index_ := county_mn_column_index_ st |}.

(** The [for] loop of [submit_feature_tasks], [remaining] iterations before
    it ends. *)
Fixpoint submit_loop (remaining : nat) (fbs_header : Header)
    (coordinate_stride : Z) (current_offset : Z) (st : flatgeobuf_processor)
    : option (bool * flatgeobuf_processor) :=
  match remaining with
  | O => Some (true, st)
  | S remaining' =>
      let buffer_size := Z.of_nat (List.length (fgb_buffer_ st)) in
      if size_t_wrap (current_offset + 4) >? buffer_size then Some (false, st)
      else
        let feature_fbs_buffer_size :=
          value_of (ReadScalar 4 (fgb_buffer_ st) current_offset) in
        if size_t_wrap (current_offset + 4 + feature_fbs_buffer_size)
             >? buffer_size
        then Some (false, st)
        else
          let fbs_feature :=
            GetSizePrefixedFeature (fgb_buffer_ st) current_offset in
          let current_offset :=
            size_t_wrap (current_offset + (4 + feature_fbs_buffer_size)) in
          match fbs_feature with
          | None =>
              submit_loop remaining' fbs_header coordinate_stride
                          current_offset st
          | Some feature =>
              current_task_data <~ prepare_task feature fbs_header
                                     coordinate_stride st ;;
              submit_loop remaining' fbs_header coordinate_stride
                          current_offset (enqueue st current_task_data)
          end
  end.

(** [processing_futures_.reserve(n)]: the [what()] of the exception it
    throws, if it throws: [std::length_error] above [max_size()],
    [std::bad_alloc] when the allocation fails. *)
Definition reserve (n : Z) : option string :=
  if n >? futures_max_size then Some "vector::reserve"%string
  else if allocate_futures n then None
  else Some "std::bad_alloc"%string.

(** [if (features_to_process > 0u) processing_futures_.reserve(...)]. *)
Definition reserve_futures (features_to_process : Z) : option string :=
  if features_to_process >? 0 then reserve features_to_process else None.

(** The result is [None] when the call does not return, [Thrown] when the
    reservation throws, else the return value and the processor. *)
Definition submit_feature_tasks (fbs_header : Header) (initial_offset : Z)
    (coordinate_stride : Z) (st : flatgeobuf_processor)
    : option (completion (bool * flatgeobuf_processor)) :=
  let features_to_process := features_count fbs_header in
  match reserve_futures features_to_process with
  | Some what => Some (Thrown what)
  | None =>
      r <~ submit_loop (Z.to_nat features_to_process) fbs_header
             coordinate_stride initial_offset st ;;
      Some (Returned r)
  end.

(** The range-[for] of [collect_and_write_results]: [fut.get()] on each
    future in the order of [processing_futures_], one row per result.
    The task is [noexcept] and the stream has no exceptions enabled, so the
    handler of the loop is never entered. *)
Fixpoint collect_loop (futures : list task_input_data) (output_file : ostream)
    (features_written_count : Z) : option (ostream * Z) :=
  match futures with
  | [] => Some (output_file, features_written_count)
  | fut :: rest =>
      result <~ process_single_feature_task fut ;;
      collect_loop rest (write_result_row output_file result)
                   (features_written_count + 1)
  end.

Definition collect_and_write_results (st : flatgeobuf_processor)
    (output_file : ostream) (total_features_submitted : Z)
    : option (bool * ostream) :=
  r <~ collect_loop (processing_futures_ st) output_file 0 ;;
  Some (snd r =? total_features_submitted, fst r).

End Pipeline.

Fixpoint bytes_eqb (a b : list byte) : bool :=
  match a, b with
  | [], [] => true
  | x :: a', y :: b' => Byte.eqb x y && bytes_eqb a' b'
  | _, _ => false
  end.

Section Run.
Context `{Library}.

(** The header and [out_header_actual_size]; [None] where the C++ function
    returns [false]. *)
Definition parse_and_validate_header (fgb_buffer : list byte)
    : option (Header * Z) :=
  let size := Z.of_nat (List.length fgb_buffer) in
  if size <? 8 then None
  else if negb (bytes_eqb (firstn 8 fgb_buffer) expected_magic_bytes) then None
  else
    let current_offset := 8 in
    if current_offset + 4 >? size then None
    else
      let out_header_actual_size :=
        value_of (ReadScalar 4 fgb_buffer current_offset) in
      let current_offset := current_offset + 4 in
      if current_offset + out_header_actual_size >? size then None
      else
        match GetHeader fgb_buffer current_offset with
        | None => None
        | Some header => Some (header, out_header_actual_size)
        end.

Definition supported_geometry_type (t : GeometryType) : bool :=
  match t with
  | Polygon | MultiPolygon => true
  | _ => false
  end.

(** [coordinate_stride_val] as [process_features] computes it. *)
Definition coordinate_stride_of (fbs_header : Header) : Z :=
  let coordinate_stride_val := default_coordinate_stride_ in
  let coordinate_stride_val :=
    if has_z fbs_header then u32_wrap (coordinate_stride_val + 1)
    else coordinate_stride_val in
  if has_m fbs_header then u32_wrap (coordinate_stride_val + 1)
  else coordinate_stride_val.

(** The read cursor after the header and the optional spatial index; [None]
    when [PackedRTree::size] throws. *)
Definition first_feature_offset (fbs_header : Header)
    (header_fbs_actual_size : Z) : option Z :=
  let current_offset_after_header :=
    size_t_wrap (8 + 4 + header_fbs_actual_size) in
  if (index_node_size fbs_header >? 0) && (features_count fbs_header >? 0)
  then
    match PackedRTree_size (features_count fbs_header)
                           (index_node_size fbs_header) with
    | Some index_size =>
        Some (size_t_wrap (current_offset_after_header + index_size))
    | None => None
    end
  else Some current_offset_after_header.

(** The members after [initialize_file_buffer] and the three calls of
    [find_property_index_by_name]. *)
Definition resolve_columns (fgb_buffer : list byte) (fbs_header : Header)
    : flatgeobuf_processor :=
  {| fgb_buffer_ := fgb_buffer;
     processing_futures_ := [];
     feature_submission_count_ := 0;
     uat_name_column_index_ :=
       find_property_index_by_name (Some fbs_header) expected_uat_name_column_;
     uat_code_column_index_ :=
       find_property_index_by_name (Some fbs_header) expected_uat_code_column_;
     county_mn_column_index_ :=
       find_property_index_by_name (Some fbs_header) expected_county_mn_column_ |}.

(** [input_file] is the content of the input file, [None] when it cannot be
    opened or read; [output_opens] tells whether the CSV file can be opened
    for writing.  The result is [None] when the run does not return. *)
Definition process_features (input_file : option (list byte))
    (output_opens : bool) : option (completion run_report) :=
  match input_file with
  | None => Some (Thrown "Cannot open file")
  | Some fgb_buffer =>
      let failed csv :=
        Some (Returned {| return_value := false; output_csv := csv;
                          submitted := [] |}) in
      let size := Z.of_nat (List.length fgb_buffer) in
      if (size =? 0) || (size <? min_fgb_file_size_) then failed None
      else
        match parse_and_validate_header fgb_buffer with
        | None => failed None
        | Some (fbs_header, header_fbs_actual_size) =>
            let st := resolve_columns fgb_buffer fbs_header in
            if negb output_opens then failed None
            else
              let output_file := fresh_stream in
              if negb (supported_geometry_type (geometry_type fbs_header))
              then failed (Some (content output_file))
              else
                let coordinate_stride_val := coordinate_stride_of fbs_header in
                let output_file := write_csv_header output_file in
                match first_feature_offset fbs_header
                                           header_fbs_actual_size with
                | None => Some (Thrown "PackedRTree::size")
                | Some current_offset_after_header =>
                    submission <~ submit_feature_tasks fbs_header
                                    current_offset_after_header
                                    coordinate_stride_val st ;;
                    match submission with
                    | Thrown what => Some (Thrown what)
                    | Returned submission =>
                        let st := snd submission in
                        collection <~ collect_and_write_results st output_file
                                        (feature_submission_count_ st) ;;
                        Some (Returned
                                {| return_value :=
                                     if negb (fst collection) then false
                                     else true;
                                   output_csv :=
                                     Some (content (snd collection));
                                   submitted := processing_futures_ st |})
                    end
                end
        end
  end.

(** The [try] block of [run_application], once the command line has been
    parsed and the processor with its pool constructed: the exit code of
    the process. *)
Definition run_application (input_file : option (list byte))
    (output_opens : bool) : option Z :=
  outcome <~ process_features input_file output_opens ;;
  match outcome with
  | Returned report => Some (if return_value report then 0 else 1)
  | Thrown _ => Some 2
  end.

End Run.

(** ** thread_pool.hpp / thread_pool.cpp, futures and the collector

    The producer thread enqueues one packaged task per feature and afterwards
    walks [processing_futures_] from the front, blocking in [get] on each
    future.  Worker threads take tasks from the front of [tasks_] and fulfil
    the promise of the task they ran.  The steps of the threads interleave
    in any order. *)

(** A packaged task in the queue: its input and the position of its shared
    state in [processing_futures_]. *)
Record pool_task : Type := mk_pool_task {
  promise : nat;
  input : task_input_data
}.

Record system : Type := mk_system {
  (** the task inputs the producer has not enqueued yet *)
  to_submit : list task_input_data;
  (** [thread_pool::tasks_] *)
  tasks_ : list pool_task;
  (** per worker thread, the task it is executing *)
  workers_ : list (option pool_task);
  (** the shared states behind [processing_futures_], in submission order *)
  shared_states : list (option task_result);
  (** how many futures the collecting loop has consumed *)
  collected : nat;
  (** the CSV stream *)
  out_file : ostream
}.

Fixpoint list_set {A : Type} (l : list A) (i : nat) (v : A) : list A :=
  match l, i with
  | [], _ => []
  | _ :: rest, O => v :: rest
  | x :: rest, S i' => x :: list_set rest i' v
  end.

Definition initial_system (inputs : list task_input_data) (num_threads : nat)
    (output_file : ostream) : system :=
  {| to_submit := inputs; tasks_ := []; workers_ := repeat None num_threads;
     shared_states := []; collected := 0; out_file := output_file |}.

Section Concurrency.
Context `{Library}.

Inductive step : system -> system -> Prop :=
(** [enqueue_task]: the producer appends a task and keeps its future. *)
| step_enqueue : forall s x rest,
    to_submit s = x :: rest ->
    step s {| to_submit := rest;
              tasks_ := tasks_ s ++ [{| promise := List.length (shared_states s);
                                        input := x |}];
              workers_ := workers_ s;
              shared_states := shared_states s ++ [None];
              collected := collected s;
              out_file := out_file s |}
(** [worker_loop]: an idle worker takes the front of the queue. *)
| step_dequeue : forall s w t queue,
    nth_error (workers_ s) w = Some None ->
    tasks_ s = t :: queue ->
    step s {| to_submit := to_submit s;
              tasks_ := queue;
              workers_ := list_set (workers_ s) w (Some t);
              shared_states := shared_states s;
              collected := collected s;
              out_file := out_file s |}
(** [worker_loop]: a running task returns and makes its future ready. *)
| step_complete : forall s w t r,
    nth_error (workers_ s) w = Some (Some t) ->
    process_single_feature_task (input t) = Some r ->
    step s {| to_submit := to_submit s;
              tasks_ := tasks_ s;
              workers_ := list_set (workers_ s) w None;
              shared_states := list_set (shared_states s) (promise t) (Some r);
              collected := collected s;
              out_file := out_file s |}
(** [collect_and_write_results]: [get] on the next future returns and the
    row is written. *)
| step_collect : forall s r,
    to_submit s = [] ->
    nth_error (shared_states s) (collected s) = Some (Some r) ->
    step s {| to_submit := to_submit s;
              tasks_ := tasks_ s;
              workers_ := workers_ s;
              shared_states := shared_states s;
              collected := S (collected s);
              out_file := write_result_row (out_file s) r |}.

(** The states a run can reach. *)
Inductive reachable (s0 : system) : system -> Prop :=
| reachable_start : reachable s0 s0
| reachable_step : forall s s', reachable s0 s -> step s s' -> reachable s0 s'.

(** The queue that holds one task per input, the first with promise
    [first_promise]. *)
Fixpoint queue_of (first_promise : nat) (inputs : list task_input_data)
    : list pool_task :=
  match inputs with
  | [] => []
  | x :: rest =>
      {| promise := first_promise; input := x |}
      :: queue_of (S first_promise) rest
  end.

(** One move of one thread. *)
Inductive action : Type :=
| Enqueue
| Dequeue (worker : nat)
| Complete (worker : nat)
| Collect.

(** The state after the move, [None] when the move is not possible. *)
Definition perform (a : action) (s : system) : option system :=
  match a with
  | Enqueue =>
      match to_submit s with
      | x :: rest =>
          Some {| to_submit := rest;
                  tasks_ := tasks_ s ++ [{| promise := List.length (shared_states s);
                                            input := x |}];
                  workers_ := workers_ s;
                  shared_states := shared_states s ++ [None];
                  collected := collected s;
                  out_file := out_file s |}
      | [] => None
      end
  | Dequeue w =>
      match nth_error (workers_ s) w, tasks_ s with
      | Some None, t :: queue =>
          Some {| to_submit := to_submit s;
                  tasks_ := queue;
                  workers_ := list_set (workers_ s) w (Some t);
                  shared_states := shared_states s;
                  collected := collected s;
                  out_file := out_file s |}
      | _, _ => None
      end
  | Complete w =>
      match nth_error (workers_ s) w with
      | Some (Some t) =>
          match process_single_feature_task (input t) with
          | Some r =>
              Some {| to_submit := to_submit s;
                      tasks_ := tasks_ s;
                      workers_ := list_set (workers_ s) w None;
                      shared_states :=
                        list_set (shared_states s) (promise t) (Some r);
                      collected := collected s;
                      out_file := out_file s |}
          | None => None
          end
      | _ => None
      end
  | Collect =>
      match to_submit s, nth_error (shared_states s) (collected s) with
      | [], Some (Some r) =>
          Some {| to_submit := to_submit s;
                  tasks_ := tasks_ s;
                  workers_ := workers_ s;
                  shared_states := shared_states s;
                  collected := S (collected s);
                  out_file := write_result_row (out_file s) r |}
      | _, _ => None
      end
  end.

(** A schedule is a list of moves, performed from left to right. *)
Fixpoint run_schedule (schedule : list action) (s : system) : option system :=
  match schedule with
  | [] => Some s
  | a :: rest =>
      match perform a s with
      | Some s' => run_schedule rest s'
      | None => None
      end
  end.

(** What every reachable state satisfies.  [done] are the inputs already
    enqueued and [rows] the results already written. *)
Definition consistent (inputs : list task_input_data) (os0 : ostream)
    (s : system) : Prop :=
  exists (done : list task_input_data) (rows : list task_result),
    inputs = done ++ to_submit s
    /\ List.length (shared_states s) = List.length done
    /\ (forall i r, nth_error (shared_states s) i = Some (Some r) ->
                    exists x, nth_error done i = Some x
                              /\ process_single_feature_task x = Some r)
    /\ (forall t, In t (tasks_ s) -> nth_error done (promise t) = Some (input t))
    /\ (forall t, In (Some t) (workers_ s) ->
                  nth_error done (promise t) = Some (input t))
    /\ (collected s <= List.length done)%nat
    /\ map process_single_feature_task (firstn (collected s) done)
       = map Some rows
    /\ out_file s = fold_left write_result_row rows os0.

End Concurrency.

(** ** main.cpp *)

(** [arg == "-t" || arg == "--threads"]. *)
Definition is_threads_option (arg : string) : bool :=
  String.eqb arg "-t" || String.eqb arg "--threads".

(** The outcome of [std::stoi]: the value, or the exception thrown. *)
Inductive stoi_result : Type :=
| stoi_value (v : Z)
| stoi_invalid_argument
| stoi_out_of_range.

(** [std::stoi(str)] in base 10: white space is skipped, then an optional
    sign and the decimal digits are read; what follows the digits is
    ignored.  Without a digit the call throws [std::invalid_argument], with
    a value outside [int] it throws [std::out_of_range]. *)
Definition stoi (str : string) : stoi_result :=
  let l := drop_spaces (list_ascii_of_string str) in
  let signed :=
    match l with
    | c :: rest =>
        if Ascii.eqb c "-" then (true, rest)
        else if Ascii.eqb c "+" then (false, rest)
        else (false, l)
    | [] => (false, l)
    end in
  match leading_digits (snd signed) with
  | [] => stoi_invalid_argument
  | ds =>
      let v := if fst signed then - digits_value ds else digits_value ds in
      if (- 2 ^ 31 <=? v) && (v <? 2 ^ 31) then stoi_value v
      else stoi_out_of_range
  end.

(** The loop of [parse_thread_count] from [argv[i]] on; [args] are
    [argv[i]], ..., [argv[argc - 1]].  After an exception of [std::stoi] the
    loop goes on with the next argument, which is the rejected value. *)
Fixpoint parse_thread_count_loop (args : list string) (default_threads : Z)
    : Z :=
  match args with
  | [] => default_threads
  | arg :: rest =>
      match rest with
      | next :: _ =>
          if is_threads_option arg then
            match stoi next with
            | stoi_value threads_arg =>
                if threads_arg >? 0 then threads_arg else 1
            | _ => parse_thread_count_loop rest default_threads
            end
          else parse_thread_count_loop rest default_threads
      | [] => parse_thread_count_loop rest default_threads
      end
  end.

Definition parse_thread_count (argv : list string) (default_threads : Z) : Z :=
  parse_thread_count_loop (tl argv) default_threads.

(** The loop of [extract_positional_args] from [argv[i]] on; the result is
    [input_path] and [output_path]. *)
Fixpoint extract_positional_loop (args : list string)
    (input_path output_path : string) : string * string :=
  match args with
  | [] => (input_path, output_path)
  | arg_str :: rest =>
      if is_threads_option arg_str then
        match rest with
        | [] => (input_path, output_path)
        | _ :: rest' => extract_positional_loop rest' input_path output_path
        end
      else if String.eqb input_path EmptyString
      then extract_positional_loop rest arg_str output_path
      else if String.eqb output_path EmptyString
      then extract_positional_loop rest input_path arg_str
      else extract_positional_loop rest input_path output_path
  end.

Definition extract_positional_args (argv : list string)
    (input_path output_path : string) : string * string :=
  extract_positional_loop (tl argv) input_path output_path.

(** [default_num_threads] in [run_application], from the value of
    [std::thread::hardware_concurrency()]. *)
Definition default_num_threads (num_cores : Z) : Z :=
  let default_num_threads :=
    if num_cores >? 1 then u32_wrap (num_cores - 1) else 1 in
  if num_cores =? 0 then 1 else default_num_threads.


(** ** types.hpp: comparison of county codes *)

(** [county_code::operator==]. *)
Definition county_eqb (a b : county_code) : bool :=
  Ascii.eqb (code0 a) (code0 b) && Ascii.eqb (code1 a) (code1 b).

(** [county_code::operator!=]. *)
Definition county_neqb (a b : county_code) : bool := negb (county_eqb a b).

(** ** The notions the properties are stated with *)

(** A text field has to be quoted when it contains a comma, a double quote
    or a newline. *)
Definition needs_quoting (value : string) : Prop :=
  exists c : ascii,
    In c (list_ascii_of_string value)
    /\ (c = comma \/ c = dquote \/ c = newline).

(** The field with each embedded double quote doubled. *)
Fixpoint quotes_doubled (value : string) : string :=
  match value with
  | EmptyString => EmptyString
  | String c rest =>
      if Ascii.eqb c dquote
      then String dquote (String dquote (quotes_doubled rest))
      else String c (quotes_doubled rest)
  end.

(** The field wrapped in double quotes, embedded quotes doubled. *)
Definition quote_wrapped (value : string) : string :=
  String dquote (quotes_doubled value ++ String dquote EmptyString).

(** Every offset of the list lies inside a blob of the declared size. *)
Definition in_bounds (declared_size : Z) (offsets : list Z) : Prop :=
  Forall (fun o => 0 <= o < declared_size) offsets.

(** The four-byte length stored at [offset]. *)
Definition declared_length (buffer : list byte) (offset : Z) : Z :=
  value_of (ReadScalar 4 buffer offset).

(** The offset just after the record that starts at [offset]. *)
Definition record_end (buffer : list byte) (offset : Z) : Z :=
  size_t_wrap (offset + (4 + declared_length buffer offset)).

(** The record at [offset] lies inside the buffer, length field and payload. *)
Definition record_complete (buffer : list byte) (offset : Z) : bool :=
  (size_t_wrap (offset + 4) <=? Z.of_nat (List.length buffer))
  && (size_t_wrap (offset + 4 + declared_length buffer offset)
      <=? Z.of_nat (List.length buffer)).

(** The length field at [offset] can be read, and the length it declares
    exceeds the bytes that remain. *)
Definition record_truncated (buffer : list byte) (offset : Z) : bool :=
  (size_t_wrap (offset + 4) <=? Z.of_nat (List.length buffer))
  && (size_t_wrap (offset + 4 + declared_length buffer offset)
      >? Z.of_nat (List.length buffer)).

(** Starting at [offset] there are [k] complete records and then a truncated
    one. *)
Fixpoint truncated_after (k : nat) (buffer : list byte) (offset : Z) : bool :=
  match k with
  | O => record_truncated buffer offset
  | S k' =>
      record_complete buffer offset
      && truncated_after k' buffer (record_end buffer offset)
  end.

(** Starting at [offset] there are [n] complete records. *)
Fixpoint complete_records (n : nat) (buffer : list byte) (offset : Z) : bool :=
  match n with
  | O => true
  | S n' =>
      record_complete buffer offset
      && complete_records n' buffer (record_end buffer offset)
  end.

(** The features of the [n] records from [offset] on, in file order; a
    record for which the decoder gives no feature is left out. *)
Fixpoint features_of_records `{Library} (n : nat) (buffer : list byte)
    (offset : Z) : list Feature :=
  match n with
  | O => []
  | S n' =>
      match GetSizePrefixedFeature buffer offset with
      | Some feature => [feature]
      | None => []
      end ++ features_of_records n' buffer (record_end buffer offset)
  end.

(** [t] is the task of the feature [f], submitted after [count] others by a
    processor with the column indices of [st]: its name is the name property
    of [f], or the fallback name numbered [count + 1] when that is empty;
    its code and county are those read from [f]; it carries the geometry of
    [f], the given stride and the type of the geometry. *)
Definition task_built_from `{Library} (fbs_header : Header)
    (st : flatgeobuf_processor) (stride : Z) (count : Z) (f : Feature)
    (t : task_input_data) : Prop :=
  (exists text,
      property_or_empty f fbs_header (uat_name_column_index_ st) = Some text
      /\ in_uat_name t
         = if String.eqb text EmptyString
           then (uat_name_fallback_prefix_ ++ to_string (count + 1))%string
           else text)
  /\ extract_uat_code f fbs_header (uat_code_column_index_ st)
     = Some (in_uat_code t)
  /\ (exists text,
         property_or_empty f fbs_header (county_mn_column_index_ st)
         = Some text
         /\ in_county_mn t = county_code_of_string text)
  /\ geometry_ptr t = geometry f
  /\ coordinate_stride t = stride
  /\ actual_geometry_type t
     = match geometry f with
       | Some g => geometry_type_of g
       | None => Unknown
       end.

(** [tasks] are the tasks of [features], one each and in the same order, the
    first submitted after [count] others. *)
Definition every_feature_submitted `{Library} (fbs_header : Header)
    (st : flatgeobuf_processor) (stride : Z) (count : Z)
    (features : list Feature) (tasks : list task_input_data) : Prop :=
  List.length tasks = List.length features
  /\ forall (k : nat) (f : Feature),
       nth_error features k = Some f ->
       exists t, nth_error tasks k = Some t
                 /\ task_built_from fbs_header st stride
                                    (count + Z.of_nat k) f t.

(** The sequence of (column index, value) pairs of a blob, pair after pair:
    [column_index_at cols data size earlier off idx] says that the pairs for
    the columns [earlier] are followed by a pair whose column index [idx] is
    stored at offset [off].  The width of a value is the one
    [skip_property_value_at_offset] computes for the type of its column. *)
Inductive column_index_at (cols : list Column) (data : list byte) (size : Z)
    : list Z -> Z -> Z -> Prop :=
| index_first :
    2 <= size ->
    column_index_at cols data size [] 0 (value_of (ReadScalar 2 data 0))
| index_next : forall earlier off idx column next,
    column_index_at cols data size earlier off idx ->
    idx < vector_size cols ->
    nth_error cols (Z.to_nat idx) = Some column ->
    next = off + 2
           + value_of (skip_property_value_at_offset (col_type column) data
                                                     (off + 2) size) ->
    next + 2 <= size ->
    column_index_at cols data size (earlier ++ [idx]) next
                    (value_of (ReadScalar 2 data next)).

(** How many points the coordinate scan visits in an array of [n] doubles:
    one for every [k] with [k * stride + 1 < n]. *)
Definition point_count (n stride : nat) : nat :=
  if (n <=? 1)%nat then 0%nat else S ((n - 2) / stride).

(** The XY pairs at the multiples of [stride] in a flat coordinate array. *)
Definition strided_points (coords : list R) (stride : nat) : list (R * R) :=
  map (fun k => (nth (k * stride) coords 0%R, nth (k * stride + 1) coords 0%R))
      (seq 0 (point_count (List.length coords) stride)).

(** The points of a geometry that carries its coordinates itself. *)
Definition ring_points (stride : nat) (g : Geometry) : list (R * R) :=
  match xy g with
  | Some coords => strided_points coords stride
  | None => []
  end.

(** The points of a polygon: those of its rings, or its own when it has no
    ring parts. *)
Definition polygon_points (stride : nat) (pg : Geometry) : list (R * R) :=
  match parts pg with
  | Some rings => flat_map (ring_points stride) rings
  | None => ring_points stride pg
  end.

(** The points of a geometry handled as type [ty], in scan order. *)
Definition geometry_points (stride : nat) (ty : GeometryType) (g : Geometry)
    : list (R * R) :=
  match ty with
  | Polygon => polygon_points stride g
  | MultiPolygon =>
      match parts g with
      | Some polygon_parts => flat_map (polygon_points stride) polygon_parts
      | None => []
      end
  | _ => ring_points stride g
  end.

(** The characters [trim] keeps, on the list of characters of its
    argument. *)
Definition trimmed (l : list ascii) : list ascii :=
  rev (drop_spaces (rev (drop_spaces l))).

(** ** Sample inputs *)

(** A ring with the given flat coordinate array. *)
Definition ring (coords : list R) : Geometry :=
  mkGeometry (Some coords) None LineString.

(** A polygon made of the given rings. *)
Definition polygon_of (rings : list Geometry) : Geometry :=
  mkGeometry None (Some rings) Polygon.

(** A polygon without ring parts that carries its coordinates itself. *)
Definition bare_polygon : Geometry :=
  mkGeometry (Some [0; 0; 4; 0; 4; 3; 0; 3]%R) None Polygon.

(** Two polygons with disjoint extents in the negative quadrant:
    [(-4,-4) .. (-3,-3)] and [(-2,-2) .. (-1,-1)]. *)
Definition negative_multipolygon : Geometry :=
  mkGeometry None
    (Some [polygon_of [ring [-4; -4; -3; -4; -3; -3; -4; -3]%R];
           polygon_of [ring [-2; -2; -1; -2; -1; -1; -2; -1]%R]])
    MultiPolygon.

(** Two polygons with disjoint extents in the positive quadrant. *)
Definition positive_multipolygon : Geometry :=
  mkGeometry None
    (Some [polygon_of [ring [1; 1; 2; 1; 2; 2; 1; 2]%R];
           polygon_of [ring [5; 6; 7; 6; 7; 9; 5; 9]%R]])
    MultiPolygon.

(** An instance of the library interface for the examples.  The header and
    the features are looked up in given tables instead of being decoded from
    FlatBuffers bytes, the spatial index takes no room, memory is never
    short, floating-point numbers are printed as [#] and integers in
    decimal. *)
Definition sample_library (header : Header) (features : list (Z * Feature))
    : Library :=
  {| GetHeader := fun _ _ => Some header;
     GetSizePrefixedFeature := fun _ off =>
       match find (fun entry => fst entry =? off) features with
       | Some entry => Some (snd entry)
       | None => None
       end;
     PackedRTree_size := fun _ _ => Some 0;
     format_float := fun _ => "#"%string;
     format_double := fun _ => "#"%string;
     put_double := fun _ _ _ => "#"%string;
     put_unsigned := fun _ v => to_string v;
     allocate_futures := fun _ => true |}.

(** The column schema of the UAT files: name, natcode and countyMn, all
    strings. *)
Definition uat_columns : list Column :=
  [ {| col_name := Some expected_uat_name_column_; col_type := String_ |};
    {| col_name := Some expected_uat_code_column_; col_type := String_ |};
    {| col_name := Some expected_county_mn_column_; col_type := String_ |} ].

Definition uat_header (count : Z) : Header :=
  {| name := Some "uat"%string; geometry_type := Polygon;
     has_z := false; has_m := false; features_count := count;
     columns := Some uat_columns; index_node_size := 0 |}.

(** The bytes of a string. *)
Definition bytes_of (s : string) : list byte :=
  map byte_of_ascii (list_ascii_of_string s).

(** One property entry: column index, length prefix and characters. *)
Definition string_entry (column : byte) (s : string) : list byte :=
  [column; x00] ++ [match Byte.of_N (N.of_nat (String.length s)) with
                    | Some b => b
                    | None => x00
                    end; x00; x00; x00] ++ bytes_of s.

(** name = Dej, natcode = 55008 (with a leading blank), countyMn = CJ. *)
Definition dej_properties : list byte :=
  string_entry x00 "Dej" ++ string_entry x01 " 55008" ++ string_entry x02 "CJ".

(** The name, then an entry whose column index 99 is outside the schema. *)
Definition corrupt_properties : list byte :=
  string_entry x00 "Gherla" ++ string_entry x63 "12345" ++ string_entry x02 "CJ".

Definition dej_feature : Feature :=
  {| geometry := Some bare_polygon; properties := Some dej_properties |}.

Definition corrupt_feature : Feature :=
  {| geometry := Some bare_polygon; properties := Some corrupt_properties |}.

(** Magic bytes, a four-byte header, and [records]. *)
Definition sample_file (records : list byte) : list byte :=
  expected_magic_bytes ++ [x04; x00; x00; x00] ++ [x00; x00; x00; x00]
  ++ records.

(** Two records are announced.  The first holds two bytes; the second
    declares nine bytes of which only one is present. *)
Definition truncated_file : list byte :=
  sample_file ([x02; x00; x00; x00; xaa; xbb] ++ [x09; x00; x00; x00; xcc]).

(** Two complete records of two bytes each. *)
Definition complete_file : list byte :=
  sample_file ([x02; x00; x00; x00; xaa; xbb] ++ [x02; x00; x00; x00; xcc; xdd]).

(** The decoder tables that go with [truncated_file]. *)
Definition truncated_library : Library :=
  sample_library (uat_header 2) [(16, dej_feature)].

(** The decoder tables that go with [complete_file]: the first feature has
    the corrupt property blob, the second is sound. *)
Definition corrupt_first_library : Library :=
  sample_library (uat_header 2) [(16, corrupt_feature); (22, dej_feature)].

(** Two tasks for features without geometry. *)
Definition task_a : task_input_data :=
  {| in_uat_name := "Apahida"; in_uat_code := 55473;
     in_county_mn := {| code0 := "C"; code1 := "J" |};
     geometry_ptr := None; coordinate_stride := 2;
     actual_geometry_type := Unknown |}.

Definition task_b : task_input_data :=
  {| in_uat_name := "Baciu"; in_uat_code := 55598;
     in_county_mn := {| code0 := "C"; code1 := "J" |};
     geometry_ptr := None; coordinate_stride := 2;
     actual_geometry_type := Unknown |}.

(** Both tasks are enqueued and taken by two workers; the second task
    completes first; then both futures are collected. *)
Definition out_of_order_schedule : list action :=
  [Enqueue; Enqueue; Dequeue 0; Dequeue 1; Complete 1; Complete 0;
   Collect; Collect].

(** The first task completes and is collected before the second is even
    taken from the queue; one worker. *)
Definition in_order_schedule : list action :=
  [Enqueue; Enqueue; Dequeue 0; Complete 0; Collect; Dequeue 0; Complete 0;
   Collect].

Definition result_a : task_result :=
  {| uat_name := "Apahida"; uat_code := 55473;
     county_mn := {| code0 := "C"; code1 := "J" |};
     bbox := bounding_box_default |}.

Definition result_b : task_result :=
  {| uat_name := "Baciu"; uat_code := 55598;
     county_mn := {| code0 := "C"; code1 := "J" |};
     bbox := bounding_box_default |}.

(** The state at the end of [out_of_order_schedule] on two workers. *)
Definition out_of_order_final : system :=
  {| to_submit := []; tasks_ := []; workers_ := [None; None];
     shared_states := [Some result_a; Some result_b];
     collected := 2;
     out_file :=
       fold_left (@write_result_row corrupt_first_library)
                 [result_a; result_b] fresh_stream |}.

(** A schema with an Int, a Bool and a Short column, and a blob that gives
    them the values -2, true and -1. *)
Definition mixed_columns : list Column :=
  [ {| col_name := Some "elevation"%string; col_type := Int |};
    {| col_name := Some "urban"%string; col_type := Bool |};
    {| col_name := Some "delta"%string; col_type := Short |} ].

Definition mixed_properties : list byte :=
  [x00; x00; xfe; xff; xff; xff] ++ [x01; x00; x01] ++ [x02; x00; xff; xff].

(** ** Writing a property blob

    The sources only read property blobs.  To state what the reader recovers,
    this is the writer of the same layout: per pair a two-byte column index
    and the value, all little-endian, a string with a four-byte length in
    front. *)

Definition byte_of_Z (v : Z) : byte :=
  match Byte.of_N (Z.to_N (v mod 256)) with
  | Some b => b
  | None => x00
  end.

(** The [width] low bytes of [v], least significant first (two's complement
    for a negative [v]). *)
Fixpoint le_bytes (width : nat) (v : Z) : list byte :=
  match width with
  | O => []
  | S width' => byte_of_Z v :: le_bytes width' (v / 256)
  end.

(** A value of one of the column types whose text the reader produces
    itself. *)
Inductive property_value : Type :=
| byte_value (v : Z)
| ubyte_value (v : Z)
| bool_value (b : bool)
| short_value (v : Z)
| ushort_value (v : Z)
| int_value (v : Z)
| uint_value (v : Z)
| long_value (v : Z)
| ulong_value (v : Z)
| string_value (s : string).

Definition value_type (v : property_value) : ColumnType :=
  match v with
  | byte_value _ => Byte_
  | ubyte_value _ => UByte
  | bool_value _ => Bool
  | short_value _ => Short
  | ushort_value _ => UShort
  | int_value _ => Int
  | uint_value _ => UInt
  | long_value _ => Long
  | ulong_value _ => ULong
  | string_value _ => String_
  end.

(** The value fits its type. *)
Definition value_in_range (v : property_value) : Prop :=
  match v with
  | byte_value z => - 2 ^ 7 <= z < 2 ^ 7
  | ubyte_value z => 0 <= z < 2 ^ 8
  | bool_value _ => True
  | short_value z => - 2 ^ 15 <= z < 2 ^ 15
  | ushort_value z => 0 <= z < 2 ^ 16
  | int_value z => - 2 ^ 31 <= z < 2 ^ 31
  | uint_value z => 0 <= z < 2 ^ 32
  | long_value z => - 2 ^ 63 <= z < 2 ^ 63
  | ulong_value z => 0 <= z < 2 ^ 64
  | string_value s => Z.of_nat (String.length s) < 2 ^ 32
  end.

Definition value_payload (v : property_value) : list byte :=
  match v with
  | byte_value z | ubyte_value z => le_bytes 1 z
  | bool_value b => [if b then x01 else x00]
  | short_value z | ushort_value z => le_bytes 2 z
  | int_value z | uint_value z => le_bytes 4 z
  | long_value z | ulong_value z => le_bytes 8 z
  | string_value s => le_bytes 4 (Z.of_nat (String.length s)) ++ bytes_of s
  end.

(** The text the value is expected to be read as. *)
Definition value_text (v : property_value) : string :=
  match v with
  | byte_value z | ubyte_value z | short_value z | ushort_value z
  | int_value z | uint_value z | long_value z | ulong_value z => to_string z
  | bool_value b => if b then "true" else "false"
  | string_value s => s
  end.

Definition encode_entry (entry : Z * property_value) : list byte :=
  le_bytes 2 (fst entry) ++ value_payload (snd entry).

Definition encode_properties (entries : list (Z * property_value))
    : list byte :=
  flat_map encode_entry entries.

(** The value of the first pair for [column]. *)
Fixpoint first_value (column : Z) (entries : list (Z * property_value))
    : option property_value :=
  match entries with
  | [] => None
  | (c, v) :: rest => if c =? column then Some v else first_value column rest
  end.

(** The pair names a column of the schema (by an index that fits two bytes)
    with the type of its value, and the value fits the type. *)
Definition entry_fits (cols : list Column) (entry : Z * property_value)
    : Prop :=
  0 <= fst entry < vector_size cols
  /\ fst entry < 2 ^ 16
  /\ (exists col, nth_error cols (Z.to_nat (fst entry)) = Some col
                  /\ col_type col = value_type (snd entry))
  /\ value_in_range (snd entry).

(** ** Rows of the CSV file *)

(** The stream [os] with [prefix] in front of the characters it holds. *)
Definition with_prefix (prefix : string) (os : ostream) : ostream :=
  {| content := prefix ++ content os; flags := flags os;
     precision := precision os |}.

(** The characters the row of [r] adds to a stream that has the flags and
    the precision of a freshly opened one. *)
Definition row_text `{Library} (r : task_result) : string :=
  content (write_result_row fresh_stream r).

(** ** Submitted tasks *)

(** What holds of the task built for the submission at [position] (counted
    from 0) when the name column has index [name_index] and the stride is
    [stride]: the name is not empty, and is the fallback name numbered
    [position + 1] when there is no name column; the code fits 32 bits; the
    stride is the given one; the geometry type is that of the geometry, or
    [Unknown] without one. *)
Definition well_formed_task (name_index : option Z) (stride : Z)
    (position : nat) (task : task_input_data) : Prop :=
  in_uat_name task <> EmptyString
  /\ (name_index = None ->
      in_uat_name task
      = (uat_name_fallback_prefix_ ++ to_string (Z.of_nat position + 1))%string)
  /\ 0 <= in_uat_code task < 2 ^ 32
  /\ coordinate_stride task = stride
  /\ actual_geometry_type task
     = match geometry_ptr task with
       | Some g => geometry_type_of g
       | None => Unknown
       end.

(** ** The moves of a run of the pool *)

Definition is_busy (w : option pool_task) : bool :=
  match w with
  | Some _ => true
  | None => false
  end.

(** The number of workers that are executing a task. *)
Definition busy_workers (s : system) : nat :=
  List.length (filter is_busy (workers_ s)).

(** The moves a run still has to make: four for an input not yet enqueued
    (enqueue, dequeue, complete, collect), three for a queued task, two for
    a running one and one for a future not yet collected. *)
Definition moves_left (s : system) : nat :=
  4 * List.length (to_submit s) + 2 * List.length (tasks_ s)
  + busy_workers s + (List.length (shared_states s) - collected s).

(** Every future that is not ready belongs to a task that is in the queue or
    is being executed. *)
Definition pending_is_held (s : system) : Prop :=
  forall i : nat,
    nth_error (shared_states s) i = Some None ->
    (exists t, In t (tasks_ s) /\ promise t = i)
    \/ (exists t, In (Some t) (workers_ s) /\ promise t = i).

(** The task a worker is executing, if any. *)
Definition running_task (w : option pool_task) : list pool_task :=
  match w with
  | Some t => [t]
  | None => []
  end.

(** The tasks that are in the queue or are being executed. *)
Definition held_tasks (s : system) : list pool_task :=
  tasks_ s ++ flat_map running_task (workers_ s).

(** No two held tasks have the same promise, the future of a held task is
    not ready, and the futures already collected are ready. *)
Definition futures_in_order (s : system) : Prop :=
  NoDup (map promise (held_tasks s))
  /\ (forall t, In t (held_tasks s) ->
                nth_error (shared_states s) (promise t) = Some None)
  /\ (forall i : nat, (i < collected s)%nat ->
                      exists r, nth_error (shared_states s) i = Some (Some r)).

(** ** bounding_box over every [double]

    A file can hold any [double] as a coordinate, NaN and the infinities
    included.  [update] only compares and copies, so what it does with them
    is fixed by [<] on doubles, which is false as soon as one side is NaN.
    On finite coordinates this model and the one over [R] agree. *)

Inductive double : Type :=
| finite (r : R)
| plus_infinity
| minus_infinity
| NaN.

(** [a < b]. *)
Definition double_lt (a b : double) : bool :=
  match a, b with
  | finite x, finite y => if Rlt_dec x y then true else false
  | finite _, plus_infinity => true
  | minus_infinity, finite _ => true
  | minus_infinity, plus_infinity => true
  | _, _ => false
  end.

(** [std::min(a, b)] is [(b < a) ? b : a]. *)
Definition std_min_d (a b : double) : double := if double_lt b a then b else a.
(** [std::max(a, b)] is [(a < b) ? b : a]. *)
Definition std_max_d (a b : double) : double := if double_lt a b then b else a.

Record bounding_box_d : Type := mk_bounding_box_d {
  min_x_d : double;
  min_y_d : double;
  max_x_d : double;
  max_y_d : double;
  is_valid_d : bool
}.

Definition bounding_box_default_d : bounding_box_d :=
  {| min_x_d := finite DBL_MAX; min_y_d := finite DBL_MAX;
     max_x_d := finite 0; max_y_d := finite 0; is_valid_d := false |}.

Definition update_d (bb : bounding_box_d) (x y : double) : bounding_box_d :=
  {| min_x_d := std_min_d (min_x_d bb) x;
     min_y_d := std_min_d (min_y_d bb) y;
     max_x_d := std_max_d (max_x_d bb) x;
     max_y_d := std_max_d (max_y_d bb) y;
     is_valid_d := true |}.

Definition update_all_d (bb : bounding_box_d) (pts : list (double * double))
    : bounding_box_d :=
  fold_left (fun b p => update_d b (fst p) (snd p)) pts bb.

(** [a <= b], for two doubles that are both numbers. *)
Definition double_le (a b : double) : Prop :=
  match a, b with
  | NaN, _ | _, NaN => False
  | finite x, finite y => (x <= y)%R
  | minus_infinity, _ => True
  | _, plus_infinity => True
  | _, _ => False
  end.

(** The point lies inside the stored extent. *)
Definition includes_d (bb : bounding_box_d) (x y : double) : Prop :=
  (double_le (min_x_d bb) x /\ double_le x (max_x_d bb))
  /\ (double_le (min_y_d bb) y /\ double_le y (max_y_d bb)).

(** A box with finite bounds and a point with finite coordinates, as
    doubles. *)
Definition box_of_reals (bb : bounding_box) : bounding_box_d :=
  {| min_x_d := finite (min_x bb); min_y_d := finite (min_y bb);
     max_x_d := finite (max_x bb); max_y_d := finite (max_y bb);
     is_valid_d := is_valid bb |}.

Definition point_of_reals (p : R * R) : double * double :=
  (finite (fst p), finite (snd p)).

(** * Properties *)

(** ** bounding_box *)

Lemma DBL_MAX_large : (1000000000 < DBL_MAX)%R.
Proof. unfold DBL_MAX. apply IZR_lt. reflexivity. Qed.

(** Decides every comparison hidden in [std_min] and [std_max]. *)
Ltac compare_reals :=
  unfold std_min, std_max in *;
  repeat match goal with
         | |- context [Rlt_dec ?a ?b] => destruct (Rlt_dec a b)
         | H : context [Rlt_dec ?a ?b] |- _ => destruct (Rlt_dec a b)
         end;
  simpl in *; try lra.

Lemma std_min_l (a b : R) : (std_min a b <= a)%R.
Proof. compare_reals. Qed.

Lemma std_max_l (a b : R) : (a <= std_max a b)%R.
Proof. compare_reals. Qed.

Lemma std_max_r (a b : R) : (b <= std_max a b)%R.
Proof. compare_reals. Qed.

Lemma std_min_r (a b : R) : (std_min a b <= b)%R.
Proof. compare_reals. Qed.

Lemma std_min_absorb (a b : R) : (a <= b)%R -> std_min a b = a.
Proof. intros; compare_reals. Qed.

Lemma std_max_absorb (a b : R) : (b <= a)%R -> std_max a b = a.
Proof. intros; compare_reals. Qed.

Lemma std_min_take (a b : R) : (b < a)%R -> std_min a b = b.
Proof. intros; compare_reals. Qed.

Lemma std_max_take (a b : R) : (a < b)%R -> std_max a b = b.
Proof. intros; compare_reals. Qed.

(** Evaluates a bounding-box computation on concrete coordinates, innermost
    comparison first. *)
Ltac evaluate_bbox :=
  pose proof DBL_MAX_large;
  cbn -[DBL_MAX std_min std_max];
  unfold update; cbn -[DBL_MAX std_min std_max];
  repeat match goal with
         | |- context [std_min ?a ?b] =>
             first [ rewrite (std_min_take a b) by lra
                   | rewrite (std_min_absorb a b) by lra ]
         | |- context [std_max ?a ?b] =>
             first [ rewrite (std_max_take a b) by lra
                   | rewrite (std_max_absorb a b) by lra ]
         end;
  try reflexivity.

Lemma std_min_swap (a b c : R) :
  std_min (std_min a b) c = std_min (std_min a c) b.
Proof. compare_reals. Qed.

Lemma std_max_swap (a b c : R) :
  std_max (std_max a b) c = std_max (std_max a c) b.
Proof. compare_reals. Qed.

Lemma update_all_app (bb : bounding_box) (l1 l2 : list (R * R)) :
  update_all bb (l1 ++ l2) = update_all (update_all bb l1) l2.
Proof. unfold update_all. apply fold_left_app. Qed.

Lemma update_all_cons (bb : bounding_box) (p : R * R) (l : list (R * R)) :
  update_all bb (p :: l) = update_all (update bb (fst p) (snd p)) l.
Proof. reflexivity. Qed.

Lemma update_swap (bb : bounding_box) (x1 y1 x2 y2 : R) :
  update (update bb x1 y1) x2 y2 = update (update bb x2 y2) x1 y1.
Proof.
  unfold update; cbn [min_x min_y max_x max_y is_valid].
  f_equal; auto using std_min_swap, std_max_swap.
Qed.

(** A valid box is a fixed point of [update] at every point it contains. *)
Lemma update_included_valid (bb : bounding_box) (x y : R) :
  is_valid bb = true -> includes bb x y -> update bb x y = bb.
Proof.
  intros Hv [[Hx1 Hx2] [Hy1 Hy2]]. destruct bb as [a b c d v].
  cbn in *. subst v. unfold update; cbn.
  rewrite !std_min_absorb, !std_max_absorb by assumption. reflexivity.
Qed.

Lemma update_all_valid (bb : bounding_box) (pts : list (R * R)) :
  pts <> [] -> is_valid (update_all bb pts) = true.
Proof.
  destruct pts as [|p pts]; [congruence|]. intros _.
  rewrite update_all_cons. generalize (update bb (fst p) (snd p)) (eq_refl : is_valid (update bb (fst p) (snd p)) = true).
  induction pts as [|q pts IH]; intros b Hb; [exact Hb|].
  rewrite update_all_cons. apply IH. reflexivity.
Qed.

Lemma max_monotone (bb : bounding_box) (x y : R) :
  (max_x bb <= max_x (update bb x y) /\ max_y bb <= max_y (update bb x y))%R.
Proof. split; apply std_max_l. Qed.

Lemma update_all_max_lower (bb : bounding_box) (pts : list (R * R)) :
  (max_x bb <= max_x (update_all bb pts) /\ max_y bb <= max_y (update_all bb pts))%R.
Proof.
  revert bb. induction pts as [|p pts IH]; intros bb; [cbn; lra|].
  rewrite update_all_cons.
  destruct (IH (update bb (fst p) (snd p))) as [Hx Hy].
  destruct (max_monotone bb (fst p) (snd p)) as [Hx' Hy']. lra.
Qed.

(** C3. Starting from a default-constructed box, after any finite sequence of
    [update] calls (hence after each call of a longer sequence) both maxima
    are at least zero; a single call never lowers a maximum; and a box that
    has only seen the negative point (-5, -7) still reports maxima of zero. *)
Theorem max_components_never_below_zero :
  (forall pts : list (R * R),
      (0 <= max_x (update_all bounding_box_default pts))%R
      /\ (0 <= max_y (update_all bounding_box_default pts))%R)
  /\ (forall (bb : bounding_box) (x y : R),
         (max_x bb <= max_x (update bb x y))%R
         /\ (max_y bb <= max_y (update bb x y))%R)
  /\ (max_x (update bounding_box_default (-5) (-7)) = 0%R
      /\ max_y (update bounding_box_default (-5) (-7)) = 0%R).
Proof.
  split; [|split].
  - intros pts. exact (update_all_max_lower bounding_box_default pts).
  - exact max_monotone.
  - split; evaluate_bbox.
Qed.

(** A box built by the constructor and [update] calls that contains a
    point has seen a point, so it is valid. *)
Lemma includes_built_valid (pts : list (R * R)) (x y : R) :
  includes (update_all bounding_box_default pts) x y ->
  is_valid (update_all bounding_box_default pts) = true.
Proof.
  intros Hin. destruct pts as [|p pts].
  - exfalso. destruct Hin as [[H1 H2] _]. cbn in H1, H2.
    pose proof DBL_MAX_large. lra.
  - apply update_all_valid. discriminate.
Qed.

(** Applying the same point twice is the same as applying it once. *)
Lemma update_twice (bb : bounding_box) (x y : R) :
  update (update bb x y) x y = update bb x y.
Proof.
  apply update_included_valid; [reflexivity|].
  unfold includes, update; cbn [min_x min_y max_x max_y].
  pose proof (std_min_r (min_x bb) x). pose proof (std_max_r (max_x bb) x).
  pose proof (std_min_r (min_y bb) y). pose proof (std_max_r (max_y bb) y).
  lra.
Qed.

(** C7. [update] is idempotent: applying a point again right after it was
    applied changes nothing, whatever the box was; more generally,
    re-applying any point that lies inside the extent leaves the box
    unchanged, for every box built by the constructor and [update] calls and
    for every box whose [is_valid] flag is set.  [update] is
    order-independent: the box obtained from a list of points is the same
    for every permutation of the list, whatever box the updates start
    from. *)
Theorem update_idempotent_and_order_independent :
  (forall (bb : bounding_box) (x y : R),
      update (update bb x y) x y = update bb x y)
  /\ (forall (pts : list (R * R)) (x y : R),
         includes (update_all bounding_box_default pts) x y ->
         update (update_all bounding_box_default pts) x y
         = update_all bounding_box_default pts)
  /\ (forall (bb : bounding_box) (x y : R),
         is_valid bb = true -> includes bb x y -> update bb x y = bb)
  /\ (forall (bb : bounding_box) (l l' : list (R * R)),
         Permutation l l' -> update_all bb l = update_all bb l').
Proof.
  split; [exact update_twice|]. split; [|split].
  - intros pts x y Hin. apply update_included_valid; [|exact Hin].
    now apply includes_built_valid with (x := x) (y := y).
  - exact update_included_valid.
  - intros bb l l' Hp. revert bb.
    induction Hp as [|p l l' _ IH|p q l|l l' l'' _ IH1 _ IH2]; intros bb.
    + reflexivity.
    + rewrite !update_all_cons. apply IH.
    + rewrite !update_all_cons. now rewrite update_swap.
    + now rewrite IH1.
Qed.

Lemma update_idempotent_and_order_independent_witness :
  update (update_all bounding_box_default [(1, 2); (3, 4)]%R) 2%R 3%R
  = update_all bounding_box_default [(1, 2); (3, 4)]%R
  /\ update (update bounding_box_default (-1) (-1)) (-1)%R (-1)%R
     = update bounding_box_default (-1) (-1)
  /\ update_all bounding_box_default [(1, 2); (3, 4)]%R
     = update_all bounding_box_default [(3, 4); (1, 2)]%R.
Proof.
  destruct update_idempotent_and_order_independent
    as [_ [Hbuilt [Hvalid Hperm]]].
  split; [|split].
  - apply (Hbuilt [(1, 2); (3, 4)]%R 2%R 3%R).
    unfold includes. evaluate_bbox. lra.
  - apply Hvalid.
    + reflexivity.
    + unfold includes. evaluate_bbox. lra.
  - apply Hperm. apply perm_swap.
Defined.

(** ** geometry_processor *)

(** The specification's Polygon example: no ring parts, coordinates
    (0,0), (4,0), (4,3), (0,3). *)
Example bare_polygon_bbox :
  calculate_for_geometry (Some bare_polygon) 2 Polygon
  = Some {| min_x := 0; min_y := 0; max_x := 4; max_y := 3; is_valid := true |}.
Proof. evaluate_bbox. Qed.

Example positive_multipolygon_bbox :
  calculate_for_geometry (Some positive_multipolygon) 2 MultiPolygon
  = Some {| min_x := 1; min_y := 1; max_x := 7; max_y := 9; is_valid := true |}.
Proof. evaluate_bbox. Qed.

(** C2 (the code departs from the claim). For the MultiPolygon made of the
    polygons with extents [(-4,-4) .. (-3,-3)] and [(-2,-2) .. (-1,-1)] the
    union of the extents has its maximum at (-1,-1), but
    [calculate_for_geometry] returns a maximum of (0,0): the maxima of a new
    box start at zero. *)
Theorem negative_multipolygon_bbox :
  calculate_for_geometry (Some negative_multipolygon) 2 MultiPolygon
  = Some {| min_x := -4; min_y := -4; max_x := 0; max_y := 0; is_valid := true |}.
Proof. evaluate_bbox. Qed.

(** ** CSV output *)

Lemma append_nil_r (s : string) : (s ++ EmptyString)%string = s.
Proof. induction s as [|c s IH]; cbn; [reflexivity|now rewrite IH]. Qed.

Lemma append_assoc (a b c : string) :
  ((a ++ b) ++ c)%string = (a ++ (b ++ c))%string.
Proof. induction a as [|x a IH]; cbn; [reflexivity|now rewrite IH]. Qed.

Lemma find_first_of_none (value : string) (chars : list ascii) (pos : nat) :
  find_first_of value chars pos = None <->
  (forall c, In c (list_ascii_of_string value) -> existsb (Ascii.eqb c) chars = false).
Proof.
  revert pos. induction value as [|c rest IH]; intros pos; cbn.
  - split; [intros _ c []|reflexivity].
  - destruct (existsb (Ascii.eqb c) chars) eqn:E.
    + split; [discriminate|]. intros Hall.
      specialize (Hall c (or_introl eq_refl)). congruence.
    + rewrite IH. split.
      * intros Hall d [<-|Hd]; [exact E|now apply Hall].
      * intros Hall d Hd. apply Hall. now right.
Qed.

Lemma special_character (c : ascii) :
  existsb (Ascii.eqb c) [comma; dquote; newline] = true <->
  (c = comma \/ c = dquote \/ c = newline).
Proof.
  cbn. rewrite !orb_true_iff, !Ascii.eqb_eq. intuition congruence.
Qed.

Lemma find_first_of_special (value : string) :
  (exists pos, find_first_of value [comma; dquote; newline] 0 = Some pos)
  <-> needs_quoting value.
Proof.
  unfold needs_quoting. split.
  - intros [pos Hpos].
    destruct (find_first_of_none value [comma; dquote; newline] 0) as [_ Hn].
    assert (Hex : ~ forall c, In c (list_ascii_of_string value) ->
                   existsb (Ascii.eqb c) [comma; dquote; newline] = false).
    { intros Hall. rewrite (Hn Hall) in Hpos. discriminate. }
    clear Hn Hpos pos.
    induction value as [|c rest IH].
    + exfalso. apply Hex. intros c [].
    + destruct (existsb (Ascii.eqb c) [comma; dquote; newline]) eqn:E.
      * exists c. split; [now left|]. now apply special_character.
      * destruct IH as [d [Hd Hs]].
        { intros Hall. apply Hex. intros d [<-|Hd]; [exact E|now apply Hall]. }
        exists d. split; [now right|exact Hs].
  - intros [c [Hc Hs]].
    destruct (find_first_of value [comma; dquote; newline] 0) as [pos|] eqn:E;
      [now exists pos|].
    apply find_first_of_none with (c := c) in E; [|exact Hc].
    apply special_character in Hs. congruence.
Qed.

(** The quote-escaping loop appends [quotes_doubled] of what it walks. *)
Lemma escape_loop_content (chars : string) (os : ostream) :
  fold_left (fun os c =>
               if Ascii.eqb c dquote
               then put_string local_csv_escaped_quote_str os
               else put_char c os)
            (list_ascii_of_string chars) os
  = put_string (quotes_doubled chars) os.
Proof.
  revert os.
  induction chars as [|c rest IH]; intros os;
    cbn [list_ascii_of_string fold_left quotes_doubled].
  - unfold put_string. rewrite append_nil_r. now destruct os.
  - rewrite IH. unfold put_char, put_string, local_csv_escaped_quote_str.
    destruct (Ascii.eqb c dquote); cbn [content flags precision]; f_equal;
      rewrite append_assoc; reflexivity.
Qed.

Lemma write_csv_escaped_string_state (os : ostream) (value : string) :
  flags (write_csv_escaped_string os value) = flags os
  /\ precision (write_csv_escaped_string os value) = precision os.
Proof.
  unfold write_csv_escaped_string.
  destruct (find_first_of value [comma; dquote; newline] 0);
    [rewrite escape_loop_content|]; split; reflexivity.
Qed.

(** C8. A text field that contains a comma, a double quote or a newline is
    appended to the stream wrapped in double quotes with every embedded
    double quote doubled; any other field is appended verbatim. *)
Theorem csv_field_quoting (os : ostream) (value : string) :
  (needs_quoting value ->
   content (write_csv_escaped_string os value)
   = (content os ++ quote_wrapped value)%string)
  /\ (~ needs_quoting value ->
      content (write_csv_escaped_string os value)
      = (content os ++ value)%string).
Proof.
  unfold write_csv_escaped_string. split; intros Hq.
  - apply find_first_of_special in Hq. destruct Hq as [pos ->].
    rewrite escape_loop_content. unfold quote_wrapped. cbn.
    rewrite !append_assoc. reflexivity.
  - destruct (find_first_of value [comma; dquote; newline] 0) as [pos|] eqn:E.
    + exfalso. apply Hq. apply find_first_of_special. now exists pos.
    + reflexivity.
Qed.

Lemma csv_field_quoting_witness :
  content (write_csv_escaped_string fresh_stream "Cluj,Napoca")
  = (content fresh_stream ++ quote_wrapped "Cluj,Napoca")%string
  /\ content (write_csv_escaped_string fresh_stream "Dej")
     = (content fresh_stream ++ "Dej")%string.
Proof.
  split.
  - apply (proj1 (csv_field_quoting fresh_stream "Cluj,Napoca")).
    exists comma. split; [cbn; tauto|now left].
  - apply (proj2 (csv_field_quoting fresh_stream "Dej")).
    intros [c [Hin Hs]]. cbn in Hin.
    destruct Hin as [<-|[<-|[<-|[]]]]; destruct Hs as [Hs|[Hs|Hs]];
      discriminate Hs.
Defined.

(** A field holding the word say followed by a quoted hi: the field is
    wrapped in quotes and each of its two quotes is doubled. *)
Example quoted_field_with_quotes :
  content (write_csv_escaped_string fresh_stream
             (String "s" (String "a" (String "y" (String " "
                (String dquote (String "h" (String "i"
                   (String dquote EmptyString)))))))))
  = String dquote (String "s" (String "a" (String "y" (String " "
      (String dquote (String dquote (String "h" (String "i"
         (String dquote (String dquote (String dquote EmptyString))))))))))).
Proof. reflexivity. Qed.

Section CsvOutputFacts.
Context `{Library}.

Lemma put_double_value_state (v : R) (os : ostream) :
  flags (put_double_value v os) = flags os
  /\ precision (put_double_value v os) = precision os.
Proof. split; reflexivity. Qed.

(** C10. [write_csv_row] and [bounding_box::write_to_stream] leave the format
    flags and the precision of the stream as they found them, for every
    stream state and every row, valid box or not. *)
Theorem row_writers_restore_formatting (os : ostream) (uat_name : string)
    (uat_code : Z) (county_mn : county_code) (bbox : bounding_box) :
  (flags (write_csv_row os uat_name uat_code county_mn bbox) = flags os
   /\ precision (write_csv_row os uat_name uat_code county_mn bbox)
      = precision os)
  /\ (flags (write_to_stream bbox os) = flags os
      /\ precision (write_to_stream bbox os) = precision os).
Proof.
  split.
  - unfold write_csv_row.
    destruct (write_csv_escaped_string_state os uat_name) as [Hf1 Hp1].
    set (os1 := put_char csv_delimiter_
                  (put_unsigned_value uat_code
                     (put_char csv_delimiter_
                        (write_csv_escaped_string os uat_name)))).
    assert (H1 : flags os1 = flags os /\ precision os1 = precision os)
      by (split; cbn; assumption).
    destruct (write_csv_escaped_string_state os1 (county_to_string county_mn))
      as [Hf2 Hp2].
    destruct H1 as [Hf3 Hp3].
    destruct (is_valid bbox); cbn [flags precision put_string put_char
      set_flags set_precision put_double_value std_fixed];
      split; congruence.
  - unfold write_to_stream. destruct (is_valid bbox); cbn; split; reflexivity.
Qed.

(** The formatting state does change while the coordinates are written. *)
Example fixed_notation_is_set_inside :
  flags (set_precision csv_coordinate_precision (std_fixed fresh_stream))
  <> flags fresh_stream
  /\ precision (set_precision csv_coordinate_precision (std_fixed fresh_stream))
     <> precision fresh_stream.
Proof. split; vm_compute; discriminate. Qed.

End CsvOutputFacts.

(** ** Property decoding stays inside the blob *)

Lemma offsets_of_bind {A B : Type} (m : traced A) (f : A -> traced B) :
  offsets_of (bind m f) = offsets_of m ++ offsets_of (f (value_of m)).
Proof.
  unfold bind, offsets_of, value_of. destruct m as [a t1]. cbn.
  destruct (f a). reflexivity.
Qed.

Lemma value_of_bind {A B : Type} (m : traced A) (f : A -> traced B) :
  value_of (bind m f) = value_of (f (value_of m)).
Proof.
  unfold bind, value_of. destruct m as [a t1]. cbn.
  destruct (f a). reflexivity.
Qed.

Lemma in_bounds_nil (size : Z) : in_bounds size [].
Proof. constructor. Qed.

Lemma in_bounds_app (size : Z) (t1 t2 : list Z) :
  in_bounds size t1 -> in_bounds size t2 -> in_bounds size (t1 ++ t2).
Proof. unfold in_bounds. intros. apply Forall_app. now split. Qed.

Lemma span_in_bounds (size off : Z) (n : nat) :
  0 <= off -> off + Z.of_nat n <= size -> in_bounds size (span off n).
Proof.
  intros Hoff Hend. unfold in_bounds, span. apply Forall_forall.
  intros o Ho. apply in_map_iff in Ho. destruct Ho as [k [<- Hk]].
  apply in_seq in Hk. lia.
Qed.

Lemma vector_size_range {A : Type} (v : list A) : 0 <= vector_size v < 2 ^ 32.
Proof. unfold vector_size, u32_wrap. apply Z.mod_pos_bound. lia. Qed.

Lemma sizeof_positive (T : scalar_type) : 0 < sizeof T <= 8.
Proof. destruct T; cbn; lia. Qed.

Lemma offsets_of_ReadScalar (width : nat) (data : list byte) (off : Z) :
  offsets_of (ReadScalar width data off) = span off width.
Proof. reflexivity. Qed.

Lemma offsets_of_read_chars (data : list byte) (off len : Z) :
  offsets_of (read_chars data off len) = span off (Z.to_nat len).
Proof. reflexivity. Qed.

(** The branch shared by Json, DateTime, Binary and unknown column types. *)
Ltac all_variable_width_cases :=
  match goal with
  | Hfinish : forall b, 0 <= b -> _, Hrest : _ /\ _ /\ _,
    Hwrap : forall v, 0 <= u32_wrap v, Htr : in_bounds _ _ |- _ =>
      match goal with
      | |- context [negb (?b <=? ?r)] =>
          let Eb := fresh "Eb" in
          destruct (b <=? r) eqn:Eb; cbn [negb];
          [ destruct (Hfinish b (Hwrap _)) as [_ Hv]; rewrite Eb in Hv;
            split; [|exact Hv];
            apply in_bounds_app; [exact Htr|apply in_bounds_nil]
          | destruct Hrest as [_ Hv]; split; [|exact Hv];
            apply in_bounds_app; [exact Htr|apply in_bounds_nil] ]
      end
  end.

Section DecodingBounds.
Context `{Library}.

Lemma read_scalar_in_bounds (T : scalar_type) (data : list byte)
    (value_off remaining size : Z) :
  0 <= value_off -> value_off + remaining <= size ->
  in_bounds size
    (offsets_of (read_scalar_as_string_static_helper T data value_off remaining)).
Proof.
  intros Hoff Hrem. unfold read_scalar_as_string_static_helper.
  destruct (sizeof T >? remaining) eqn:E; [apply in_bounds_nil|].
  rewrite offsets_of_bind. apply in_bounds_app; [|apply in_bounds_nil].
  rewrite offsets_of_ReadScalar. apply span_in_bounds; [assumption|].
  pose proof (sizeof_positive T). rewrite Z2Nat.id by lia. lia.
Qed.

Lemma read_and_convert_in_bounds (ty : ColumnType) (data : list byte)
    (off size : Z) :
  0 <= size < 2 ^ 32 -> 0 <= off ->
  in_bounds size
    (offsets_of (read_and_convert_property_value_at_offset ty data off size)).
Proof.
  intros Hsize Hoff. unfold read_and_convert_property_value_at_offset.
  destruct (off >=? size) eqn:E; [apply in_bounds_nil|].
  assert (Hrem : u32_wrap (size - off) = size - off)
    by (unfold u32_wrap; apply Z.mod_small; lia).
  rewrite Hrem.
  assert (Hscalar : forall T,
             in_bounds size
               (offsets_of (read_scalar_as_string_static_helper T data off
                                                                (size - off))))
    by (intros T; apply read_scalar_in_bounds; lia).
  destruct ty; try apply Hscalar; try apply in_bounds_nil.
  - rewrite offsets_of_bind. apply in_bounds_app; [apply Hscalar|].
    apply in_bounds_nil.
  - destruct (4 >? size - off) eqn:E4; [apply in_bounds_nil|].
    rewrite offsets_of_bind. apply in_bounds_app.
    + rewrite offsets_of_ReadScalar. apply span_in_bounds; cbn; lia.
    + set (n := value_of (ReadScalar 4 data off)).
      destruct (4 + n >? size - off) eqn:En; [apply in_bounds_nil|].
      rewrite offsets_of_bind. apply in_bounds_app; [|apply in_bounds_nil].
      rewrite offsets_of_read_chars. apply span_in_bounds; [lia|].
      lia.
Qed.

(** The width [skip_property_value_at_offset] returns never exceeds what is
    left of the blob, and the bytes it reads are inside the blob. *)
Lemma skip_in_bounds (ty : ColumnType) (data : list byte) (off size : Z) :
  0 <= size < 2 ^ 32 -> 0 <= off ->
  in_bounds size (offsets_of (skip_property_value_at_offset ty data off size))
  /\ 0 <= value_of (skip_property_value_at_offset ty data off size)
  /\ (off <= size ->
      value_of (skip_property_value_at_offset ty data off size) <= size - off).
Proof.
  intros Hsize Hoff. unfold skip_property_value_at_offset.
  destruct (off >=? size) eqn:E.
  { cbn. split; [apply in_bounds_nil|]. lia. }
  assert (Hrem : u32_wrap (size - off) = size - off)
    by (unfold u32_wrap; apply Z.mod_small; lia).
  rewrite Hrem.
  assert (Hfinish : forall b, 0 <= b ->
             in_bounds size
               (offsets_of (ret (if b <=? size - off then b else size - off)))
             /\ 0 <= value_of (ret (if b <=? size - off then b else size - off))
             /\ (off <= size ->
                 value_of (ret (if b <=? size - off then b else size - off))
                 <= size - off)).
  { intros b Hb. cbn. split; [apply in_bounds_nil|].
    destruct (b <=? size - off) eqn:Eb; lia. }
  assert (Hrest : in_bounds size (offsets_of (ret (size - off)))
                  /\ 0 <= value_of (ret (size - off))
                  /\ (off <= size -> value_of (ret (size - off)) <= size - off)).
  { cbn. split; [apply in_bounds_nil|]. lia. }
  assert (Hwrap : forall v, 0 <= u32_wrap v)
    by (intros v; unfold u32_wrap; apply Z.mod_pos_bound; lia).
  assert (Htr : 4 <= size - off ->
                in_bounds size (offsets_of (ReadScalar 4 data off))).
  { intros H4. rewrite offsets_of_ReadScalar. apply span_in_bounds; cbn; lia. }
  destruct ty; try (apply Hfinish; lia);
    (destruct (4 <=? size - off) eqn:E4; cbn [negb]; [|exact Hrest]);
    rewrite offsets_of_bind, value_of_bind;
    set (b := u32_wrap (4 + value_of (ReadScalar 4 data off)));
    specialize (Htr ltac:(lia)).
  - destruct (Hfinish b (Hwrap _)) as [_ Hv].
    split; [|exact Hv]. apply in_bounds_app; [exact Htr|apply in_bounds_nil].
  - all_variable_width_cases.
  - all_variable_width_cases.
  - all_variable_width_cases.
  - all_variable_width_cases.
Qed.

(** The scan reads inside the blob, and with more fuel than bytes left it
    returns. *)
Lemma property_scan_in_bounds (cols : list Column) (target : Z)
    (data : list byte) (size : Z) (fuel : nat) :
  0 <= size < 2 ^ 32 ->
  forall off, 0 <= off <= size ->
  in_bounds size (offsets_of (property_scan fuel cols target data size off))
  /\ (size - off < Z.of_nat fuel ->
      exists s, value_of (property_scan fuel cols target data size off) = Some s).
Proof.
  intros Hsize. induction fuel as [|fuel IH]; intros off Hoff;
    cbn [property_scan].
  - destruct (off <? size) eqn:E.
    + split; [apply in_bounds_nil|]. lia.
    + split; [apply in_bounds_nil|]. intros _. now exists EmptyString.
  - destruct (off <? size) eqn:E;
      [|split; [apply in_bounds_nil|intros _; now exists EmptyString]].
    destruct (off + 2 >? size) eqn:E2;
      [split; [apply in_bounds_nil|intros _; now exists EmptyString]|].
    rewrite offsets_of_bind, value_of_bind.
    assert (Hidx : in_bounds size (offsets_of (ReadScalar 2 data off)))
      by (rewrite offsets_of_ReadScalar; apply span_in_bounds; cbn; lia).
    assert (Hnext : u32_wrap (off + 2) = off + 2)
      by (unfold u32_wrap; apply Z.mod_small; lia).
    rewrite Hnext.
    set (idx := value_of (ReadScalar 2 data off)).
    destruct (idx >=? vector_size cols);
      [split; [rewrite app_nil_r; exact Hidx|intros _; now exists EmptyString]|].
    destruct (nth_error cols (Z.to_nat idx)) as [column_schema|];
      [|split; [rewrite app_nil_r; exact Hidx|intros _; now exists EmptyString]].
    destruct (idx =? target).
    + rewrite offsets_of_bind, value_of_bind. split.
      * apply in_bounds_app; [exact Hidx|].
        apply in_bounds_app; [|apply in_bounds_nil].
        apply read_and_convert_in_bounds; lia.
      * intros _. eexists. reflexivity.
    + rewrite offsets_of_bind, value_of_bind.
      destruct (skip_in_bounds (col_type column_schema) data (off + 2) size)
        as [Hs [Hs0 Hs1]]; [lia|lia|].
      specialize (Hs1 ltac:(lia)).
      set (skip := value_of (skip_property_value_at_offset
                               (col_type column_schema) data (off + 2) size)) in *.
      assert (Hrem : u32_wrap (size - (off + 2)) = size - (off + 2))
        by (unfold u32_wrap; apply Z.mod_small; lia).
      rewrite Hrem.
      destruct (skip >? size - (off + 2)) eqn:Es; [lia|].
      assert (Hadv : u32_wrap (off + 2 + skip) = off + 2 + skip)
        by (unfold u32_wrap; apply Z.mod_small; lia).
      rewrite Hadv.
      destruct (IH (off + 2 + skip)) as [IHb IHt]; [lia|].
      split.
      * apply in_bounds_app; [exact Hidx|]. apply in_bounds_app; assumption.
      * intros Hfuel. apply IHt. lia.
Qed.

Lemma scan_blob_returns (cols : list Column) (target : Z) (data : list byte)
    (size : Z) :
  0 <= size < 2 ^ 32 ->
  exists s, value_of (scan_blob cols target data size) = Some s.
Proof.
  intros Hsize. unfold scan_blob.
  destruct (property_scan_in_bounds cols target data size
              (S (Z.to_nat size)) Hsize 0) as [_ Ht]; [lia|].
  apply Ht. lia.
Qed.

(** C5. Decoding a property blob of any content, for any column schema and
    any target column, reads only bytes at offsets below the declared size
    of the blob (a [uoffset_t]): this holds for the whole scan, which
    comprises every column-index read, separately for the value read
    (scalar, string length prefix and string bytes) and the skip-width
    computation at any value offset, and for
    [get_string_value_for_property] on a feature that carries the blob; and
    the scan always returns. *)
Theorem property_decoding_stays_in_blob (cols : list Column) (target : Z)
    (data : list byte) (size : Z) :
  0 <= size < 2 ^ 32 ->
  in_bounds size (offsets_of (scan_blob cols target data size))
  /\ (exists s, value_of (scan_blob cols target data size) = Some s)
  /\ (forall (ty : ColumnType) (off : Z), 0 <= off ->
         in_bounds size
           (offsets_of (read_and_convert_property_value_at_offset ty data off size))
         /\ in_bounds size
              (offsets_of (skip_property_value_at_offset ty data off size)))
  /\ (forall (f : Feature) (h : option Header),
         properties f = Some data ->
         in_bounds (vector_size data)
           (offsets_of (get_string_value_for_property (Some f) h target))).
Proof.
  intros Hsize. unfold scan_blob.
  destruct (property_scan_in_bounds cols target data size
              (S (Z.to_nat size)) Hsize 0) as [Hb Ht]; [lia|].
  split; [exact Hb|]. split; [apply Ht; lia|]. split.
  - intros ty off Hoff. split.
    + apply read_and_convert_in_bounds; assumption.
    + apply skip_in_bounds; assumption.
  - intros f h Hprops. unfold get_string_value_for_property.
    destruct h as [header|]; [|apply in_bounds_nil].
    rewrite Hprops.
    destruct (columns header) as [schema|]; [|apply in_bounds_nil].
    destruct (target >=? vector_size schema); [apply in_bounds_nil|].
    unfold scan_blob.
    apply (property_scan_in_bounds schema target data (vector_size data)
             (S (Z.to_nat (vector_size data))) (vector_size_range data) 0).
    pose proof (vector_size_range data). lia.
Qed.

End DecodingBounds.

(** ** The geometry scan and the tasks return *)

Lemma coordinates_loop_returns (coords : list R) (stride : nat) :
  (0 < stride)%nat ->
  forall (fuel i : nat) (bb : bounding_box),
    (List.length coords <= fuel + i)%nat ->
    exists bb', coordinates_loop fuel coords stride i bb = Some bb'.
Proof.
  intros Hs. induction fuel as [|fuel IH]; intros i bb Hf;
    cbn [coordinates_loop].
  - destruct (i + 1 <? List.length coords)%nat eqn:E; [|now eexists].
    apply Nat.ltb_lt in E. lia.
  - destruct (i + 1 <? List.length coords)%nat eqn:E; [|now eexists].
    apply IH. lia.
Qed.

Lemma update_bbox_from_coordinates_returns (bb : bounding_box) (g : Geometry)
    (stride : nat) :
  (0 < stride)%nat ->
  exists bb', update_bbox_from_coordinates bb g stride = Some bb'.
Proof.
  intros Hs. unfold update_bbox_from_coordinates.
  destruct (xy g) as [coords|]; [|now eexists].
  destruct (List.length coords =? 0)%nat; [now eexists|].
  apply coordinates_loop_returns; [exact Hs|lia].
Qed.

Lemma for_each_returns {A : Type}
    (body : bounding_box -> A -> option bounding_box) (items : list A) :
  (forall bb x, exists bb', body bb x = Some bb') ->
  forall bb, exists bb', for_each body items bb = Some bb'.
Proof.
  intros Hbody. induction items as [|x items IH]; intros bb; cbn.
  - now eexists.
  - destruct (Hbody bb x) as [bb1 ->]. apply IH.
Qed.

Lemma process_single_polygon_returns (bb : bounding_box)
    (pg : option Geometry) (stride : nat) :
  (0 < stride)%nat ->
  exists bb', process_single_polygon_for_bbox bb pg stride = Some bb'.
Proof.
  intros Hs. unfold process_single_polygon_for_bbox.
  destruct pg as [pg|]; [|now eexists].
  destruct (parts pg) as [rings|].
  - apply for_each_returns. intros b ring.
    now apply update_bbox_from_coordinates_returns.
  - destruct (xy pg) as [coords|]; [|now eexists].
    destruct (0 <? List.length coords)%nat; [|now eexists].
    now apply update_bbox_from_coordinates_returns.
Qed.

Lemma calculate_for_geometry_returns (g : option Geometry) (stride : nat)
    (ty : GeometryType) :
  (0 < stride)%nat ->
  exists bb, calculate_for_geometry g stride ty = Some bb.
Proof.
  intros Hs. unfold calculate_for_geometry.
  destruct g as [g|]; [|now eexists].
  assert (Hfallback :
            exists bb,
              match xy g with
              | Some coords =>
                  if (0 <? List.length coords)%nat
                  then update_bbox_from_coordinates bounding_box_default g stride
                  else Some bounding_box_default
              | None => Some bounding_box_default
              end = Some bb).
  { destruct (xy g) as [coords|]; [|now eexists].
    destruct (0 <? List.length coords)%nat; [|now eexists].
    now apply update_bbox_from_coordinates_returns. }
  destruct ty; try exact Hfallback.
  - now apply process_single_polygon_returns.
  - destruct (parts g) as [polygon_parts|]; [|now eexists].
    apply for_each_returns. intros b pg.
    now apply process_single_polygon_returns.
Qed.

(** ** The feature pipeline *)

Section PipelineFacts.
Context `{Library}.

Lemma get_string_value_returns (f : option Feature) (h : option Header)
    (i : Z) :
  exists s, value_of (get_string_value_for_property f h i) = Some s.
Proof.
  unfold get_string_value_for_property.
  destruct f as [feature|], h as [header|]; try (now eexists).
  destruct (properties feature) as [props|], (columns header) as [cols|];
    try (now eexists).
  destruct (i >=? vector_size cols); [now eexists|].
  apply scan_blob_returns. apply vector_size_range.
Qed.

Lemma property_or_empty_returns (f : Feature) (h : Header) (i : option Z) :
  exists s, property_or_empty f h i = Some s.
Proof.
  unfold property_or_empty.
  destruct i as [i|]; [apply get_string_value_returns|now eexists].
Qed.

Lemma extract_uat_code_returns (f : Feature) (h : Header) (i : option Z) :
  exists v, extract_uat_code f h i = Some v.
Proof.
  unfold extract_uat_code. destruct i as [i|]; [|now eexists].
  destruct (get_string_value_returns (Some f) (Some h) i) as [s ->].
  cbn [obind].
  destruct (String.eqb s EmptyString); [now eexists|].
  destruct (String.eqb (trim s) EmptyString); [now eexists|].
  match goal with |- context [if ?c then _ else _] => destruct c end;
    now eexists.
Qed.

Lemma prepare_task_returns (f : Feature) (h : Header) (stride : Z)
    (st : flatgeobuf_processor) :
  exists task, prepare_task f h stride st = Some task
               /\ coordinate_stride task = stride.
Proof.
  unfold prepare_task.
  destruct (property_or_empty_returns f h (uat_name_column_index_ st)) as [n ->].
  destruct (extract_uat_code_returns f h (uat_code_column_index_ st)) as [c ->].
  destruct (property_or_empty_returns f h (county_mn_column_index_ st)) as [m ->].
  cbn [obind]. eexists. split; reflexivity.
Qed.

Lemma process_single_feature_task_returns (task : task_input_data) :
  0 < coordinate_stride task ->
  exists r, process_single_feature_task task = Some r.
Proof.
  intros Hs. unfold process_single_feature_task.
  destruct (calculate_for_geometry_returns (geometry_ptr task)
              (Z.to_nat (coordinate_stride task)) (actual_geometry_type task))
    as [bb ->]; [lia|].
  cbn [obind]. now eexists.
Qed.

(** What [submit_loop] does to the processor: it appends tasks, all with the
    stride it was given, counts them, and leaves the buffer alone. *)
Lemma submit_loop_invariant (h : Header) (stride : Z) (n : nat) :
  forall (off : Z) (st st' : flatgeobuf_processor) (ok : bool),
    submit_loop n h stride off st = Some (ok, st') ->
    exists new_tasks,
      processing_futures_ st' = processing_futures_ st ++ new_tasks
      /\ feature_submission_count_ st'
         = feature_submission_count_ st + Z.of_nat (List.length new_tasks)
      /\ Forall (fun t => coordinate_stride t = stride) new_tasks
      /\ fgb_buffer_ st' = fgb_buffer_ st.
Proof.
  induction n as [|n IH]; intros off st st' ok Hrun; cbn [submit_loop] in Hrun.
  - injection Hrun as <- <-. exists []. rewrite app_nil_r. cbn.
    repeat split; [lia|constructor].
  - assert (Hstop : Some (false, st) = Some (ok, st') ->
              exists new_tasks,
                processing_futures_ st' = processing_futures_ st ++ new_tasks
                /\ feature_submission_count_ st'
                   = feature_submission_count_ st
                     + Z.of_nat (List.length new_tasks)
                /\ Forall (fun t => coordinate_stride t = stride) new_tasks
                /\ fgb_buffer_ st' = fgb_buffer_ st).
    { intros E. injection E as <- <-. exists []. rewrite app_nil_r. cbn.
      repeat split; [lia|constructor]. }
    destruct (size_t_wrap (off + 4) >? _); [now apply Hstop|].
    destruct (size_t_wrap (off + 4 + _) >? _); [now apply Hstop|].
    destruct (GetSizePrefixedFeature (fgb_buffer_ st) off) as [feature|].
    + destruct (prepare_task_returns feature h stride st) as [task [Ht Hst]].
      rewrite Ht in Hrun. cbn [obind] in Hrun.
      apply IH in Hrun. destruct Hrun as [new_tasks [Hf [Hc [Hs Hb]]]].
      exists (task :: new_tasks). cbn [enqueue processing_futures_
        feature_submission_count_ fgb_buffer_] in *.
      rewrite Hf, <- app_assoc. cbn [List.length app].
      repeat split; [lia|constructor; assumption|assumption].
    + now apply IH in Hrun.
Qed.

(** With [k] complete records followed by a truncated one, the loop submits
    exactly what it submits for the [k] records alone, and then reports
    failure. *)
Lemma submit_loop_truncated (h : Header) (stride : Z) (k more : nat) :
  forall (off : Z) (st : flatgeobuf_processor),
    truncated_after k (fgb_buffer_ st) off = true ->
    exists st',
      submit_loop k h stride off st = Some (true, st')
      /\ submit_loop (k + S more) h stride off st = Some (false, st').
Proof.
  induction k as [|k IH]; intros off st Htr; cbn [truncated_after] in Htr.
  - exists st. split; [reflexivity|].
    cbn [Nat.add submit_loop]. unfold record_truncated, declared_length in Htr.
    apply andb_prop in Htr. destruct Htr as [H1 H2].
    destruct (size_t_wrap (off + 4) >? _) eqn:E1; [lia|].
    rewrite H2. reflexivity.
  - apply andb_prop in Htr. destruct Htr as [Hc Hrest].
    unfold record_complete, declared_length in Hc.
    apply andb_prop in Hc. destruct Hc as [H1 H2].
    cbn [Nat.add submit_loop].
    destruct (size_t_wrap (off + 4) >? _) eqn:E1; [lia|].
    destruct (size_t_wrap (off + 4 + _) >? _) eqn:E2; [lia|].
    fold (declared_length (fgb_buffer_ st) off).
    fold (record_end (fgb_buffer_ st) off).
    destruct (GetSizePrefixedFeature (fgb_buffer_ st) off) as [feature|].
    + destruct (prepare_task_returns feature h stride st) as [task [-> _]].
      cbn [obind]. apply IH. exact Hrest.
    + apply IH. exact Hrest.
Qed.

(** With [n] complete records the loop runs to its end, whatever the
    records hold. *)
Lemma submit_loop_complete (h : Header) (stride : Z) (n : nat) :
  forall (off : Z) (st : flatgeobuf_processor),
    complete_records n (fgb_buffer_ st) off = true ->
    exists st', submit_loop n h stride off st = Some (true, st').
Proof.
  induction n as [|n IH]; intros off st Hc; cbn [complete_records] in Hc.
  - now exists st.
  - apply andb_prop in Hc. destruct Hc as [Hc Hrest].
    unfold record_complete, declared_length in Hc.
    apply andb_prop in Hc. destruct Hc as [H1 H2].
    cbn [submit_loop].
    destruct (size_t_wrap (off + 4) >? _) eqn:E1; [lia|].
    destruct (size_t_wrap (off + 4 + _) >? _) eqn:E2; [lia|].
    fold (declared_length (fgb_buffer_ st) off).
    fold (record_end (fgb_buffer_ st) off).
    destruct (GetSizePrefixedFeature (fgb_buffer_ st) off) as [feature|].
    + destruct (prepare_task_returns feature h stride st) as [task [-> _]].
      cbn [obind]. apply IH. exact Hrest.
    + apply IH. exact Hrest.
Qed.

(** The collecting loop writes one row per future, in the order of the
    futures, and counts them. *)
Lemma collect_loop_rows (futures : list task_input_data) :
  Forall (fun t => 0 < coordinate_stride t) futures ->
  exists results,
    map process_single_feature_task futures = map Some results
    /\ forall (os : ostream) (n : Z),
         collect_loop futures os n
         = Some (fold_left write_result_row results os,
                 n + Z.of_nat (List.length futures)).
Proof.
  induction futures as [|fut rest IH]; intros Hs.
  - exists []. split; [reflexivity|]. intros os n. cbn. f_equal. f_equal. lia.
  - inversion Hs as [|? ? Hfut Hrest]; subst.
    destruct (process_single_feature_task_returns fut Hfut) as [r Hr].
    destruct (IH Hrest) as [results [Hmap Hloop]].
    exists (r :: results). split; [cbn; now rewrite Hr, Hmap|].
    intros os n. cbn [collect_loop]. rewrite Hr. cbn [obind].
    rewrite Hloop. cbn [fold_left List.length]. f_equal. f_equal. lia.
Qed.

Lemma coordinate_stride_of_value (h : Header) :
  coordinate_stride_of h = 2 + Z.b2z (has_z h) + Z.b2z (has_m h).
Proof.
  unfold coordinate_stride_of, default_coordinate_stride_.
  destruct (has_z h), (has_m h); reflexivity.
Qed.

End PipelineFacts.

(** A record in front of a truncated one is complete. *)
Lemma truncated_after_complete (k : nat) (buffer : list byte) :
  forall offset : Z,
    truncated_after k buffer offset = true ->
    complete_records k buffer offset = true.
Proof.
  induction k as [|k IH]; intros offset Htr; [reflexivity|].
  cbn [truncated_after complete_records] in *.
  apply andb_prop in Htr. destruct Htr as [Hc Hrest].
  rewrite Hc. cbn [andb]. now apply IH.
Qed.

Section SubmissionFacts.
Context `{Library}.

Lemma prepare_task_built (f : Feature) (h : Header) (stride : Z)
    (st : flatgeobuf_processor) :
  exists task,
    prepare_task f h stride st = Some task
    /\ task_built_from h st stride (feature_submission_count_ st) f task.
Proof.
  unfold prepare_task, task_built_from.
  destruct (property_or_empty_returns f h (uat_name_column_index_ st))
    as [n Hn].
  destruct (extract_uat_code_returns f h (uat_code_column_index_ st))
    as [c Hc].
  destruct (property_or_empty_returns f h (county_mn_column_index_ st))
    as [m Hm].
  rewrite Hn, Hc, Hm. cbn [obind]. eexists. split; [reflexivity|].
  cbn [in_uat_name in_uat_code in_county_mn geometry_ptr coordinate_stride
       actual_geometry_type].
  split; [exists n; now split|]. split; [reflexivity|].
  split; [exists m; now split|]. repeat split.
Qed.

(** One turn of the loop on a record that lies inside the buffer. *)
Lemma submit_loop_turn (h : Header) (stride : Z) (n : nat) (off : Z)
    (st : flatgeobuf_processor) :
  record_complete (fgb_buffer_ st) off = true ->
  submit_loop (S n) h stride off st
  = match GetSizePrefixedFeature (fgb_buffer_ st) off with
    | Some feature =>
        task <~ prepare_task feature h stride st ;;
        submit_loop n h stride (record_end (fgb_buffer_ st) off)
                    (enqueue st task)
    | None =>
        submit_loop n h stride (record_end (fgb_buffer_ st) off) st
    end.
Proof.
  intros Hc. unfold record_complete, declared_length in Hc.
  apply andb_prop in Hc. destruct Hc as [H1 H2].
  cbn [submit_loop].
  destruct (size_t_wrap (off + 4) >? _) eqn:E1; [lia|].
  destruct (size_t_wrap (off + 4 + _) >? _) eqn:E2; [lia|].
  reflexivity.
Qed.

(** Over complete records the loop submits the task of every feature, in
    file order, and returns [true]. *)
Lemma submit_loop_every_feature (h : Header) (stride : Z) (n : nat) :
  forall (off : Z) (st : flatgeobuf_processor),
    complete_records n (fgb_buffer_ st) off = true ->
    exists (st' : flatgeobuf_processor) (tasks : list task_input_data),
      submit_loop n h stride off st = Some (true, st')
      /\ processing_futures_ st' = processing_futures_ st ++ tasks
      /\ every_feature_submitted h st stride (feature_submission_count_ st)
           (features_of_records n (fgb_buffer_ st) off) tasks.
Proof.
  induction n as [|n IH]; intros off st Hc.
  - exists st, []. rewrite app_nil_r. split; [reflexivity|].
    split; [reflexivity|]. split; [reflexivity|].
    intros [|k] f Hk; discriminate Hk.
  - cbn [complete_records] in Hc. apply andb_prop in Hc.
    destruct Hc as [Hfirst Hrest].
    rewrite (submit_loop_turn h stride n off st Hfirst).
    cbn [features_of_records].
    destruct (GetSizePrefixedFeature (fgb_buffer_ st) off) as [feature|].
    + destruct (prepare_task_built feature h stride st) as [task [-> Hbuilt]].
      cbn [obind].
      destruct (IH (record_end (fgb_buffer_ st) off) (enqueue st task))
        as [st' [tasks [Hrun [Hf [Hlen Hall]]]]]; [exact Hrest|].
      cbn [enqueue fgb_buffer_ processing_futures_
           feature_submission_count_] in Hrun, Hf, Hlen, Hall.
      exists st', (task :: tasks). split; [exact Hrun|].
      split; [rewrite Hf, <- app_assoc; reflexivity|].
      split; [cbn [app List.length]; now rewrite Hlen|].
      intros [|k] f Hk; cbn [app nth_error] in Hk |- *.
      * injection Hk as <-. exists task. split; [reflexivity|].
        now rewrite Z.add_0_r.
      * destruct (Hall k f Hk) as [t [Ht Hb]]. exists t.
        split; [exact Ht|].
        replace (feature_submission_count_ st + Z.of_nat (S k))
          with (feature_submission_count_ st + 1 + Z.of_nat k) by lia.
        exact Hb.
    + cbn [app]. apply IH. exact Hrest.
Qed.

Lemma submit_loop_returns_outcome (h : Header) (stride : Z) (n : nat) :
  forall (off : Z) (st : flatgeobuf_processor),
    exists ok st', submit_loop n h stride off st = Some (ok, st').
Proof.
  induction n as [|n IH]; intros off st; cbn [submit_loop].
  - now exists true, st.
  - destruct (size_t_wrap (off + 4) >? _); [now exists false, st|].
    destruct (size_t_wrap (off + 4 + _) >? _); [now exists false, st|].
    destruct (GetSizePrefixedFeature (fgb_buffer_ st) off) as [feature|].
    + destruct (prepare_task_returns feature h stride st) as [task [-> _]].
      cbn [obind]. apply IH.
    + apply IH.
Qed.

Lemma submit_feature_tasks_returned (h : Header) (off stride : Z)
    (st st' : flatgeobuf_processor) (ok : bool) :
  submit_feature_tasks h off stride st = Some (Returned (ok, st')) <->
  reserve_futures (features_count h) = None
  /\ submit_loop (Z.to_nat (features_count h)) h stride off st
     = Some (ok, st').
Proof.
  unfold submit_feature_tasks.
  destruct (reserve_futures (features_count h)) as [what|].
  - split; [discriminate|]. intros [E _]. discriminate E.
  - destruct (submit_loop _ h stride off st) as [[ok0 st0]|]; cbn [obind].
    + split; [intros [= -> ->]; now split|intros [_ [= -> ->]]; reflexivity].
    + split; [discriminate|]. intros [_ E]. discriminate E.
Qed.

Lemma submit_feature_tasks_thrown (h : Header) (off stride : Z)
    (st : flatgeobuf_processor) (what : string) :
  submit_feature_tasks h off stride st = Some (Thrown what) <->
  reserve_futures (features_count h) = Some what.
Proof.
  unfold submit_feature_tasks.
  destruct (reserve_futures (features_count h)) as [what0|].
  - split; intros [= ->]; reflexivity.
  - destruct (submit_loop _ h stride off st) as [[ok0 st0]|]; cbn [obind];
      split; discriminate.
Qed.

Lemma reserve_futures_positive (n : Z) :
  0 < n -> reserve_futures n = reserve n.
Proof.
  intros Hn. unfold reserve_futures.
  destruct (Z.gtb_spec n 0); [reflexivity|lia].
Qed.

End SubmissionFacts.

Section RunFacts.
Context `{Library}.

Lemma parse_and_validate_header_size (buf : list byte) (h : Header) (hs : Z) :
  parse_and_validate_header buf = Some (h, hs) ->
  min_fgb_file_size_ <= Z.of_nat (List.length buf).
Proof.
  unfold parse_and_validate_header, min_fgb_file_size_. intros Hp.
  destruct (Z.of_nat (List.length buf) <? 8) eqn:E8; [discriminate|].
  destruct (negb _); [discriminate|].
  destruct (8 + 4 >? Z.of_nat (List.length buf)) eqn:E12; [discriminate|].
  lia.
Qed.

Lemma short_file_has_no_header (buf : list byte) :
  Z.of_nat (List.length buf) < min_fgb_file_size_ ->
  parse_and_validate_header buf = None.
Proof.
  intros Hshort.
  destruct (parse_and_validate_header buf) as [[h hs]|] eqn:E; [|reflexivity].
  apply parse_and_validate_header_size in E. lia.
Qed.

(** The paths through [process_features] for a file that can be read. *)
Lemma process_features_cases (buf : list byte) (opens : bool) :
  process_features (Some buf) opens
  = match parse_and_validate_header buf with
    | None =>
        Some (Returned {| return_value := false; output_csv := None;
                          submitted := [] |})
    | Some (h, hs) =>
        if negb opens
        then Some (Returned {| return_value := false; output_csv := None;
                               submitted := [] |})
        else if negb (supported_geometry_type (geometry_type h))
        then Some (Returned {| return_value := false;
                               output_csv := Some EmptyString;
                               submitted := [] |})
        else
          match first_feature_offset h hs with
          | None => Some (Thrown "PackedRTree::size")
          | Some off =>
              submission <~ submit_feature_tasks h off (coordinate_stride_of h)
                              (resolve_columns buf h) ;;
              match submission with
              | Thrown what => Some (Thrown what)
              | Returned submission =>
                  collection <~ collect_and_write_results (snd submission)
                                  (write_csv_header fresh_stream)
                                  (feature_submission_count_ (snd submission)) ;;
                  Some (Returned
                          {| return_value :=
                               if negb (fst collection) then false else true;
                             output_csv := Some (content (snd collection));
                             submitted :=
                               processing_futures_ (snd submission) |})
              end
          end
    end.
Proof.
  unfold process_features.
  destruct ((Z.of_nat (List.length buf) =? 0)
            || (Z.of_nat (List.length buf) <? min_fgb_file_size_)) eqn:Eshort.
  - rewrite short_file_has_no_header; [reflexivity|].
    unfold min_fgb_file_size_ in *.
    apply orb_true_iff in Eshort. destruct Eshort; lia.
  - destruct (parse_and_validate_header buf) as [[h hs]|]; reflexivity.
Qed.

(** [process_features] up to the call of [submit_feature_tasks], for an
    accepted header of a supported geometry type and an output file that
    opens. *)
Lemma process_features_until_submission (buf : list byte) (h : Header)
    (hs off : Z) :
  parse_and_validate_header buf = Some (h, hs) ->
  supported_geometry_type (geometry_type h) = true ->
  first_feature_offset h hs = Some off ->
  process_features (Some buf) true
  = submission <~ submit_feature_tasks h off (coordinate_stride_of h)
                    (resolve_columns buf h) ;;
    match submission with
    | Thrown what => Some (Thrown what)
    | Returned submission =>
        collection <~ collect_and_write_results (snd submission)
                        (write_csv_header fresh_stream)
                        (feature_submission_count_ (snd submission)) ;;
        Some (Returned
                {| return_value :=
                     if negb (fst collection) then false else true;
                   output_csv := Some (content (snd collection));
                   submitted := processing_futures_ (snd submission) |})
    end.
Proof.
  intros Hparse Hgeom Hoff.
  pose proof (parse_and_validate_header_size buf h hs Hparse) as Hsize.
  unfold min_fgb_file_size_ in Hsize.
  unfold process_features.
  replace ((Z.of_nat (List.length buf) =? 0)
           || (Z.of_nat (List.length buf) <? min_fgb_file_size_)) with false
    by (unfold min_fgb_file_size_; symmetry; apply orb_false_intro; lia).
  rewrite Hparse. cbn [negb]. rewrite Hgeom. cbn [negb]. rewrite Hoff.
  reflexivity.
Qed.

(** Without an output file nothing is written and the result is [false]. *)
Lemma process_features_without_output (buf : list byte) :
  process_features (Some buf) false
  = Some (Returned {| return_value := false; output_csv := None;
                      submitted := [] |}).
Proof.
  unfold process_features.
  destruct (_ || _); [reflexivity|].
  destruct (parse_and_validate_header buf) as [[h hs]|]; reflexivity.
Qed.

(** Once the header is accepted and the output file is open, the result of
    [process_features] is decided by the collecting loop alone: whatever
    [submit_feature_tasks] returned, every submitted task has its row
    written and the function returns [true]. *)
Lemma process_features_after_submission (buf : list byte) (h : Header)
    (hs off : Z) (ok : bool) (st : flatgeobuf_processor) :
  parse_and_validate_header buf = Some (h, hs) ->
  supported_geometry_type (geometry_type h) = true ->
  first_feature_offset h hs = Some off ->
  submit_feature_tasks h off (coordinate_stride_of h) (resolve_columns buf h)
  = Some (Returned (ok, st)) ->
  exists results,
    map process_single_feature_task (processing_futures_ st) = map Some results
    /\ process_features (Some buf) true
       = Some (Returned
                 {| return_value := true;
                    output_csv :=
                      Some (content (fold_left write_result_row results
                                               (write_csv_header fresh_stream)));
                    submitted := processing_futures_ st |}).
Proof.
  intros Hparse Hgeom Hoff Hsubmit.
  pose proof (proj1 (submit_feature_tasks_returned _ _ _ _ _ _) Hsubmit)
    as [_ Hloop].
  destruct (submit_loop_invariant h (coordinate_stride_of h) _ _ _ _ _ Hloop)
    as [new_tasks [Hf [Hc [Hs _]]]].
  cbn [resolve_columns processing_futures_ feature_submission_count_ app]
    in Hf, Hc.
  destruct (collect_loop_rows (processing_futures_ st))
    as [results [Hmap Hrows]].
  { rewrite Hf. eapply Forall_impl; [|exact Hs].
    intros t Ht. cbn beta in Ht. rewrite Ht, coordinate_stride_of_value.
    destruct (has_z h), (has_m h); cbn; lia. }
  exists results. split; [exact Hmap|].
  rewrite (process_features_until_submission buf h hs off Hparse Hgeom Hoff).
  rewrite Hsubmit. cbn [obind snd].
  unfold collect_and_write_results. rewrite Hrows. cbn [obind fst snd].
  replace (0 + Z.of_nat (List.length (processing_futures_ st))
           =? feature_submission_count_ st) with true
    by (symmetry; apply Z.eqb_eq; rewrite Hc, Hf; lia).
  reflexivity.
Qed.

Lemma run_application_of_report (input : option (list byte)) (out : bool)
    (report : run_report) :
  process_features input out = Some (Returned report) ->
  run_application input out = Some (if return_value report then 0 else 1).
Proof. intros Hp. unfold run_application. rewrite Hp. reflexivity. Qed.

Lemma run_application_of_exception (input : option (list byte)) (out : bool)
    (what : string) :
  process_features input out = Some (Thrown what) ->
  run_application input out = Some 2.
Proof. intros Hp. unfold run_application. rewrite Hp. reflexivity. Qed.

(** C1 (amended). Take an input file with an accepted header of a supported
    geometry type (Polygon or MultiPolygon) whose feature stream, which
    starts at the offset computed from the header, is truncated: after [k]
    complete records, fewer than the announced number, comes a record whose
    declared length exceeds the bytes left.
    - When the output file opens and the reservation of the announced number
      of futures succeeds, submission stops at the truncated record and
      [submit_feature_tasks] returns [false] after having submitted, in
      order, the task of every feature of the [k] complete records; every
      submitted task returns and has its row written after the CSV header,
      in order; [process_features] returns normally with [true]; and the
      exit code is 0.
    - When the output file opens and the reservation throws (the announced
      number exceeds [max_size()], or memory is short), the exception leaves
      [process_features] and the exit code is 2.
    - When the output file does not open, nothing is written and the exit
      code is 1. *)
Theorem truncated_stream_keeps_rows_and_exits_zero (buf : list byte)
    (h : Header) (hs off : Z) (k : nat) :
  parse_and_validate_header buf = Some (h, hs) ->
  supported_geometry_type (geometry_type h) = true ->
  first_feature_offset h hs = Some off ->
  (k < Z.to_nat (features_count h))%nat ->
  truncated_after k buf off = true ->
  (reserve (features_count h) = None ->
   exists (st : flatgeobuf_processor) (results : list task_result),
     submit_loop k h (coordinate_stride_of h) off (resolve_columns buf h)
     = Some (true, st)
     /\ submit_feature_tasks h off (coordinate_stride_of h)
          (resolve_columns buf h) = Some (Returned (false, st))
     /\ every_feature_submitted h (resolve_columns buf h)
          (coordinate_stride_of h) 0 (features_of_records k buf off)
          (processing_futures_ st)
     /\ map process_single_feature_task (processing_futures_ st)
        = map Some results
     /\ process_features (Some buf) true
        = Some (Returned
                  {| return_value := true;
                     output_csv :=
                       Some (content (fold_left write_result_row results
                                        (write_csv_header fresh_stream)));
                     submitted := processing_futures_ st |})
     /\ run_application (Some buf) true = Some 0)
  /\ (forall what : string,
         reserve (features_count h) = Some what ->
         submit_feature_tasks h off (coordinate_stride_of h)
           (resolve_columns buf h) = Some (Thrown what)
         /\ process_features (Some buf) true = Some (Thrown what)
         /\ run_application (Some buf) true = Some 2)
  /\ (process_features (Some buf) false
      = Some (Returned {| return_value := false; output_csv := None;
                          submitted := [] |})
      /\ run_application (Some buf) false = Some 1).
Proof.
  intros Hparse Hgeom Hoff Hk Htr.
  assert (Hreserve : reserve_futures (features_count h)
                     = reserve (features_count h))
    by (apply reserve_futures_positive; lia).
  split; [|split].
  - intros Hroom.
    destruct (submit_loop_truncated h (coordinate_stride_of h) k
                (Z.to_nat (features_count h) - S k) off
                (resolve_columns buf h) Htr) as [st [Hfirst Hall]].
    replace (k + S (Z.to_nat (features_count h) - S k))%nat
      with (Z.to_nat (features_count h)) in Hall by lia.
    assert (Hsubmit : submit_feature_tasks h off (coordinate_stride_of h)
                        (resolve_columns buf h) = Some (Returned (false, st))).
    { apply submit_feature_tasks_returned. split; [congruence|exact Hall]. }
    destruct (submit_loop_every_feature h (coordinate_stride_of h) k off
                (resolve_columns buf h))
      as [st1 [tasks [Hrun [Hf Hevery]]]];
      [now apply truncated_after_complete|].
    rewrite Hfirst in Hrun. injection Hrun as <-.
    cbn [resolve_columns processing_futures_ feature_submission_count_ app
         fgb_buffer_] in Hf, Hevery.
    destruct (process_features_after_submission buf h hs off false st Hparse
                Hgeom Hoff Hsubmit) as [results [Hmap Hrun]].
    exists st, results.
    split; [exact Hfirst|]. split; [exact Hsubmit|].
    split; [rewrite Hf; exact Hevery|]. split; [exact Hmap|].
    split; [exact Hrun|].
    rewrite (run_application_of_report _ _ _ Hrun). reflexivity.
  - intros what Hthrow.
    assert (Hsubmit : submit_feature_tasks h off (coordinate_stride_of h)
                        (resolve_columns buf h) = Some (Thrown what))
      by (apply submit_feature_tasks_thrown; congruence).
    assert (Hrun : process_features (Some buf) true = Some (Thrown what)).
    { rewrite (process_features_until_submission buf h hs off Hparse Hgeom
                 Hoff), Hsubmit.
      reflexivity. }
    split; [exact Hsubmit|]. split; [exact Hrun|].
    exact (run_application_of_exception _ _ _ Hrun).
  - pose proof (process_features_without_output buf) as Hrun.
    split; [exact Hrun|].
    rewrite (run_application_of_report _ _ _ Hrun). reflexivity.
Qed.

End RunFacts.

Lemma truncated_stream_keeps_rows_and_exits_zero_witness :
  (@reserve truncated_library (features_count (uat_header 2)) = None ->
   exists (st : flatgeobuf_processor) (results : list task_result),
     @submit_loop truncated_library 1 (uat_header 2)
       (coordinate_stride_of (uat_header 2)) 16
       (resolve_columns truncated_file (uat_header 2)) = Some (true, st)
     /\ @submit_feature_tasks truncated_library (uat_header 2) 16
          (coordinate_stride_of (uat_header 2))
          (resolve_columns truncated_file (uat_header 2))
        = Some (Returned (false, st))
     /\ @every_feature_submitted truncated_library (uat_header 2)
          (resolve_columns truncated_file (uat_header 2))
          (coordinate_stride_of (uat_header 2)) 0
          (@features_of_records truncated_library 1 truncated_file 16)
          (processing_futures_ st)
     /\ map (@process_single_feature_task) (processing_futures_ st)
        = map Some results
     /\ @process_features truncated_library (Some truncated_file) true
        = Some (Returned
                  {| return_value := true;
                     output_csv :=
                       Some (content
                               (fold_left
                                  (@write_result_row truncated_library)
                                  results (write_csv_header fresh_stream)));
                     submitted := processing_futures_ st |})
     /\ @run_application truncated_library (Some truncated_file) true
        = Some 0)
  /\ (forall what : string,
         @reserve truncated_library (features_count (uat_header 2))
         = Some what ->
         @submit_feature_tasks truncated_library (uat_header 2) 16
           (coordinate_stride_of (uat_header 2))
           (resolve_columns truncated_file (uat_header 2))
         = Some (Thrown what)
         /\ @process_features truncated_library (Some truncated_file) true
            = Some (Thrown what)
         /\ @run_application truncated_library (Some truncated_file) true
            = Some 2)
  /\ (@process_features truncated_library (Some truncated_file) false
      = Some (Returned {| return_value := false; output_csv := None;
                          submitted := [] |})
      /\ @run_application truncated_library (Some truncated_file) false
         = Some 1).
Proof.
  apply (@truncated_stream_keeps_rows_and_exits_zero truncated_library
           truncated_file (uat_header 2) 4 16 1).
  - vm_compute. reflexivity.
  - reflexivity.
  - vm_compute. reflexivity.
  - vm_compute. lia.
  - vm_compute. reflexivity.
Defined.

(** The claim C1 as the specification states it fails on this file: its
    header is accepted, the output file opens, the reservation for the two
    announced records succeeds, its first record is complete and its second
    record declares nine bytes where one is left; the process still exits
    with code 0, not 1. *)
Lemma truncated_run_exits_zero :
  @parse_and_validate_header truncated_library truncated_file
  = Some (uat_header 2, 4)
  /\ @first_feature_offset truncated_library (uat_header 2) 4 = Some 16
  /\ truncated_after 1 truncated_file 16 = true
  /\ @reserve truncated_library (features_count (uat_header 2)) = None
  /\ @run_application truncated_library (Some truncated_file) true = Some 0
  /\ @run_application truncated_library (Some truncated_file) true <> Some 1.
Proof.
  assert (Hrun : @run_application truncated_library (Some truncated_file) true
                 = Some 0) by (lazy; reflexivity).
  split; [vm_compute; reflexivity|].
  split; [vm_compute; reflexivity|].
  split; [vm_compute; reflexivity|].
  split; [vm_compute; reflexivity|].
  split; [exact Hrun|]. rewrite Hrun. discriminate.
Qed.

(** ** A column index outside the schema *)

Section CorruptIndex.
Context `{Library}.

Lemma property_scan_step (fuel : nat) (cols : list Column) (target : Z)
    (data : list byte) (size off : Z) :
  0 <= size < 2 ^ 32 -> 0 <= off -> off + 2 <= size ->
  value_of (property_scan (S fuel) cols target data size off)
  = let idx := value_of (ReadScalar 2 data off) in
    if idx >=? vector_size cols then Some EmptyString
    else
      match nth_error cols (Z.to_nat idx) with
      | None => Some EmptyString
      | Some column =>
          if idx =? target then
            Some (fst (value_of (read_and_convert_property_value_at_offset
                                   (col_type column) data (off + 2) size)))
          else
            let skip :=
              value_of (skip_property_value_at_offset (col_type column) data
                                                      (off + 2) size) in
            if skip >? size - (off + 2) then Some EmptyString
            else value_of (property_scan fuel cols target data size
                                         (off + 2 + skip))
      end.
Proof.
  intros Hsize Hoff Hend. cbn [property_scan].
  replace (off <? size) with true by (symmetry; apply Z.ltb_lt; lia).
  replace (off + 2 >? size) with false by lia.
  rewrite value_of_bind. cbv zeta.
  replace (u32_wrap (off + 2)) with (off + 2)
    by (unfold u32_wrap; symmetry; apply Z.mod_small; lia).
  destruct (value_of (ReadScalar 2 data off) >=? vector_size cols);
    [reflexivity|].
  destruct (nth_error cols (Z.to_nat (value_of (ReadScalar 2 data off))))
    as [column|]; [|reflexivity].
  destruct (value_of (ReadScalar 2 data off) =? target).
  - rewrite value_of_bind. reflexivity.
  - rewrite value_of_bind.
    destruct (skip_in_bounds (col_type column) data (off + 2) size)
      as [_ [Hs0 Hs1]]; [lia|lia|]. specialize (Hs1 ltac:(lia)).
    replace (u32_wrap (size - (off + 2))) with (size - (off + 2))
      by (unfold u32_wrap; symmetry; apply Z.mod_small; lia).
    destruct (_ >? size - (off + 2)); [reflexivity|].
    replace (u32_wrap (off + 2 + _)) with
      (off + 2 + value_of (skip_property_value_at_offset (col_type column) data
                                                         (off + 2) size))
      by (unfold u32_wrap; symmetry; apply Z.mod_small; lia).
    reflexivity.
Qed.

Lemma property_scan_done (fuel : nat) (cols : list Column) (target : Z)
    (data : list byte) (size off : Z) :
  off + 2 > size ->
  value_of (property_scan (S fuel) cols target data size off)
  = Some EmptyString.
Proof.
  intros Hend. cbn [property_scan].
  destruct (off <? size); [|reflexivity].
  replace (off + 2 >? size) with true by lia. reflexivity.
Qed.

(** More fuel than bytes left is as good as any larger amount. *)
Lemma property_scan_fuel (cols : list Column) (target : Z) (data : list byte)
    (size : Z) :
  0 <= size < 2 ^ 32 ->
  forall (f1 f2 : nat) (off : Z),
    0 <= off <= size ->
    size - off < Z.of_nat f1 -> size - off < Z.of_nat f2 ->
    value_of (property_scan f1 cols target data size off)
    = value_of (property_scan f2 cols target data size off).
Proof.
  intros Hsize. induction f1 as [|f1 IH]; intros f2 off Hoff H1 H2; [lia|].
  destruct f2 as [|f2]; [lia|].
  destruct (Z_le_gt_dec (off + 2) size) as [Hin|Hout].
  - rewrite !property_scan_step by lia. cbv zeta.
    destruct (_ >=? vector_size cols); [reflexivity|].
    destruct (nth_error cols _) as [column|]; [|reflexivity].
    destruct (_ =? target); [reflexivity|].
    destruct (skip_in_bounds (col_type column) data (off + 2) size)
      as [_ [Hs0 Hs1]]; [lia|lia|]. specialize (Hs1 ltac:(lia)).
    destruct (_ >? size - (off + 2)); [reflexivity|].
    apply IH; lia.
  - rewrite !property_scan_done by lia. reflexivity.
Qed.

(** The scan for [target] walks over the pairs of the other columns. *)
Lemma scan_passes_earlier_pairs (cols : list Column) (target : Z)
    (data : list byte) (size : Z) (earlier : list Z) (off idx : Z) :
  0 <= size < 2 ^ 32 ->
  column_index_at cols data size earlier off idx ->
  ~ In target earlier ->
  0 <= off /\ off + 2 <= size
  /\ idx = value_of (ReadScalar 2 data off)
  /\ value_of (scan_blob cols target data size)
     = value_of (property_scan (S (Z.to_nat size)) cols target data size off).
Proof.
  intros Hsize Hat.
  induction Hat as [H2|earlier off idx column next Hat IH Hidx Hcol Hnext Hend];
    intros Hnot.
  - repeat split; try lia.
  - destruct IH as [Hoff [Hoff2 [Hread Hscan]]].
    { intros Hin. apply Hnot. apply in_or_app. now left. }
    assert (Hneq : idx <> target).
    { intros ->. apply Hnot. apply in_or_app. right. now left. }
    destruct (skip_in_bounds (col_type column) data (off + 2) size)
      as [_ [Hs0 Hs1]]; [lia|lia|]. specialize (Hs1 ltac:(lia)).
    repeat split; try lia.
    rewrite Hscan, property_scan_step by lia. cbv zeta.
    rewrite <- Hread.
    replace (idx >=? vector_size cols) with false by lia.
    rewrite Hcol.
    replace (idx =? target) with false by lia.
    rewrite <- Hnext.
    replace (_ >? size - (off + 2)) with false by lia.
    apply property_scan_fuel; lia.
Qed.

Lemma scan_stops_at_corrupt_index (cols : list Column) (target : Z)
    (data : list byte) (size : Z) (earlier : list Z) (off idx : Z) :
  0 <= size < 2 ^ 32 ->
  column_index_at cols data size earlier off idx ->
  vector_size cols <= idx ->
  ~ In target earlier ->
  value_of (scan_blob cols target data size) = Some EmptyString.
Proof.
  intros Hsize Hat Hbad Hnot.
  destruct (scan_passes_earlier_pairs cols target data size earlier off idx
              Hsize Hat Hnot) as [Hoff [Hend [Hread ->]]].
  rewrite property_scan_step by lia. cbv zeta. rewrite <- Hread.
  replace (idx >=? vector_size cols) with true by lia. reflexivity.
Qed.

End CorruptIndex.

Section CorruptIndexRun.
Context `{Library}.

(** A requested column whose pair is preceded by pairs of other columns only
    is decoded, whatever the blob holds behind it. *)
Lemma scan_decodes_requested_column (cols : list Column) (target : Z)
    (data : list byte) (size : Z) (earlier : list Z) (off : Z)
    (column : Column) :
  0 <= size < 2 ^ 32 ->
  column_index_at cols data size earlier off target ->
  ~ In target earlier ->
  target < vector_size cols ->
  nth_error cols (Z.to_nat target) = Some column ->
  value_of (scan_blob cols target data size)
  = Some (fst (value_of (read_and_convert_property_value_at_offset
                           (col_type column) data (off + 2) size))).
Proof.
  intros Hsize Hat Hnot Hrange Hcol.
  destruct (scan_passes_earlier_pairs cols target data size earlier off target
              Hsize Hat Hnot) as [Hoff [Hend [Hread ->]]].
  rewrite property_scan_step by lia. cbv zeta. rewrite <- Hread.
  replace (target >=? vector_size cols) with false by lia.
  rewrite Hcol, Z.eqb_refl. reflexivity.
Qed.

(** [process_features] ends for every file that can be read, and an
    exception it ends with stems from the header. *)
Lemma process_features_ends (buf : list byte) (opens : bool) :
  exists outcome : completion run_report,
    process_features (Some buf) opens = Some outcome
    /\ forall what : string,
         outcome = Thrown what ->
         exists (h : Header) (hs : Z),
           parse_and_validate_header buf = Some (h, hs)
           /\ (first_feature_offset h hs = None
               \/ reserve_futures (features_count h) = Some what).
Proof.
  rewrite process_features_cases.
  destruct (parse_and_validate_header buf) as [[h hs]|];
    [|eexists; split; [reflexivity|discriminate]].
  destruct (negb opens); [eexists; split; [reflexivity|discriminate]|].
  destruct (negb (supported_geometry_type (geometry_type h)));
    [eexists; split; [reflexivity|discriminate]|].
  destruct (first_feature_offset h hs) as [off|] eqn:Hoff.
  - destruct (reserve_futures (features_count h)) as [what|] eqn:Hres.
    + rewrite (proj2 (submit_feature_tasks_thrown h off _ _ what) Hres).
      cbn [obind]. eexists. split; [reflexivity|].
      intros what' [= <-]. exists h, hs. split; [reflexivity|now right].
    + destruct (submit_loop_returns_outcome h (coordinate_stride_of h)
                  (Z.to_nat (features_count h)) off (resolve_columns buf h))
        as [ok [st Hloop]].
      assert (Hsubmit : submit_feature_tasks h off (coordinate_stride_of h)
                          (resolve_columns buf h) = Some (Returned (ok, st)))
        by (apply submit_feature_tasks_returned; now split).
      rewrite Hsubmit. cbn [obind snd].
      destruct (submit_loop_invariant h (coordinate_stride_of h) _ _ _ _ _
                  Hloop) as [new_tasks [Hf [_ [Hs _]]]].
      cbn [resolve_columns processing_futures_ app] in Hf.
      destruct (collect_loop_rows (processing_futures_ st))
        as [results [_ Hrows]].
      { rewrite Hf. eapply Forall_impl; [|exact Hs].
        intros t Ht. cbn beta in Ht. rewrite Ht, coordinate_stride_of_value.
        destruct (has_z h), (has_m h); cbn; lia. }
      unfold collect_and_write_results. rewrite Hrows. cbn [obind].
      eexists. split; [reflexivity|discriminate].
  - eexists. split; [reflexivity|].
    intros what' _. exists h, hs. split; [reflexivity|now left].
Qed.

(** C6 (amended). When a property blob holds a column index outside the
    schema, decoding for that feature stops at that index.  A requested
    column gets the empty value when the pairs stored before the index are
    all for other columns; a requested column whose pair is stored before
    the index is still decoded, just as in a sound blob.  The run continues
    normally for all subsequent features: whatever the blob of a feature
    holds, the loop builds the task of the feature and goes on with the next
    record, so that the task of every feature of the records that lie inside
    the file is submitted, in order.  This corruption is never fatal to the
    run: the run ends, and an exception it ends with stems from the header
    alone ([PackedRTree::size] or the reservation for the announced number
    of features). *)
Theorem corrupt_column_index_is_not_fatal :
  (forall (f : Feature) (h : Header) (cols : list Column) (props : list byte)
          (target : Z) (earlier : list Z) (off idx : Z),
      properties f = Some props ->
      columns h = Some cols ->
      column_index_at cols props (vector_size props) earlier off idx ->
      vector_size cols <= idx ->
      ~ In target earlier ->
      value_of (get_string_value_for_property (Some f) (Some h) target)
      = Some EmptyString)
  /\ (forall (f : Feature) (h : Header) (cols : list Column)
             (props : list byte) (target : Z) (earlier : list Z) (off : Z)
             (column : Column),
         properties f = Some props ->
         columns h = Some cols ->
         column_index_at cols props (vector_size props) earlier off target ->
         ~ In target earlier ->
         target < vector_size cols ->
         nth_error cols (Z.to_nat target) = Some column ->
         value_of (get_string_value_for_property (Some f) (Some h) target)
         = Some (fst (value_of (read_and_convert_property_value_at_offset
                                  (col_type column) props (off + 2)
                                  (vector_size props)))))
  /\ (forall (h : Header) (stride : Z) (n : nat) (off : Z)
             (st : flatgeobuf_processor) (f : Feature),
         record_complete (fgb_buffer_ st) off = true ->
         GetSizePrefixedFeature (fgb_buffer_ st) off = Some f ->
         exists task : task_input_data,
           prepare_task f h stride st = Some task
           /\ task_built_from h st stride (feature_submission_count_ st) f
                              task
           /\ submit_loop (S n) h stride off st
              = submit_loop n h stride (record_end (fgb_buffer_ st) off)
                            (enqueue st task))
  /\ (forall (h : Header) (stride : Z) (n : nat) (off : Z)
             (st : flatgeobuf_processor),
         complete_records n (fgb_buffer_ st) off = true ->
         exists (st' : flatgeobuf_processor) (tasks : list task_input_data),
           submit_loop n h stride off st = Some (true, st')
           /\ processing_futures_ st' = processing_futures_ st ++ tasks
           /\ every_feature_submitted h st stride
                (feature_submission_count_ st)
                (features_of_records n (fgb_buffer_ st) off) tasks)
  /\ (forall (buf : list byte) (output_opens : bool),
         exists outcome : completion run_report,
           process_features (Some buf) output_opens = Some outcome
           /\ forall what : string,
                outcome = Thrown what ->
                exists (h : Header) (hs : Z),
                  parse_and_validate_header buf = Some (h, hs)
                  /\ (first_feature_offset h hs = None
                      \/ reserve_futures (features_count h) = Some what)).
Proof.
  split; [|split; [|split; [|split]]].
  - intros f h cols props target earlier off idx Hprops Hcols Hat Hbad Hnot.
    unfold get_string_value_for_property. rewrite Hprops, Hcols.
    destruct (target >=? vector_size cols); [reflexivity|].
    eapply scan_stops_at_corrupt_index; eauto using vector_size_range.
  - intros f h cols props target earlier off column Hprops Hcols Hat Hnot
      Hrange Hcol.
    unfold get_string_value_for_property. rewrite Hprops, Hcols.
    destruct (Z.geb_spec target (vector_size cols)); [lia|].
    eapply scan_decodes_requested_column; eauto using vector_size_range.
  - intros h stride n off st f Hrecord Hfeature.
    destruct (prepare_task_built f h stride st) as [task [Htask Hbuilt]].
    exists task. split; [exact Htask|]. split; [exact Hbuilt|].
    rewrite (submit_loop_turn h stride n off st Hrecord), Hfeature, Htask.
    reflexivity.
  - intros h stride n off st. apply submit_loop_every_feature.
  - intros buf output_opens. apply process_features_ends.
Qed.

(** C9. The stride [process_features] computes from a header is 2, plus 1
    when [has_z] is set, plus 1 when [has_m] is set, and every task it
    submits for geometry scanning carries that stride. *)
Theorem stride_is_two_plus_z_plus_m (buf : list byte) (output_opens : bool)
    (h : Header) (hs : Z) (report : run_report) :
  parse_and_validate_header buf = Some (h, hs) ->
  process_features (Some buf) output_opens = Some (Returned report) ->
  coordinate_stride_of h = 2 + Z.b2z (has_z h) + Z.b2z (has_m h)
  /\ Forall (fun task =>
               coordinate_stride task = 2 + Z.b2z (has_z h) + Z.b2z (has_m h))
            (submitted report).
Proof.
  intros Hparse Hrun. split; [apply coordinate_stride_of_value|].
  unfold process_features in Hrun. rewrite Hparse in Hrun.
  assert (Hfailed : forall csv,
             Some (Returned {| return_value := false; output_csv := csv;
                               submitted := [] |}) = Some (Returned report) ->
             Forall (fun task =>
                       coordinate_stride task
                       = 2 + Z.b2z (has_z h) + Z.b2z (has_m h))
                    (submitted report)).
  { intros csv E. injection E as <-. constructor. }
  destruct (_ || _); [now apply (Hfailed None)|].
  destruct (negb output_opens); [now apply (Hfailed None)|].
  destruct (negb (supported_geometry_type (geometry_type h)));
    [now apply (Hfailed (Some (content fresh_stream)))|].
  destruct (first_feature_offset h hs) as [off|]; [|discriminate].
  destruct (submit_feature_tasks h off (coordinate_stride_of h)
              (resolve_columns buf h))
    as [[[ok st]|what]|] eqn:Hsubmit; try discriminate.
  cbn [obind snd] in Hrun.
  destruct (collect_and_write_results st (write_csv_header fresh_stream)
              (feature_submission_count_ st)) as [collection|];
    [|discriminate].
  cbn [obind] in Hrun. injection Hrun as <-. cbn [submitted].
  apply submit_feature_tasks_returned in Hsubmit.
  destruct Hsubmit as [_ Hloop].
  destruct (submit_loop_invariant h (coordinate_stride_of h) _ _ _ _ _ Hloop)
    as [new_tasks [Hf [_ [Hs _]]]].
  cbn [resolve_columns processing_futures_ app] in Hf. rewrite Hf.
  rewrite <- coordinate_stride_of_value. exact Hs.
Qed.

End CorruptIndexRun.

(** The pairs of [corrupt_properties]: the name at offset 0, then the column
    index 99 at offset 12. *)
Lemma corrupt_properties_layout :
  column_index_at uat_columns corrupt_properties
                  (vector_size corrupt_properties) [0] 12 99.
Proof.
  refine (index_next uat_columns corrupt_properties _ [] 0 0
            {| col_name := Some expected_uat_name_column_; col_type := String_ |}
            12 (index_first _ _ _ _) _ _ _ _).
  - vm_compute. discriminate.
  - vm_compute. reflexivity.
  - reflexivity.
  - vm_compute. reflexivity.
  - vm_compute. discriminate.
Qed.

(** The first pair of [corrupt_properties] is for column 0. *)
Lemma corrupt_properties_first_pair :
  column_index_at uat_columns corrupt_properties
                  (vector_size corrupt_properties) [] 0 0.
Proof.
  refine (index_first uat_columns corrupt_properties
            (vector_size corrupt_properties) _).
  vm_compute. discriminate.
Qed.

Lemma corrupt_column_index_is_not_fatal_witness :
  value_of (@get_string_value_for_property corrupt_first_library
              (Some corrupt_feature) (Some (uat_header 2)) 1)
  = Some EmptyString
  /\ value_of (@get_string_value_for_property corrupt_first_library
                 (Some corrupt_feature) (Some (uat_header 2)) 0)
     = Some (fst (value_of (@read_and_convert_property_value_at_offset
                              corrupt_first_library String_
                              corrupt_properties (0 + 2)
                              (vector_size corrupt_properties))))
  /\ (exists task : task_input_data,
         @prepare_task corrupt_first_library corrupt_feature (uat_header 2) 2
           (resolve_columns complete_file (uat_header 2)) = Some task
         /\ @task_built_from corrupt_first_library (uat_header 2)
              (resolve_columns complete_file (uat_header 2)) 2
              (feature_submission_count_
                 (resolve_columns complete_file (uat_header 2)))
              corrupt_feature task
         /\ @submit_loop corrupt_first_library 2 (uat_header 2) 2 16
              (resolve_columns complete_file (uat_header 2))
            = @submit_loop corrupt_first_library 1 (uat_header 2) 2
                (record_end
                   (fgb_buffer_ (resolve_columns complete_file (uat_header 2)))
                   16)
                (enqueue (resolve_columns complete_file (uat_header 2)) task))
  /\ (exists (st' : flatgeobuf_processor) (tasks : list task_input_data),
         @submit_loop corrupt_first_library 2 (uat_header 2) 2 16
           (resolve_columns complete_file (uat_header 2)) = Some (true, st')
         /\ processing_futures_ st'
            = processing_futures_
                (resolve_columns complete_file (uat_header 2)) ++ tasks
         /\ @every_feature_submitted corrupt_first_library (uat_header 2)
              (resolve_columns complete_file (uat_header 2)) 2
              (feature_submission_count_
                 (resolve_columns complete_file (uat_header 2)))
              (@features_of_records corrupt_first_library 2
                 (fgb_buffer_ (resolve_columns complete_file (uat_header 2)))
                 16)
              tasks)
  /\ (exists outcome : completion run_report,
         @process_features corrupt_first_library (Some complete_file) true
         = Some outcome
         /\ forall what : string,
              outcome = Thrown what ->
              exists (h : Header) (hs : Z),
                @parse_and_validate_header corrupt_first_library complete_file
                = Some (h, hs)
                /\ (@first_feature_offset corrupt_first_library h hs = None
                    \/ @reserve_futures corrupt_first_library
                         (features_count h) = Some what)).
Proof.
  destruct (@corrupt_column_index_is_not_fatal corrupt_first_library)
    as [Hstop [Hdecoded [Hturn [Hevery Hends]]]].
  split; [|split; [|split; [|split]]].
  - apply (Hstop corrupt_feature (uat_header 2) uat_columns corrupt_properties
             1 [0] 12 99).
    + reflexivity.
    + reflexivity.
    + exact corrupt_properties_layout.
    + vm_compute. discriminate.
    + intros [E|[]]. discriminate E.
  - apply (Hdecoded corrupt_feature (uat_header 2) uat_columns
             corrupt_properties 0 [] 0
             {| col_name := Some expected_uat_name_column_;
                col_type := String_ |}).
    + reflexivity.
    + reflexivity.
    + exact corrupt_properties_first_pair.
    + intros [].
    + vm_compute. reflexivity.
    + reflexivity.
  - apply (Hturn (uat_header 2) 2 1%nat 16
             (resolve_columns complete_file (uat_header 2)) corrupt_feature).
    + vm_compute. reflexivity.
    + reflexivity.
  - apply (Hevery (uat_header 2) 2 2%nat 16
             (resolve_columns complete_file (uat_header 2))).
    vm_compute. reflexivity.
  - apply (Hends complete_file true).
Defined.

(** What the two parts of the witness amount to: the tasks of both records
    of [complete_file] are submitted, the first with the name that is stored
    in front of the corrupt index and without code and county. *)
Example corrupt_feature_is_followed_by_the_next :
  option_map (fun r => map (fun t => (in_uat_name t, in_uat_code t,
                                      county_to_string (in_county_mn t)))
                           (processing_futures_ (snd r)))
    (@submit_loop corrupt_first_library 2 (uat_header 2) 2 16
       (resolve_columns complete_file (uat_header 2)))
  = Some [("Gherla", 0, ""); ("Dej", 55008, "CJ")]%string.
Proof. vm_compute. reflexivity. Qed.

(** The claim C6 as the specification states it fails on this blob: it holds
    the out-of-range column index 99 at offset 12, yet the requested column 0,
    stored before it, is decoded to [Gherla], not to the empty string. *)
Lemma requested_column_before_corrupt_index :
  column_index_at uat_columns corrupt_properties
                  (vector_size corrupt_properties) [0] 12 99
  /\ vector_size uat_columns <= 99
  /\ properties corrupt_feature = Some corrupt_properties
  /\ value_of (@get_string_value_for_property corrupt_first_library
                 (Some corrupt_feature) (Some (uat_header 2)) 0)
     = Some "Gherla"%string
  /\ value_of (@get_string_value_for_property corrupt_first_library
                 (Some corrupt_feature) (Some (uat_header 2)) 0)
     <> Some EmptyString.
Proof.
  split; [exact corrupt_properties_layout|].
  split; [vm_compute; discriminate|].
  split; [reflexivity|].
  assert (E : value_of (@get_string_value_for_property corrupt_first_library
                          (Some corrupt_feature) (Some (uat_header 2)) 0)
              = Some "Gherla"%string) by (vm_compute; reflexivity).
  split; [exact E|]. rewrite E. discriminate.
Qed.

Lemma stride_is_two_plus_z_plus_m_witness :
  coordinate_stride_of (uat_header 2)
  = 2 + Z.b2z (has_z (uat_header 2)) + Z.b2z (has_m (uat_header 2))
  /\ Forall (fun task =>
               coordinate_stride task
               = 2 + Z.b2z (has_z (uat_header 2)) + Z.b2z (has_m (uat_header 2)))
            [ {| in_uat_name := "Gherla";
                 in_uat_code := 0;
                 in_county_mn := county_code_default;
                 geometry_ptr := Some bare_polygon;
                 coordinate_stride := 2;
                 actual_geometry_type := Polygon |};
              {| in_uat_name := "Dej";
                 in_uat_code := 55008;
                 in_county_mn := {| code0 := "C"; code1 := "J" |};
                 geometry_ptr := Some bare_polygon;
                 coordinate_stride := 2;
                 actual_geometry_type := Polygon |} ].
Proof.
  apply (@stride_is_two_plus_z_plus_m corrupt_first_library complete_file true
           (uat_header 2) 4
           {| return_value := true;
              output_csv :=
                Some ("uat_name,uat_code,county_code_mn,min_x,min_y,max_x,max_y,bbox_area_km2"
                      ++ csv_newline_ ++ "Gherla,0,,#,#,#,#,#" ++ csv_newline_
                      ++ "Dej,55008,CJ,#,#,#,#,#" ++ csv_newline_)%string;
              submitted :=
                [ {| in_uat_name := "Gherla";
                     in_uat_code := 0;
                     in_county_mn := county_code_default;
                     geometry_ptr := Some bare_polygon;
                     coordinate_stride := 2;
                     actual_geometry_type := Polygon |};
                  {| in_uat_name := "Dej";
                     in_uat_code := 55008;
                     in_county_mn := {| code0 := "C"; code1 := "J" |};
                     geometry_ptr := Some bare_polygon;
                     coordinate_stride := 2;
                     actual_geometry_type := Polygon |} ] |}).
  - vm_compute. reflexivity.
  - lazy. reflexivity.
Defined.

Lemma property_decoding_stays_in_blob_witness :
  in_bounds 31 (offsets_of (@scan_blob corrupt_first_library uat_columns 2
                              corrupt_properties 31))
  /\ (exists s, value_of (@scan_blob corrupt_first_library uat_columns 2
                            corrupt_properties 31) = Some s)
  /\ (forall (ty : ColumnType) (off : Z), 0 <= off ->
         in_bounds 31
           (offsets_of (@read_and_convert_property_value_at_offset
                          corrupt_first_library ty corrupt_properties off 31))
         /\ in_bounds 31
              (offsets_of (skip_property_value_at_offset ty corrupt_properties
                                                         off 31)))
  /\ (forall (f : Feature) (h : option Header),
         properties f = Some corrupt_properties ->
         in_bounds (vector_size corrupt_properties)
           (offsets_of (@get_string_value_for_property corrupt_first_library
                          (Some f) h 2))).
Proof.
  apply (@property_decoding_stays_in_blob corrupt_first_library uat_columns 2
           corrupt_properties 31).
  lia.
Defined.

(** Fixed-width values: a negative Int, a Bool and a negative Short. *)
Example mixed_properties_decoded :
  map (fun target =>
         value_of (@scan_blob corrupt_first_library mixed_columns target
                     mixed_properties (vector_size mixed_properties)))
      [0; 1; 2]
  = [Some "-2"%string; Some "true"%string; Some "-1"%string].
Proof. vm_compute. reflexivity. Qed.

Lemma ReadScalar_one_byte (data : list byte) (off : Z) :
  value_of (ReadScalar 1 data off) = byte_val (byte_at data off).
Proof.
  unfold ReadScalar, value_of, span. cbn [fst seq map little_endian Z.of_nat].
  replace (off + 0) with off by lia. lia.
Qed.

(** A Boolean value is one byte: 0 reads as [false], anything else as
    [true]. *)
Lemma boolean_decoding (L : Library) (data : list byte) (off size : Z) :
  0 <= off < size -> size < 2 ^ 32 ->
  value_of (@read_and_convert_property_value_at_offset L Bool data off size)
  = (if byte_val (byte_at data off) =? 0 then "false"%string
     else "true"%string, 1).
Proof.
  intros Hoff Hsize. unfold read_and_convert_property_value_at_offset.
  replace (off >=? size) with false by lia.
  replace (u32_wrap (size - off)) with (size - off)
    by (unfold u32_wrap; symmetry; apply Z.mod_small; lia).
  unfold read_scalar_as_string_static_helper.
  replace (sizeof uint8_t >? size - off) with false by (cbn; lia).
  rewrite !value_of_bind.
  change (Z.to_nat (sizeof uint8_t)) with 1%nat.
  rewrite ReadScalar_one_byte.
  destruct (byte_at data off); reflexivity.
Qed.

(** What the run on [truncated_file] leaves in the CSV file: the header row
    and the row of the one complete record. *)
Example truncated_run_output :
  option_map
    (fun outcome =>
       match outcome with
       | Returned report => (return_value report, output_csv report)
       | Thrown _ => (false, None)
       end)
    (@process_features truncated_library (Some truncated_file) true)
  = Some (true,
          Some ("uat_name,uat_code,county_code_mn,min_x,min_y,max_x,max_y,bbox_area_km2"
                ++ csv_newline_ ++ "Dej,55008,CJ,#,#,#,#,#" ++ csv_newline_)%string).
Proof. lazy. reflexivity. Qed.

(** What the run on [complete_file] writes when the first feature has the
    corrupt blob: its name is still decoded, its code and county are not,
    and the second feature is unaffected. *)
Example corrupt_first_run_output :
  option_map
    (fun outcome =>
       match outcome with
       | Returned report => (return_value report, output_csv report)
       | Thrown _ => (false, None)
       end)
    (@process_features corrupt_first_library (Some complete_file) true)
  = Some (true,
          Some ("uat_name,uat_code,county_code_mn,min_x,min_y,max_x,max_y,bbox_area_km2"
                ++ csv_newline_ ++ "Gherla,0,,#,#,#,#,#" ++ csv_newline_
                ++ "Dej,55008,CJ,#,#,#,#,#" ++ csv_newline_)%string).
Proof. lazy. reflexivity. Qed.

(** The other exits of the run: an input file that cannot be opened, a file
    too short to be FlatGeobuf, wrong magic bytes, and an output file that
    cannot be opened. *)
Example failing_runs :
  @run_application truncated_library None true = Some 2
  /\ @run_application truncated_library (Some [x66; x67; x62]) true = Some 1
  /\ @run_application truncated_library
       (Some (x00 :: tl truncated_file)) true = Some 1
  /\ @run_application truncated_library (Some truncated_file) false = Some 1.
Proof. repeat split; vm_compute; reflexivity. Qed.

(** A blob whose declared size is smaller than its string claims: the length
    prefix says 200 bytes, the blob has 9.  Nothing beyond offset 8 is read
    and the value is empty. *)
Example oversized_string_is_not_read :
  @scan_blob corrupt_first_library uat_columns 0
    [x00; x00; xc8; x00; x00; x00; x41; x42; x43] 9
  = (Some EmptyString, [0; 1; 2; 3; 4; 5]).
Proof. vm_compute. reflexivity. Qed.

(** A skipped string whose length prefix is 0xFFFFFFFF: the 32-bit width
    wraps to 3, the scan goes on inside the blob. *)
Example wrapped_skip_width_stays_inside :
  offsets_of (@scan_blob corrupt_first_library uat_columns 1
                [x00; x00; xff; xff; xff; xff; x41; x42; x43; x44; x45] 11)
  = [0; 1; 2; 3; 4; 5; 5; 6].
Proof. vm_compute. reflexivity. Qed.

(** ** Worker pool, futures and the order of the rows *)

Lemma list_set_length {A : Type} (l : list A) (i : nat) (v : A) :
  List.length (list_set l i v) = List.length l.
Proof.
  revert i. induction l as [|x l IH]; intros [|i]; cbn; auto.
Qed.

Lemma nth_error_list_set {A : Type} (l : list A) (i j : nat) (v : A) :
  nth_error (list_set l i v) j
  = if (i =? j)%nat
    then match nth_error l j with Some _ => Some v | None => None end
    else nth_error l j.
Proof.
  revert i j. induction l as [|x l IH]; intros [|i] [|j]; cbn; auto;
    now destruct (i =? j)%nat.
Qed.

Lemma in_list_set {A : Type} (l : list A) (i : nat) (v x : A) :
  In x (list_set l i v) -> x = v \/ In x l.
Proof.
  revert i. induction l as [|y l IH]; intros [|i]; cbn; auto.
  - intros [<-|Hin]; auto.
  - intros [<-|Hin]; auto. destruct (IH i Hin); auto.
Qed.

Lemma firstn_succ_nth {A : Type} (l : list A) (n : nat) (x : A) :
  nth_error l n = Some x -> firstn (S n) l = firstn n l ++ [x].
Proof.
  revert n. induction l as [|y l IH]; intros [|n] Hn; cbn in *;
    try discriminate.
  - now injection Hn as ->.
  - f_equal. now apply IH.
Qed.

Lemma nth_error_app_left {A : Type} (l1 l2 : list A) (i : nat) (x : A) :
  nth_error l1 i = Some x -> nth_error (l1 ++ l2) i = Some x.
Proof.
  intros Hn. rewrite nth_error_app1; [exact Hn|].
  apply nth_error_Some. congruence.
Qed.

Section ConcurrencyFacts.
Context `{Library}.

Lemma initial_system_consistent (inputs : list task_input_data) (n : nat)
    (os0 : ostream) :
  consistent inputs os0 (initial_system inputs n os0).
Proof.
  exists [], []. cbn. repeat split; auto.
  - intros [|i] r; discriminate.
  - intros t [].
  - intros t Hin. apply repeat_spec in Hin. discriminate.
Qed.

Lemma step_consistent (inputs : list task_input_data) (os0 : ostream)
    (s s' : system) :
  consistent inputs os0 s -> step s s' -> consistent inputs os0 s'.
Proof.
  intros [done [rows [Hin [Hlen [Hready [Hqueue [Hwork [Hcol [Hrows Hout]]]]]]]]]
         Hstep.
  destruct Hstep as [s x rest Hnext|s w t queue Hidle Hfront
                    |s w t r Hbusy Hresult|s r Hnone Hget].
  - (* enqueue *)
    exists (done ++ [x]), rows. cbn.
    rewrite Hnext in Hin. rewrite <- app_assoc. cbn.
    rewrite !length_app. cbn.
    repeat split; auto; try lia.
    + intros i r Hi.
      assert (Hlt : (i < List.length (shared_states s))%nat).
      { destruct (Nat.lt_ge_cases i (List.length (shared_states s))) as [|Hge];
          [assumption|].
        rewrite nth_error_app2 in Hi by assumption.
        destruct (i - List.length (shared_states s))%nat as [|[|k]];
          discriminate. }
      rewrite nth_error_app1 in Hi by assumption.
      destruct (Hready i r Hi) as [x0 [Hx0 Hr]].
      exists x0. split; [now apply nth_error_app_left|assumption].
    + intros t Ht. apply in_app_or in Ht. destruct Ht as [Ht|[<-|[]]].
      * apply nth_error_app_left. now apply Hqueue.
      * cbn. rewrite Hlen, nth_error_app2, Nat.sub_diag by lia. reflexivity.
    + intros t Ht. apply nth_error_app_left. now apply Hwork.
    + rewrite firstn_app.
      replace (collected s - List.length done)%nat with 0%nat by lia.
      cbn. rewrite app_nil_r. exact Hrows.
  - (* dequeue *)
    exists done, rows. cbn. rewrite Hfront in Hqueue.
    repeat split; auto.
    + intros t' Ht'. apply Hqueue. now right.
    + intros t' Ht'. apply in_list_set in Ht'. destruct Ht' as [E|Ht'].
      * injection E as ->. apply Hqueue. now left.
      * now apply Hwork.
  - (* complete *)
    exists done, rows. cbn. rewrite list_set_length.
    assert (Htask : nth_error done (promise t) = Some (input t)).
    { apply Hwork. eapply nth_error_In. exact Hbusy. }
    repeat split; auto.
    + intros i r' Hi. rewrite nth_error_list_set in Hi.
      destruct (promise t =? i)%nat eqn:E.
      * apply Nat.eqb_eq in E. subst i.
        destruct (nth_error (shared_states s) (promise t)); [|discriminate].
        injection Hi as <-. exists (input t). now split.
      * now apply Hready.
    + intros t' Ht'. apply in_list_set in Ht'. destruct Ht' as [E|Ht'].
      * discriminate E.
      * now apply Hwork.
  - (* collect *)
    destruct (Hready _ _ Hget) as [x [Hx Hr]].
    exists done, (rows ++ [r]).
    cbn [to_submit tasks_ workers_ shared_states collected out_file].
    assert (Hlt : (collected s < List.length done)%nat)
      by (apply nth_error_Some; congruence).
    repeat split; auto; try lia.
    + rewrite (firstn_succ_nth _ _ _ Hx), !map_app, Hrows. cbn.
      now rewrite Hr.
    + rewrite fold_left_app, <- Hout. reflexivity.
Qed.

Lemma reachable_consistent (inputs : list task_input_data) (n : nat)
    (os0 : ostream) (s : system) :
  reachable (initial_system inputs n os0) s -> consistent inputs os0 s.
Proof.
  induction 1 as [|s s' _ IH Hstep].
  - apply initial_system_consistent.
  - eapply step_consistent; eassumption.
Qed.

Lemma collect_loop_of_results (futures : list task_input_data)
    (rows : list task_result) :
  map process_single_feature_task futures = map Some rows ->
  forall (os : ostream) (n : Z),
    collect_loop futures os n
    = Some (fold_left write_result_row rows os,
            n + Z.of_nat (List.length futures)).
Proof.
  revert rows. induction futures as [|fut rest IH]; intros [|r rows] Hmap os n;
    try discriminate.
  - cbn. f_equal. f_equal. lia.
  - cbn in Hmap. injection Hmap as Hr Hrest.
    cbn [collect_loop]. rewrite Hr. cbn [obind].
    rewrite (IH rows Hrest). cbn [fold_left List.length]. f_equal. f_equal. lia.
Qed.

(** C4. In every state that any interleaving of the producer, the workers
    and the collector can reach, whatever the number of workers and the
    order in which tasks complete, the rows written so far are the results
    of the first [collected] submitted features, in submission order; once
    all futures are collected, the stream is the one the sequential loop of
    [collect_and_write_results] produces. *)
Theorem rows_follow_submission_order (inputs : list task_input_data)
    (num_threads : nat) (os0 : ostream) (s : system) :
  reachable (initial_system inputs num_threads os0) s ->
  (exists rows : list task_result,
      map process_single_feature_task (firstn (collected s) inputs)
      = map Some rows
      /\ out_file s = fold_left write_result_row rows os0)
  /\ (collected s = List.length inputs ->
      collect_loop inputs os0 0
      = Some (out_file s, Z.of_nat (List.length inputs))).
Proof.
  intros Hreach. apply reachable_consistent in Hreach.
  destruct Hreach as [done [rows [Hin [_ [_ [_ [_ [Hcol [Hrows Hout]]]]]]]]].
  assert (Hfirst : firstn (collected s) inputs = firstn (collected s) done).
  { rewrite Hin, firstn_app.
    replace (collected s - List.length done)%nat with 0%nat by lia.
    cbn. now rewrite app_nil_r. }
  split.
  - exists rows. rewrite Hfirst. now split.
  - intros Hall. rewrite Hall in Hfirst, Hrows. rewrite firstn_all in Hfirst.
    rewrite <- Hfirst in Hrows.
    rewrite (collect_loop_of_results inputs rows Hrows), Hout. reflexivity.
Qed.

Lemma perform_sound (a : action) (s s' : system) :
  perform a s = Some s' -> step s s'.
Proof.
  destruct a as [|w|w|]; cbn; intros Hp.
  - destruct (to_submit s) as [|x rest] eqn:E; [discriminate|].
    injection Hp as <-. now apply step_enqueue.
  - destruct (nth_error (workers_ s) w) as [[t|]|] eqn:Ew; try discriminate.
    destruct (tasks_ s) as [|t queue] eqn:Et; [discriminate|].
    injection Hp as <-. now apply step_dequeue.
  - destruct (nth_error (workers_ s) w) as [[t|]|] eqn:Ew; try discriminate.
    destruct (process_single_feature_task (input t)) as [r|] eqn:Er;
      [|discriminate].
    injection Hp as <-. now apply step_complete.
  - destruct (to_submit s) eqn:E; [|discriminate].
    destruct (nth_error (shared_states s) (collected s)) as [[r|]|] eqn:Ec;
      try discriminate.
    injection Hp as <-. rewrite <- E. now apply step_collect.
Qed.

Lemma run_schedule_reachable (schedule : list action) (s0 s s' : system) :
  reachable s0 s -> run_schedule schedule s = Some s' -> reachable s0 s'.
Proof.
  revert s. induction schedule as [|a rest IH]; intros s Hs Hrun; cbn in Hrun.
  - now injection Hrun as <-.
  - destruct (perform a s) as [s1|] eqn:Ea; [|discriminate].
    eapply IH; [|exact Hrun].
    eapply reachable_step; [exact Hs|]. eapply perform_sound. exact Ea.
Qed.

End ConcurrencyFacts.

Section Progress.
Context `{Library}.

Lemma list_set_restore {A : Type} (l : list A) (i : nat) (v w : A) :
  nth_error l i = Some w -> list_set (list_set l i v) i w = l.
Proof.
  revert i. induction l as [|x l IH]; intros [|i] Hn; cbn in *;
    try discriminate.
  - now injection Hn as ->.
  - f_equal. now apply IH.
Qed.

Lemma list_set_middle {A : Type} (pre post : list A) (x v : A) :
  list_set (pre ++ x :: post) (List.length pre) v = pre ++ v :: post.
Proof. induction pre as [|y pre IH]; cbn; [reflexivity|now rewrite IH]. Qed.

(** The producer can enqueue everything it still has to submit. *)
Lemma enqueue_all (s0 : system) (inputs : list task_input_data) :
  forall (queue : list pool_task) (workers : list (option pool_task))
         (states : list (option task_result)) (c : nat) (os : ostream),
    reachable s0 {| to_submit := inputs; tasks_ := queue; workers_ := workers;
                    shared_states := states; collected := c; out_file := os |} ->
    reachable s0 {| to_submit := []; 
                    tasks_ := queue ++ queue_of (List.length states) inputs;
                    workers_ := workers;
                    shared_states := states ++ repeat None (List.length inputs);
                    collected := c; out_file := os |}.
Proof.
  induction inputs as [|x rest IH]; intros queue workers states c os Hs.
  - cbn. now rewrite !app_nil_r.
  - cbn [queue_of List.length repeat].
    replace (queue ++ {| promise := List.length states; input := x |}
                   :: queue_of (S (List.length states)) rest)
      with ((queue ++ [{| promise := List.length states; input := x |}])
            ++ queue_of (S (List.length states)) rest)
      by (now rewrite <- app_assoc).
    replace (states ++ None :: repeat None (List.length rest))
      with ((states ++ [None]) ++ repeat None (List.length rest))
      by (now rewrite <- app_assoc).
    replace (S (List.length states)) with (List.length (states ++ [None]))
      by (rewrite length_app; cbn; lia).
    apply IH. eapply reachable_step; [exact Hs|].
    now apply step_enqueue.
Qed.

(** One worker alone can run every queued task. *)
Lemma work_all (s0 : system) (inputs : list task_input_data) :
  forall (rows : list task_result) (workers : list (option pool_task))
         (ready : list (option task_result)) (c : nat) (os : ostream),
    map process_single_feature_task inputs = map Some rows ->
    nth_error workers 0 = Some None ->
    reachable s0 {| to_submit := [];
                    tasks_ := queue_of (List.length ready) inputs;
                    workers_ := workers;
                    shared_states := ready ++ repeat None (List.length inputs);
                    collected := c; out_file := os |} ->
    reachable s0 {| to_submit := []; tasks_ := []; workers_ := workers;
                    shared_states := ready ++ map Some rows;
                    collected := c; out_file := os |}.
Proof.
  induction inputs as [|x rest IH]; intros [|r rows] workers ready c os Hmap Hidle Hs;
    try discriminate.
  - exact Hs.
  - cbn in Hmap. injection Hmap as Hr Hrest.
    cbn [queue_of List.length repeat map] in *.
    replace (ready ++ Some r :: map Some rows)
      with ((ready ++ [Some r]) ++ map Some rows)
      by (now rewrite <- app_assoc).
    apply IH; [exact Hrest|exact Hidle|].
    replace (List.length (ready ++ [Some r])) with (S (List.length ready))
      by (rewrite length_app; cbn; lia).
    rewrite <- app_assoc. cbn [app].
    rewrite <- (list_set_middle ready (repeat None (List.length rest)) None (Some r)).
    rewrite <- (list_set_restore workers 0
                  (Some {| promise := List.length ready; input := x |}) None Hidle)
      at 1.
    eapply reachable_step.
    + eapply reachable_step; [exact Hs|].
      eapply step_dequeue with (w := 0%nat); [exact Hidle|reflexivity].
    + match goal with
      | |- step ?s _ =>
          apply (step_complete s 0%nat
                   {| promise := List.length ready; input := x |} r)
      end.
      * cbn [workers_]. destruct workers; [discriminate|reflexivity].
      * exact Hr.
Qed.

(** Once every future is ready the collector can take them all. *)
Lemma collect_all (s0 : system) (rows : list task_result) :
  forall (taken : list task_result) (workers : list (option pool_task))
         (os : ostream),
    reachable s0 {| to_submit := []; tasks_ := []; workers_ := workers;
                    shared_states := map Some (taken ++ rows);
                    collected := List.length taken; out_file := os |} ->
    reachable s0 {| to_submit := []; tasks_ := []; workers_ := workers;
                    shared_states := map Some (taken ++ rows);
                    collected := List.length (taken ++ rows);
                    out_file := fold_left write_result_row rows os |}.
Proof.
  induction rows as [|r rows IH]; intros taken workers os Hs.
  - now rewrite app_nil_r in *.
  - replace (taken ++ r :: rows) with ((taken ++ [r]) ++ rows) in *
      by (now rewrite <- app_assoc).
    cbn [fold_left]. apply IH.
    replace (List.length (taken ++ [r])) with (S (List.length taken))
      by (rewrite length_app; cbn; lia).
    eapply reachable_step; [exact Hs|].
    match goal with
    | |- step ?s _ => apply (step_collect s r)
    end.
    + reflexivity.
    + cbn [shared_states collected]. rewrite <- app_assoc, map_app.
      rewrite nth_error_app2 by (rewrite length_map; lia).
      rewrite length_map, Nat.sub_diag. reflexivity.
Qed.

(** With at least one worker and tasks that return (a positive stride),
    a run can always be carried to its end: all rows written. *)
Lemma a_run_can_finish (inputs : list task_input_data) (num_threads : nat)
    (os0 : ostream) :
  (0 < num_threads)%nat ->
  Forall (fun t => 0 < coordinate_stride t) inputs ->
  exists s : system,
    reachable (initial_system inputs num_threads os0) s
    /\ collected s = List.length inputs
    /\ to_submit s = [] /\ tasks_ s = [].
Proof.
  intros Hn Hstride.
  destruct (collect_loop_rows inputs Hstride) as [rows [Hmap _]].
  assert (Hlen : List.length rows = List.length inputs).
  { rewrite <- (length_map Some rows), <- Hmap. apply length_map. }
  eexists. split.
  - apply (collect_all _ rows [] (repeat None num_threads) os0). cbn [app List.length].
    apply (work_all _ inputs rows (repeat None num_threads) [] 0%nat os0 Hmap).
    + destruct num_threads; [lia|reflexivity].
    + apply (enqueue_all _ inputs [] (repeat None num_threads) [] 0%nat os0).
      apply reachable_start.
  - cbn. repeat split. exact Hlen.
Qed.

End Progress.

Example out_of_order_run :
  @run_schedule corrupt_first_library out_of_order_schedule
    (initial_system [task_a; task_b] 2 fresh_stream)
  = Some out_of_order_final.
Proof. lazy. reflexivity. Qed.

(** A different schedule on a single worker writes the same file. *)
Example in_order_run_writes_the_same :
  option_map out_file
    (@run_schedule corrupt_first_library in_order_schedule
       (initial_system [task_a; task_b] 1 fresh_stream))
  = Some (out_file out_of_order_final).
Proof. lazy. reflexivity. Qed.

(** Collecting is not possible while the next future is not ready, even if a
    later one is. *)
Example collector_waits_for_the_first_future :
  @run_schedule corrupt_first_library
    [Enqueue; Enqueue; Dequeue 0; Dequeue 1; Complete 1; Collect]
    (initial_system [task_a; task_b] 2 fresh_stream)
  = None.
Proof. lazy. reflexivity. Qed.

Lemma rows_follow_submission_order_witness :
  (exists rows : list task_result,
      map (@process_single_feature_task)
          (firstn (collected out_of_order_final) [task_a; task_b])
      = map Some rows
      /\ out_file out_of_order_final
         = fold_left (@write_result_row corrupt_first_library) rows fresh_stream)
  /\ (collected out_of_order_final = List.length [task_a; task_b] ->
      @collect_loop corrupt_first_library [task_a; task_b] fresh_stream 0
      = Some (out_file out_of_order_final,
              Z.of_nat (List.length [task_a; task_b]))).
Proof.
  apply (@rows_follow_submission_order corrupt_first_library [task_a; task_b]
           2%nat fresh_stream out_of_order_final).
  eapply (@run_schedule_reachable corrupt_first_library out_of_order_schedule);
    [apply reachable_start|].
  lazy. reflexivity.
Defined.

(** * Further properties of the code *)

(** ** bounding_box: what a box built by updates holds *)

Lemma update_all_snoc (bb : bounding_box) (pts : list (R * R)) (p : R * R) :
  update_all bb (pts ++ [p]) = update (update_all bb pts) (fst p) (snd p).
Proof. rewrite update_all_app. reflexivity. Qed.

Lemma update_all_min_upper (bb : bounding_box) (pts : list (R * R)) :
  (min_x (update_all bb pts) <= min_x bb
   /\ min_y (update_all bb pts) <= min_y bb)%R.
Proof.
  revert bb. induction pts as [|p pts IH]; intros bb; [cbn; lra|].
  rewrite update_all_cons.
  destruct (IH (update bb (fst p) (snd p))) as [Hx Hy].
  pose proof (std_min_l (min_x bb) (fst p)).
  pose proof (std_min_l (min_y bb) (snd p)).
  cbn [update min_x min_y] in *. lra.
Qed.

Lemma update_all_includes (bb : bounding_box) (pts : list (R * R))
    (p : R * R) :
  In p pts -> includes (update_all bb pts) (fst p) (snd p).
Proof.
  revert bb. induction pts as [|q pts IH]; intros bb Hin; [destruct Hin|].
  rewrite update_all_cons. destruct Hin as [->|Hin]; [|now apply IH].
  destruct (update_all_min_upper (update bb (fst p) (snd p)) pts) as [Hx Hy].
  destruct (update_all_max_lower (update bb (fst p) (snd p)) pts) as [Hx' Hy'].
  pose proof (std_min_r (min_x bb) (fst p)).
  pose proof (std_min_r (min_y bb) (snd p)).
  pose proof (std_max_r (max_x bb) (fst p)).
  pose proof (std_max_r (max_y bb) (snd p)).
  unfold includes. cbn [update min_x min_y max_x max_y] in *. lra.
Qed.

(** Each bound of the result is the bound the box started with or a
    coordinate of one of the points. *)
Lemma update_all_bounds_attained (bb : bounding_box) (pts : list (R * R)) :
  (min_x (update_all bb pts) = min_x bb
   \/ exists p, In p pts /\ min_x (update_all bb pts) = fst p)
  /\ (min_y (update_all bb pts) = min_y bb
      \/ exists p, In p pts /\ min_y (update_all bb pts) = snd p)
  /\ (max_x (update_all bb pts) = max_x bb
      \/ exists p, In p pts /\ max_x (update_all bb pts) = fst p)
  /\ (max_y (update_all bb pts) = max_y bb
      \/ exists p, In p pts /\ max_y (update_all bb pts) = snd p).
Proof.
  revert bb. induction pts as [|q pts IH]; intros bb.
  - cbn. tauto.
  - rewrite update_all_cons.
    destruct (IH (update bb (fst q) (snd q))) as [H1 [H2 [H3 H4]]].
    assert (Hlift : forall (f : R * R -> R) (v : R),
               (exists p, In p pts /\ v = f p) ->
               exists p, In p (q :: pts) /\ v = f p).
    { intros f v [p [Hp Hv]]. exists p. split; [now right|exact Hv]. }
    cbn [update min_x min_y max_x max_y] in H1, H2, H3, H4.
    repeat split.
    + destruct H1 as [H1|H1]; [|right; now apply Hlift].
      rewrite H1. unfold std_min. destruct (Rlt_dec (fst q) (min_x bb));
        [right; exists q; split; [now left|reflexivity]|now left].
    + destruct H2 as [H2|H2]; [|right; now apply Hlift].
      rewrite H2. unfold std_min. destruct (Rlt_dec (snd q) (min_y bb));
        [right; exists q; split; [now left|reflexivity]|now left].
    + destruct H3 as [H3|H3]; [|right; now apply Hlift].
      rewrite H3. unfold std_max. destruct (Rlt_dec (max_x bb) (fst q));
        [right; exists q; split; [now left|reflexivity]|now left].
    + destruct H4 as [H4|H4]; [|right; now apply Hlift].
      rewrite H4. unfold std_max. destruct (Rlt_dec (max_y bb) (snd q));
        [right; exists q; split; [now left|reflexivity]|now left].
Qed.

(** *** Every double as a coordinate *)

(** On finite coordinates [update] over all doubles is [update] over the
    reals. *)
Lemma update_d_of_reals (bb : bounding_box) (x y : R) :
  update_d (box_of_reals bb) (finite x) (finite y)
  = box_of_reals (update bb x y).
Proof.
  unfold update_d, update, box_of_reals, std_min_d, std_max_d, std_min,
    std_max, double_lt.
  cbn [min_x_d min_y_d max_x_d max_y_d min_x min_y max_x max_y is_valid].
  repeat match goal with
         | |- context [Rlt_dec ?a ?b] => destruct (Rlt_dec a b)
         end; reflexivity.
Qed.

Lemma update_all_d_of_reals (pts : list (R * R)) :
  forall bb : bounding_box,
    update_all_d (box_of_reals bb) (map point_of_reals pts)
    = box_of_reals (update_all bb pts).
Proof.
  induction pts as [|p pts IH]; intros bb; [reflexivity|].
  unfold update_all_d, update_all in *. cbn [map fold_left].
  change (update_d (box_of_reals bb) (fst (point_of_reals p))
                   (snd (point_of_reals p)))
    with (update_d (box_of_reals bb) (finite (fst p)) (finite (snd p))).
  rewrite update_d_of_reals. apply IH.
Qed.

(** Decides the comparisons between the doubles of the goal. *)
Ltac compare_doubles :=
  unfold std_min_d, std_max_d, double_lt, double_le in *;
  repeat match goal with
         | d : double |- _ => destruct d
         end;
  repeat match goal with
         | |- context [Rlt_dec ?a ?b] => destruct (Rlt_dec a b)
         | H : context [Rlt_dec ?a ?b] |- _ => destruct (Rlt_dec a b)
         end;
  cbn in *; try tauto; try lra; try congruence.

Lemma double_le_trans (a b c : double) :
  double_le a b -> double_le b c -> double_le a c.
Proof. intros Hab Hbc. compare_doubles. Qed.

Lemma std_min_d_lower (m z : double) :
  m <> NaN -> double_le (std_min_d m z) m.
Proof. intros Hm. compare_doubles. Qed.

Lemma std_max_d_upper (m z : double) :
  m <> NaN -> double_le m (std_max_d m z).
Proof. intros Hm. compare_doubles. Qed.

Lemma std_min_d_takes (m z : double) :
  m <> NaN -> z <> NaN -> double_le (std_min_d m z) z.
Proof. intros Hm Hz. compare_doubles. Qed.

Lemma std_max_d_takes (m z : double) :
  m <> NaN -> z <> NaN -> double_le z (std_max_d m z).
Proof. intros Hm Hz. compare_doubles. Qed.

Lemma std_min_d_number (m z : double) : m <> NaN -> std_min_d m z <> NaN.
Proof. intros Hm. compare_doubles. Qed.

Lemma std_max_d_number (m z : double) : m <> NaN -> std_max_d m z <> NaN.
Proof. intros Hm. compare_doubles. Qed.

Lemma std_min_d_skips_NaN (m : double) : std_min_d m NaN = m.
Proof. compare_doubles. Qed.

Lemma std_max_d_skips_NaN (m : double) : std_max_d m NaN = m.
Proof. compare_doubles. Qed.

(** The four bounds of a box after a sequence of updates, axis by axis. *)
Lemma update_all_d_bounds (pts : list (double * double)) :
  forall bb : bounding_box_d,
    min_x_d (update_all_d bb pts)
    = fold_left std_min_d (map fst pts) (min_x_d bb)
    /\ max_x_d (update_all_d bb pts)
       = fold_left std_max_d (map fst pts) (max_x_d bb)
    /\ min_y_d (update_all_d bb pts)
       = fold_left std_min_d (map snd pts) (min_y_d bb)
    /\ max_y_d (update_all_d bb pts)
       = fold_left std_max_d (map snd pts) (max_y_d bb).
Proof.
  induction pts as [|p pts IH]; intros bb; [now repeat split|].
  unfold update_all_d in *. cbn [fold_left map].
  destruct (IH (update_d bb (fst p) (snd p))) as [H1 [H2 [H3 H4]]].
  rewrite H1, H2, H3, H4. now repeat split.
Qed.

Lemma valid_after_updates (pts : list (double * double)) :
  forall bb : bounding_box_d,
    is_valid_d (update_all_d bb pts)
    = match pts with
      | [] => is_valid_d bb
      | _ => true
      end.
Proof.
  induction pts as [|p pts IH]; intros bb; [reflexivity|].
  unfold update_all_d in *. cbn [fold_left].
  rewrite IH. now destruct pts.
Qed.

(** A running minimum: it stays a number, it is below where it started and
    below every number it has met; it does not move on NaN. *)
Lemma running_min (zs : list double) :
  forall m : double,
    m <> NaN ->
    fold_left std_min_d zs m <> NaN
    /\ double_le (fold_left std_min_d zs m) m
    /\ (forall v, In v zs -> v <> NaN ->
                  double_le (fold_left std_min_d zs m) v).
Proof.
  induction zs as [|z zs IH]; intros m Hm; cbn [fold_left].
  - split; [exact Hm|]. split; [compare_doubles|intros v []].
  - destruct (IH (std_min_d m z) (std_min_d_number m z Hm))
      as [Hnum [Hlow Hall]].
    split; [exact Hnum|]. split.
    + eapply double_le_trans; [exact Hlow|now apply std_min_d_lower].
    + intros v [<-|Hin] Hv; [|now apply Hall].
      eapply double_le_trans; [exact Hlow|now apply std_min_d_takes].
Qed.

Lemma running_max (zs : list double) :
  forall m : double,
    m <> NaN ->
    fold_left std_max_d zs m <> NaN
    /\ double_le m (fold_left std_max_d zs m)
    /\ (forall v, In v zs -> v <> NaN ->
                  double_le v (fold_left std_max_d zs m)).
Proof.
  induction zs as [|z zs IH]; intros m Hm; cbn [fold_left].
  - split; [exact Hm|]. split; [compare_doubles|intros v []].
  - destruct (IH (std_max_d m z) (std_max_d_number m z Hm))
      as [Hnum [Hup Hall]].
    split; [exact Hnum|]. split.
    + apply double_le_trans with (std_max_d m z);
        [now apply std_max_d_upper|exact Hup].
    + intros v [<-|Hin] Hv; [|now apply Hall].
      apply double_le_trans with (std_max_d m z);
        [now apply std_max_d_takes|exact Hup].
Qed.

Lemma running_min_of_NaNs (zs : list double) (m : double) :
  (forall z, In z zs -> z = NaN) -> fold_left std_min_d zs m = m.
Proof.
  revert m. induction zs as [|z zs IH]; intros m Hall; [reflexivity|].
  cbn [fold_left]. rewrite (Hall z (or_introl eq_refl)), std_min_d_skips_NaN.
  apply IH. intros z' Hz'. apply Hall. now right.
Qed.

Lemma running_max_of_NaNs (zs : list double) (m : double) :
  (forall z, In z zs -> z = NaN) -> fold_left std_max_d zs m = m.
Proof.
  revert m. induction zs as [|z zs IH]; intros m Hall; [reflexivity|].
  cbn [fold_left]. rewrite (Hall z (or_introl eq_refl)), std_max_d_skips_NaN.
  apply IH. intros z' Hz'. apply Hall. now right.
Qed.

Lemma a_number_or_all_NaN (zs : list double) :
  (exists z, In z zs /\ z <> NaN) \/ (forall z, In z zs -> z = NaN).
Proof.
  induction zs as [|z zs [[v [Hin Hv]]|Hall]].
  - right. intros z [].
  - left. exists v. split; [now right|exact Hv].
  - destruct z as [r| | |];
      try (left; eexists; split; [now left|discriminate]).
    right. intros z [<-|Hz]; [reflexivity|now apply Hall].
Qed.

(** From the minimum to the maximum of one axis of a box built from the
    default box: in order exactly when one of the coordinates is a
    number. *)
Lemma axis_in_order (zs : list double) :
  double_le (fold_left std_min_d zs (finite DBL_MAX))
            (fold_left std_max_d zs (finite 0))
  <-> exists z, In z zs /\ z <> NaN.
Proof.
  split.
  - intros Hle. destruct (a_number_or_all_NaN zs) as [Hex|Hall];
      [exact Hex|].
    rewrite (running_min_of_NaNs zs _ Hall),
            (running_max_of_NaNs zs _ Hall) in Hle.
    cbn in Hle. pose proof DBL_MAX_large. lra.
  - intros [v [Hin Hv]].
    destruct (running_min zs (finite DBL_MAX)) as [_ [_ Hmin]];
      [discriminate|].
    destruct (running_max zs (finite 0)) as [_ [_ Hmax]]; [discriminate|].
    apply double_le_trans with v; [now apply Hmin|now apply Hmax].
Qed.

(** X1. Every point whose coordinates are numbers (not NaN) that is handed
    to [update] lies inside the resulting box, and stays inside whatever is
    applied before or afterwards, NaN and infinities included, to the box,
    which starts as the constructor makes it.  A point with a NaN
    coordinate lies inside no box. *)
Theorem updated_box_includes_every_point
    (before after : list (double * double)) (x y : double) :
  (x <> NaN -> y <> NaN ->
   includes_d
     (update_all_d (update_d (update_all_d bounding_box_default_d before) x y)
                   after)
     x y)
  /\ (x = NaN \/ y = NaN ->
      forall bb : bounding_box_d, ~ includes_d bb x y).
Proof.
  split.
  - intros Hx Hy.
    assert (Hall : update_all_d
                     (update_d (update_all_d bounding_box_default_d before)
                               x y) after
                   = update_all_d bounding_box_default_d
                       (before ++ (x, y) :: after)).
    { unfold update_all_d. rewrite fold_left_app. reflexivity. }
    rewrite Hall.
    destruct (update_all_d_bounds (before ++ (x, y) :: after)
                bounding_box_default_d) as [H1 [H2 [H3 H4]]].
    unfold includes_d. rewrite H1, H2, H3, H4.
    cbn [bounding_box_default_d min_x_d min_y_d max_x_d max_y_d].
    assert (Hinx : In x (map fst (before ++ (x, y) :: after))).
    { apply in_map_iff. exists (x, y). split; [reflexivity|].
      apply in_or_app. right. now left. }
    assert (Hiny : In y (map snd (before ++ (x, y) :: after))).
    { apply in_map_iff. exists (x, y). split; [reflexivity|].
      apply in_or_app. right. now left. }
    repeat split.
    + now apply running_min; [discriminate| |].
    + now apply running_max; [discriminate| |].
    + now apply running_min; [discriminate| |].
    + now apply running_max; [discriminate| |].
  - intros Hnan bb [[H1 H2] [H3 H4]].
    destruct Hnan as [-> | ->].
    + destruct (min_x_d bb); exact H1.
    + destruct (min_y_d bb); exact H3.
Qed.

Lemma updated_box_includes_every_point_witness :
  includes_d
    (update_all_d
       (update_d (update_all_d bounding_box_default_d [(NaN, finite 2)])
                 (finite 3) minus_infinity)
       [(plus_infinity, NaN)])
    (finite 3) minus_infinity.
Proof.
  apply (proj1 (updated_box_includes_every_point [(NaN, finite 2)]
                  [(plus_infinity, NaN)] (finite 3) minus_infinity));
    discriminate.
Defined.

(** X2. A box built by the constructor and [update] calls is valid exactly
    when at least one point was applied.  On each axis its minimum is below
    its maximum exactly when one of the points applied has a number (not
    NaN) as its coordinate on that axis: points that are all NaN leave a
    valid box with the minima at the largest double and the maxima at 0. *)
Theorem built_box_validity (pts : list (double * double)) :
  (is_valid_d (update_all_d bounding_box_default_d pts) = true <-> pts <> [])
  /\ (double_le (min_x_d (update_all_d bounding_box_default_d pts))
                (max_x_d (update_all_d bounding_box_default_d pts))
      <-> exists p, In p pts /\ fst p <> NaN)
  /\ (double_le (min_y_d (update_all_d bounding_box_default_d pts))
                (max_y_d (update_all_d bounding_box_default_d pts))
      <-> exists p, In p pts /\ snd p <> NaN)
  /\ ((forall p, In p pts -> fst p = NaN /\ snd p = NaN) ->
      update_all_d bounding_box_default_d pts
      = {| min_x_d := finite DBL_MAX; min_y_d := finite DBL_MAX;
           max_x_d := finite 0; max_y_d := finite 0;
           is_valid_d := match pts with [] => false | _ => true end |}).
Proof.
  destruct (update_all_d_bounds pts bounding_box_default_d)
    as [H1 [H2 [H3 H4]]].
  pose proof (valid_after_updates pts bounding_box_default_d) as Hvalid.
  cbn [bounding_box_default_d min_x_d min_y_d max_x_d max_y_d is_valid_d]
    in H1, H2, H3, H4, Hvalid.
  split; [|split; [|split]].
  - rewrite Hvalid. destruct pts; split; congruence.
  - rewrite H1, H2, axis_in_order. split.
    + intros [z [Hin Hz]]. apply in_map_iff in Hin.
      destruct Hin as [p [<- Hp]]. now exists p.
    + intros [p [Hp Hz]]. exists (fst p). split; [now apply in_map|exact Hz].
  - rewrite H3, H4, axis_in_order. split.
    + intros [z [Hin Hz]]. apply in_map_iff in Hin.
      destruct Hin as [p [<- Hp]]. now exists p.
    + intros [p [Hp Hz]]. exists (snd p). split; [now apply in_map|exact Hz].
  - intros Hall.
    assert (Hxs : forall z, In z (map fst pts) -> z = NaN).
    { intros z Hz. apply in_map_iff in Hz. destruct Hz as [p [<- Hp]].
      now apply Hall. }
    assert (Hys : forall z, In z (map snd pts) -> z = NaN).
    { intros z Hz. apply in_map_iff in Hz. destruct Hz as [p [<- Hp]].
      now apply Hall. }
    rewrite (running_min_of_NaNs _ _ Hxs) in H1.
    rewrite (running_max_of_NaNs _ _ Hxs) in H2.
    rewrite (running_min_of_NaNs _ _ Hys) in H3.
    rewrite (running_max_of_NaNs _ _ Hys) in H4.
    destruct (update_all_d bounding_box_default_d pts).
    cbn [min_x_d min_y_d max_x_d max_y_d is_valid_d] in *.
    now subst.
Qed.

Lemma built_box_validity_witness :
  update_all_d bounding_box_default_d [(NaN, NaN)]
  = {| min_x_d := finite DBL_MAX; min_y_d := finite DBL_MAX;
       max_x_d := finite 0; max_y_d := finite 0; is_valid_d := true |}.
Proof.
  apply (proj2 (proj2 (proj2 (built_box_validity [(NaN, NaN)])))).
  intros p [<-|[]]. now split.
Defined.

(** X3. For a non-empty list of points with coordinates that a [double] can
    hold (at most [DBL_MAX]), the minima of the box built from them are
    coordinates of points of the list, hence the exact minima; each maximum
    is a coordinate of a point of the list or the initial 0, hence the
    exact maximum as soon as one coordinate on that axis is not negative. *)
Theorem built_box_extremes (pts : list (R * R)) :
  pts <> [] ->
  (forall p, In p pts -> (fst p <= DBL_MAX /\ snd p <= DBL_MAX)%R) ->
  let box := update_all bounding_box_default pts in
  (exists p, In p pts /\ min_x box = fst p)
  /\ (exists p, In p pts /\ min_y box = snd p)
  /\ (max_x box = 0%R \/ exists p, In p pts /\ max_x box = fst p)
  /\ (max_y box = 0%R \/ exists p, In p pts /\ max_y box = snd p)
  /\ ((exists p, In p pts /\ (0 <= fst p)%R) ->
      exists p, In p pts /\ max_x box = fst p)
  /\ ((exists p, In p pts /\ (0 <= snd p)%R) ->
      exists p, In p pts /\ max_y box = snd p).
Proof.
  intros Hne Hrange box.
  destruct (update_all_bounds_attained bounding_box_default pts)
    as [H1 [H2 [H3 H4]]].
  fold box in H1, H2, H3, H4. cbn [bounding_box_default min_x min_y max_x max_y]
    in H1, H2, H3, H4.
  destruct pts as [|q rest]; [congruence|].
  destruct (update_all_includes bounding_box_default (q :: rest) q)
    as [[Hq1 Hq2] [Hq3 Hq4]]; [now left|]. fold box in Hq1, Hq2, Hq3, Hq4.
  destruct (Hrange q (or_introl eq_refl)) as [Hqx Hqy].
  repeat split.
  - destruct H1 as [H1|H1]; [|exact H1].
    exists q. split; [now left|lra].
  - destruct H2 as [H2|H2]; [|exact H2].
    exists q. split; [now left|lra].
  - exact H3.
  - exact H4.
  - intros [p [Hp Hpos]]. destruct H3 as [H3|H3]; [|exact H3].
    destruct (update_all_includes bounding_box_default (q :: rest) p Hp)
      as [[_ Hmax] _]. fold box in Hmax.
    exists p. split; [exact Hp|lra].
  - intros [p [Hp Hpos]]. destruct H4 as [H4|H4]; [|exact H4].
    destruct (update_all_includes bounding_box_default (q :: rest) p Hp)
      as [_ [_ Hmax]]. fold box in Hmax.
    exists p. split; [exact Hp|lra].
Qed.

Lemma built_box_extremes_witness :
  let box := update_all bounding_box_default [(-5, 2); (3, -7)]%R in
  (exists p, In p [(-5, 2); (3, -7)]%R /\ min_x box = fst p)
  /\ (exists p, In p [(-5, 2); (3, -7)]%R /\ min_y box = snd p)
  /\ (max_x box = 0%R \/ exists p, In p [(-5, 2); (3, -7)]%R /\ max_x box = fst p)
  /\ (max_y box = 0%R \/ exists p, In p [(-5, 2); (3, -7)]%R /\ max_y box = snd p)
  /\ ((exists p, In p [(-5, 2); (3, -7)]%R /\ (0 <= fst p)%R) ->
      exists p, In p [(-5, 2); (3, -7)]%R /\ max_x box = fst p)
  /\ ((exists p, In p [(-5, 2); (3, -7)]%R /\ (0 <= snd p)%R) ->
      exists p, In p [(-5, 2); (3, -7)]%R /\ max_y box = snd p).
Proof.
  apply (built_box_extremes [(-5, 2); (3, -7)]%R).
  - discriminate.
  - pose proof DBL_MAX_large.
    intros p [<-|[<-|[]]]; cbn [fst snd]; lra.
Defined.

(** ** geometry_processor: which coordinates are scanned *)

Lemma point_count_spec (n stride j : nat) :
  (0 < stride)%nat ->
  (j * stride + 1 < n)%nat <-> (j < point_count n stride)%nat.
Proof.
  intros Hs. unfold point_count.
  destruct (n <=? 1)%nat eqn:E.
  - apply Nat.leb_le in E. lia.
  - apply Nat.leb_gt in E. split; intros Hj.
    + apply Nat.lt_succ_r. apply Nat.div_le_lower_bound; lia.
    + apply Nat.lt_succ_r in Hj.
      pose proof (Nat.Div0.mul_div_le (n - 2) stride) as Hd.
      assert (j * stride <= stride * ((n - 2) / stride))%nat by nia.
      lia.
Qed.

Lemma coordinates_loop_points (coords : list R) (stride : nat) :
  (0 < stride)%nat ->
  forall (fuel j : nat) (bb : bounding_box),
    (List.length coords <= fuel + j * stride)%nat ->
    coordinates_loop fuel coords stride (j * stride) bb
    = Some (update_all bb
              (map (fun k => (nth (k * stride) coords 0%R,
                              nth (k * stride + 1) coords 0%R))
                   (seq j (point_count (List.length coords) stride - j)))).
Proof.
  intros Hs. induction fuel as [|fuel IH]; intros j bb Hf;
    cbn [coordinates_loop].
  - destruct (j * stride + 1 <? List.length coords)%nat eqn:E.
    + apply Nat.ltb_lt in E. lia.
    + apply Nat.ltb_ge in E.
      assert (Hc : ~ (j < point_count (List.length coords) stride)%nat)
        by (rewrite <- point_count_spec by exact Hs; lia).
      replace (point_count (List.length coords) stride - j)%nat with 0%nat
        by lia.
      reflexivity.
  - destruct (j * stride + 1 <? List.length coords)%nat eqn:E.
    + apply Nat.ltb_lt in E.
      assert (Hc : (j < point_count (List.length coords) stride)%nat)
        by (apply point_count_spec; assumption).
      replace (j * stride + stride)%nat with (S j * stride)%nat by lia.
      rewrite IH by lia.
      replace (point_count (List.length coords) stride - j)%nat
        with (S (point_count (List.length coords) stride - S j)) by lia.
      reflexivity.
    + apply Nat.ltb_ge in E.
      assert (Hc : ~ (j < point_count (List.length coords) stride)%nat)
        by (rewrite <- point_count_spec by exact Hs; lia).
      replace (point_count (List.length coords) stride - j)%nat with 0%nat
        by lia.
      reflexivity.
Qed.

Lemma update_bbox_from_coordinates_points (bb : bounding_box) (g : Geometry)
    (stride : nat) :
  (0 < stride)%nat ->
  update_bbox_from_coordinates bb g stride
  = Some (update_all bb (ring_points stride g)).
Proof.
  intros Hs. unfold update_bbox_from_coordinates, ring_points.
  destruct (xy g) as [coords|]; [|reflexivity].
  destruct (List.length coords =? 0)%nat eqn:E.
  - apply Nat.eqb_eq in E. unfold strided_points. rewrite E. reflexivity.
  - rewrite (coordinates_loop_points coords stride Hs _ 0%nat bb) by lia.
    unfold strided_points. now rewrite Nat.sub_0_r.
Qed.

(** X4. With a positive stride the coordinate scan of a ring applies
    [update] to the first two components of every stride-sized group, in
    order, and to nothing else: further components of a group are ignored,
    a trailing lone component is not paired, and every index it reads lies
    inside the array. *)
Theorem coordinate_scan_visits_strided_pairs (bb : bounding_box)
    (coords : list R) (stride : nat) :
  (0 < stride)%nat ->
  update_bbox_from_coordinates bb (mkGeometry (Some coords) None LineString)
                               stride
  = Some (update_all bb (strided_points coords stride))
  /\ List.length (strided_points coords stride)
     = point_count (List.length coords) stride
  /\ (forall k, (k < point_count (List.length coords) stride)%nat ->
                (k * stride + 1 < List.length coords)%nat
                /\ nth_error (strided_points coords stride) k
                   = Some (nth (k * stride) coords 0%R,
                           nth (k * stride + 1) coords 0%R)).
Proof.
  intros Hs. split; [|split].
  - rewrite update_bbox_from_coordinates_points by exact Hs. reflexivity.
  - unfold strided_points. now rewrite length_map, length_seq.
  - intros k Hk. split; [now apply point_count_spec|].
    unfold strided_points.
    rewrite nth_error_map, nth_error_seq.
    apply Nat.ltb_lt in Hk. rewrite Hk. reflexivity.
Qed.

Lemma coordinate_scan_visits_strided_pairs_witness :
  update_bbox_from_coordinates bounding_box_default
    (mkGeometry (Some [1; 2; 9; 3; 4; 9; 5]%R) None LineString) 3
  = Some (update_all bounding_box_default
            (strided_points [1; 2; 9; 3; 4; 9; 5]%R 3))
  /\ List.length (strided_points [1; 2; 9; 3; 4; 9; 5]%R 3)
     = point_count (List.length [1; 2; 9; 3; 4; 9; 5]%R) 3
  /\ (forall k, (k < point_count (List.length [1; 2; 9; 3; 4; 9; 5]%R) 3)%nat ->
                (k * 3 + 1 < List.length [1; 2; 9; 3; 4; 9; 5]%R)%nat
                /\ nth_error (strided_points [1; 2; 9; 3; 4; 9; 5]%R 3) k
                   = Some (nth (k * 3) [1; 2; 9; 3; 4; 9; 5]%R 0%R,
                           nth (k * 3 + 1) [1; 2; 9; 3; 4; 9; 5]%R 0%R)).
Proof.
  apply (coordinate_scan_visits_strided_pairs bounding_box_default
           [1; 2; 9; 3; 4; 9; 5]%R 3).
  lia.
Defined.

(** With XYZ coordinates and a lone trailing component the scan sees the
    two complete points only. *)
Example strided_points_xyz :
  strided_points [1; 2; 9; 3; 4; 9; 5]%R 3 = [(1, 2); (3, 4)]%R.
Proof. reflexivity. Qed.

Lemma for_each_points {A : Type}
    (body : bounding_box -> A -> option bounding_box)
    (points : A -> list (R * R)) (items : list A) :
  (forall bb x, body bb x = Some (update_all bb (points x))) ->
  forall bb,
    for_each body items bb = Some (update_all bb (flat_map points items)).
Proof.
  intros Hbody. induction items as [|x items IH]; intros bb;
    cbn [for_each flat_map].
  - reflexivity.
  - rewrite Hbody, IH, update_all_app. reflexivity.
Qed.

Lemma process_single_polygon_points (bb : bounding_box) (pg : Geometry)
    (stride : nat) :
  (0 < stride)%nat ->
  process_single_polygon_for_bbox bb (Some pg) stride
  = Some (update_all bb (polygon_points stride pg)).
Proof.
  intros Hs. unfold process_single_polygon_for_bbox, polygon_points.
  destruct (parts pg) as [rings|].
  - apply for_each_points. intros b ring.
    now apply update_bbox_from_coordinates_points.
  - destruct (xy pg) as [coords|] eqn:Exy.
    + destruct (0 <? List.length coords)%nat eqn:E.
      * now apply update_bbox_from_coordinates_points.
      * apply Nat.ltb_ge in E. unfold ring_points. rewrite Exy.
        destruct coords; [reflexivity|cbn in E; lia].
    + unfold ring_points. now rewrite Exy.
Qed.

(** X5. With a positive stride [calculate_for_geometry] returns the default
    box updated with the points of the geometry in scan order: for a Polygon
    the points of its rings (or its own when it has no ring parts), for a
    MultiPolygon the points of its polygon parts, each handled as a Polygon,
    and nothing nested deeper; for any other type the geometry's own
    coordinates.  The box is valid exactly when there is such a point.
    Without a geometry the box is the invalid default box. *)
Theorem calculate_for_geometry_points (g : Geometry) (stride : nat)
    (ty : GeometryType) :
  (0 < stride)%nat ->
  calculate_for_geometry (Some g) stride ty
  = Some (update_all bounding_box_default (geometry_points stride ty g))
  /\ (is_valid (update_all bounding_box_default (geometry_points stride ty g))
      = true <-> geometry_points stride ty g <> [])
  /\ calculate_for_geometry None stride ty = Some bounding_box_default.
Proof.
  intros Hs. split; [|split].
  - unfold calculate_for_geometry, geometry_points.
    assert (Hown :
              match xy g with
              | Some coords =>
                  if (0 <? List.length coords)%nat
                  then update_bbox_from_coordinates bounding_box_default g stride
                  else Some bounding_box_default
              | None => Some bounding_box_default
              end
              = Some (update_all bounding_box_default (ring_points stride g))).
    { destruct (xy g) as [coords|] eqn:Exy.
      - destruct (0 <? List.length coords)%nat eqn:E.
        + now apply update_bbox_from_coordinates_points.
        + apply Nat.ltb_ge in E. unfold ring_points. rewrite Exy.
          destruct coords; [reflexivity|cbn in E; lia].
      - unfold ring_points. now rewrite Exy. }
    destruct ty; try exact Hown.
    + now apply process_single_polygon_points.
    + destruct (parts g) as [polygon_parts|]; [|reflexivity].
      apply for_each_points. intros b pg.
      now apply process_single_polygon_points.
  - split.
    + intros Hv E. rewrite E in Hv. discriminate Hv.
    + apply update_all_valid.
  - reflexivity.
Qed.

Lemma calculate_for_geometry_points_witness :
  calculate_for_geometry (Some negative_multipolygon) 2 MultiPolygon
  = Some (update_all bounding_box_default
            (geometry_points 2 MultiPolygon negative_multipolygon))
  /\ (is_valid (update_all bounding_box_default
                  (geometry_points 2 MultiPolygon negative_multipolygon))
      = true <-> geometry_points 2 MultiPolygon negative_multipolygon <> [])
  /\ calculate_for_geometry None 2 MultiPolygon = Some bounding_box_default.
Proof.
  apply (calculate_for_geometry_points negative_multipolygon 2 MultiPolygon).
  lia.
Defined.

(** A polygon nested inside a ring of a polygon of a MultiPolygon is not
    scanned: only two levels of parts are followed. *)
Example third_level_is_ignored :
  geometry_points 2 MultiPolygon
    (mkGeometry None
       (Some [polygon_of [mkGeometry (Some [1; 1; 2; 2]%R)
                                     (Some [ring [50; 50; 60; 60]%R])
                                     Polygon]])
       MultiPolygon)
  = [(1, 1); (2, 2)]%R.
Proof. reflexivity. Qed.

(** ** types.hpp: county codes *)

(** X6. A county code survives the trip through its text: building a code
    from [to_string] of a code gives the code back.  The text of a code is
    empty (both characters blank) or two characters long; a string of two or
    more characters whose first two are not both blank gives exactly those
    two, a single non-blank character is padded with a blank; and
    [operator==] holds exactly for equal codes, [operator!=] for the
    others. *)
Theorem county_code_text_round_trip :
  (forall c : county_code, county_code_of_string (county_to_string c) = c)
  /\ (forall s : string,
         county_to_string (county_code_of_string s) = EmptyString
         \/ String.length (county_to_string (county_code_of_string s)) = 2%nat)
  /\ (forall (c0 c1 : ascii) (rest : string),
         c0 <> space \/ c1 <> space ->
         county_to_string (county_code_of_string (String c0 (String c1 rest)))
         = String c0 (String c1 EmptyString))
  /\ (forall c0 : ascii,
         c0 <> space ->
         county_to_string (county_code_of_string (String c0 EmptyString))
         = String c0 (String space EmptyString))
  /\ (forall a b : county_code,
         (county_eqb a b = true <-> a = b)
         /\ (county_neqb a b = true <-> a <> b)).
Proof.
  assert (Hnot : forall c0 c1, c0 <> space \/ c1 <> space ->
                   Ascii.eqb c0 space && Ascii.eqb c1 space = false).
  { intros c0 c1 [H|H]; apply andb_false_iff; [left|right];
      now apply Ascii.eqb_neq. }
  assert (Heq : forall a b, county_eqb a b = true <-> a = b).
  { intros [a0 a1] [b0 b1]. unfold county_eqb. cbn [code0 code1].
    rewrite andb_true_iff, !Ascii.eqb_eq. split.
    - intros [-> ->]. reflexivity.
    - intros E. injection E as -> ->. now split. }
  split; [|split; [|split; [|split]]].
  - intros [c0 c1]. unfold county_to_string, county_is_empty. cbn [code0 code1].
    destruct (Ascii.eqb c0 space) eqn:E0; destruct (Ascii.eqb c1 space) eqn:E1;
      cbn [andb county_code_of_string]; try reflexivity.
    apply Ascii.eqb_eq in E0, E1. subst. reflexivity.
  - intros s. unfold county_to_string.
    destruct (county_is_empty (county_code_of_string s)); [now left|now right].
  - intros c0 c1 rest Hne. unfold county_to_string, county_is_empty.
    cbn [county_code_of_string code0 code1]. now rewrite (Hnot c0 c1 Hne).
  - intros c0 Hne. unfold county_to_string, county_is_empty.
    cbn [county_code_of_string code0 code1].
    now rewrite (Hnot c0 space (or_introl Hne)).
  - intros a b. split; [apply Heq|].
    unfold county_neqb. rewrite negb_true_iff, <- not_true_iff_false.
    now rewrite Heq.
Qed.

Lemma county_code_text_round_trip_witness :
  county_to_string (county_code_of_string "CJ-Cluj") = "CJ"%string
  /\ county_to_string (county_code_of_string "B") = "B "%string.
Proof.
  destruct county_code_text_round_trip as [_ [_ [Htwo [Hone _]]]].
  split.
  - apply (Htwo "C"%char "J"%char "-Cluj"%string). left. discriminate.
  - apply (Hone "B"%char). discriminate.
Defined.

(** ** The UAT code: trimming and parsing *)

Lemma drop_spaces_split (l : list ascii) :
  exists blanks,
    l = blanks ++ drop_spaces l /\ forallb isspace blanks = true.
Proof.
  induction l as [|c l [blanks [Hl Hb]]]; cbn [drop_spaces].
  - exists []. now split.
  - destruct (isspace c) eqn:E.
    + exists (c :: blanks). cbn. rewrite E, Hb. split; [now f_equal|reflexivity].
    + exists []. now split.
Qed.

Lemma drop_spaces_head (l : list ascii) (c : ascii) (rest : list ascii) :
  drop_spaces l = c :: rest -> isspace c = false.
Proof.
  induction l as [|d l IH]; cbn [drop_spaces]; [discriminate|].
  destruct (isspace d) eqn:E; [exact IH|].
  intros H. injection H as <- _. exact E.
Qed.

Lemma drop_spaces_fixed (l : list ascii) :
  (forall c rest, l = c :: rest -> isspace c = false) -> drop_spaces l = l.
Proof.
  destruct l as [|c l]; [reflexivity|]. intros H. cbn.
  now rewrite (H c l eq_refl).
Qed.

Lemma drop_spaces_keeps_last (l : list ascii) (c : ascii) :
  isspace c = false -> drop_spaces (l ++ [c]) = drop_spaces l ++ [c].
Proof.
  intros Hc. induction l as [|d l IH]; cbn.
  - now rewrite Hc.
  - destruct (isspace d); [exact IH|reflexivity].
Qed.

Lemma drop_spaces_all (l : list ascii) :
  forallb isspace l = true -> forall m, drop_spaces (l ++ m) = drop_spaces m.
Proof.
  induction l as [|c l IH]; intros Hl m; [reflexivity|].
  cbn in Hl. apply andb_prop in Hl. destruct Hl as [Hc Hl].
  cbn. rewrite Hc. now apply IH.
Qed.

Lemma trimmed_spec (l : list ascii) :
  exists before after,
    l = before ++ trimmed l ++ after
    /\ forallb isspace before = true
    /\ forallb isspace after = true
    /\ (forall c rest, trimmed l = c :: rest -> isspace c = false)
    /\ (forall c front, trimmed l = front ++ [c] -> isspace c = false).
Proof.
  unfold trimmed.
  destruct (drop_spaces_split l) as [before [Hl Hb]].
  destruct (drop_spaces_split (rev (drop_spaces l))) as [blanks [Hr Hbl]].
  exists before, (rev blanks).
  assert (Hmid : drop_spaces l
                 = rev (drop_spaces (rev (drop_spaces l))) ++ rev blanks).
  { rewrite <- rev_app_distr, <- Hr, rev_involutive. reflexivity. }
  split; [rewrite <- Hmid; exact Hl|].
  split; [exact Hb|].
  split; [rewrite forallb_forall in *; intros c Hc; apply Hbl;
          now apply in_rev|].
  split.
  - intros c rest Hhead.
    destruct (drop_spaces l) as [|d m] eqn:Ed.
    + cbn in Hhead. discriminate.
    + pose proof (drop_spaces_head l d m Ed) as Hd.
      cbn [rev] in Hhead. rewrite (drop_spaces_keeps_last _ _ Hd) in Hhead.
      rewrite rev_app_distr in Hhead. cbn in Hhead.
      injection Hhead as <- _. exact Hd.
  - intros c front Hlast.
    apply (f_equal (@rev ascii)) in Hlast.
    rewrite rev_involutive, rev_app_distr in Hlast. cbn in Hlast.
    eapply drop_spaces_head. exact Hlast.
Qed.

Lemma trimmed_fixed (l : list ascii) :
  (forall c rest, l = c :: rest -> isspace c = false) ->
  (forall c front, l = front ++ [c] -> isspace c = false) ->
  trimmed l = l.
Proof.
  intros Hhead Hlast. unfold trimmed.
  rewrite (drop_spaces_fixed l Hhead).
  rewrite drop_spaces_fixed; [apply rev_involutive|].
  intros c rest Hrev. apply (Hlast c (rev rest)).
  rewrite <- (rev_involutive l), Hrev. reflexivity.
Qed.

Lemma trim_chars (s : string) :
  list_ascii_of_string (trim s) = trimmed (list_ascii_of_string s).
Proof. unfold trim, trimmed. apply list_ascii_of_string_of_list_ascii. Qed.

(** X7. [trim] cuts off a run of whitespace at the front and one at the
    back and nothing else: the text is the blanks, the trimmed text and
    more blanks; the trimmed text neither starts nor ends with whitespace;
    and trimming again changes nothing. *)
Theorem trim_strips_outer_whitespace (s : string) :
  (exists before after : list ascii,
      list_ascii_of_string s
      = before ++ list_ascii_of_string (trim s) ++ after
      /\ forallb isspace before = true
      /\ forallb isspace after = true)
  /\ (forall c rest,
         list_ascii_of_string (trim s) = c :: rest -> isspace c = false)
  /\ (forall c front,
         list_ascii_of_string (trim s) = front ++ [c] -> isspace c = false)
  /\ trim (trim s) = trim s.
Proof.
  rewrite trim_chars.
  destruct (trimmed_spec (list_ascii_of_string s))
    as [before [after [Hs [Hb [Ha [Hhead Hlast]]]]]].
  split; [exists before, after; now repeat split|].
  split; [exact Hhead|]. split; [exact Hlast|].
  rewrite <- (string_of_list_ascii_of_string (trim (trim s))).
  rewrite <- (string_of_list_ascii_of_string (trim s)) at 2.
  f_equal. rewrite (trim_chars (trim s)), trim_chars.
  apply trimmed_fixed; assumption.
Qed.

Lemma leading_digits_all (l : list ascii) :
  forallb is_digit l = true -> leading_digits l = l.
Proof.
  induction l as [|c l IH]; intros Hl; [reflexivity|].
  cbn in Hl. apply andb_prop in Hl. destruct Hl as [Hc Hl].
  cbn. rewrite Hc. f_equal. now apply IH.
Qed.

Lemma leading_digits_length (l : list ascii) :
  (List.length (leading_digits l) <= List.length l)%nat
  /\ (List.length (leading_digits l) = List.length l ->
      forallb is_digit l = true).
Proof.
  induction l as [|c l [IHle IHeq]]; cbn; [split; [lia|reflexivity]|].
  destruct (is_digit c); cbn; split; try lia.
  intros E. apply IHeq. lia.
Qed.

Lemma length_list_ascii_of_string (s : string) :
  List.length (list_ascii_of_string s) = String.length s.
Proof. induction s as [|c s IH]; cbn; [reflexivity|now rewrite IH]. Qed.

Lemma decimal_digits_are_digits (d : Decimal.uint) :
  forallb is_digit (list_ascii_of_string (NilEmpty.string_of_uint d)) = true.
Proof. induction d; cbn; auto. Qed.

(** Evaluates the code of the digit character in the goal, then [lia]. *)
Ltac digit_arithmetic :=
  match goal with
  | |- context [nat_of_ascii ?c] =>
      let v := eval vm_compute in (Z.of_nat (nat_of_ascii c)) in
      change (Z.of_nat (nat_of_ascii c)) with v
  end; lia.

Lemma decimal_digits_value_acc (d : Decimal.uint) (acc : positive) :
  fold_left (fun a c => 10 * a + (Z.of_nat (nat_of_ascii c) - 48))
            (list_ascii_of_string (NilEmpty.string_of_uint d)) (Z.pos acc)
  = Z.pos (Pos.of_uint_acc d acc).
Proof.
  revert acc.
  induction d as [|d IH|d IH|d IH|d IH|d IH|d IH|d IH|d IH|d IH|d IH];
    intros acc; cbn [NilEmpty.string_of_uint list_ascii_of_string fold_left
                     Pos.of_uint_acc];
    [reflexivity|..];
    match goal with
    | |- fold_left _ _ ?a = Z.pos (Pos.of_uint_acc _ ?b) =>
        replace a with (Z.pos b) by digit_arithmetic
    end; apply IH.
Qed.

Lemma decimal_digits_value (d : Decimal.uint) :
  digits_value (list_ascii_of_string (NilEmpty.string_of_uint d))
  = Z.of_uint d.
Proof.
  unfold digits_value, Z.of_uint.
  induction d as [|d IH|d IH|d IH|d IH|d IH|d IH|d IH|d IH|d IH|d IH];
    cbn [NilEmpty.string_of_uint list_ascii_of_string fold_left Pos.of_uint];
    [reflexivity|exact IH|..];
    match goal with
    | |- fold_left _ _ ?a = Z.of_N (N.pos (Pos.of_uint_acc _ ?b)) =>
        replace a with (Z.pos b) by digit_arithmetic
    end; apply decimal_digits_value_acc.
Qed.

(** The decimal text of a number that is not negative: digits only, at
    least one, and their value is the number. *)
Lemma to_string_digits (v : Z) :
  0 <= v ->
  forallb is_digit (list_ascii_of_string (to_string v)) = true
  /\ list_ascii_of_string (to_string v) <> []
  /\ digits_value (list_ascii_of_string (to_string v)) = v.
Proof.
  intros Hv. unfold to_string.
  pose proof (DecimalZ.of_to v) as Hround.
  destruct v as [|p|p]; [| |lia].
  - cbn. repeat split. discriminate.
  - cbn [Z.to_int NilZero.string_of_int] in *.
    pose proof (DecimalPos.Unsigned.to_uint_nonnil p) as Hnn.
    assert (Hs : NilZero.string_of_uint (Pos.to_uint p)
                 = NilEmpty.string_of_uint (Pos.to_uint p))
      by (destruct (Pos.to_uint p); [congruence|reflexivity..]).
    rewrite Hs. split; [apply decimal_digits_are_digits|]. split.
    + destruct (Pos.to_uint p); [congruence|discriminate..].
    + rewrite decimal_digits_value. exact Hround.
Qed.

Lemma from_chars_decimal_text (v initial : Z) :
  0 <= v ->
  from_chars (to_string v) initial
  = if v <? 2 ^ 32
    then {| ptr := String.length (to_string v); ec := errc_ok; parsed := v |}
    else {| ptr := String.length (to_string v); ec := result_out_of_range;
            parsed := initial |}.
Proof.
  intros Hv. destruct (to_string_digits v Hv) as [Hall [Hne Hval]].
  unfold from_chars. rewrite (leading_digits_all _ Hall).
  rewrite Hval, length_list_ascii_of_string.
  destruct (list_ascii_of_string (to_string v)); [congruence|].
  reflexivity.
Qed.

(** X8. Parsing the decimal text of a number gives the number back:
    [std::from_chars] on [std::to_string v] consumes the whole text and
    stores [v] when [v] fits 32 bits; when it does not, the whole text is
    consumed, the error is [result_out_of_range] and the value is left
    alone. *)
Theorem from_chars_of_to_string (v initial : Z) :
  0 <= v ->
  from_chars (to_string v) initial
  = if v <? 2 ^ 32
    then {| ptr := String.length (to_string v); ec := errc_ok; parsed := v |}
    else {| ptr := String.length (to_string v); ec := result_out_of_range;
            parsed := initial |}.
Proof.
  intros Hv. destruct (to_string_digits v Hv) as [Hall [Hne Hval]].
  unfold from_chars. rewrite (leading_digits_all _ Hall).
  rewrite Hval, length_list_ascii_of_string.
  destruct (list_ascii_of_string (to_string v)); [congruence|].
  reflexivity.
Qed.

Lemma from_chars_of_to_string_witness :
  from_chars (to_string 55008) 0
  = if 55008 <? 2 ^ 32
    then {| ptr := String.length (to_string 55008); ec := errc_ok;
            parsed := 55008 |}
    else {| ptr := String.length (to_string 55008);
            ec := result_out_of_range; parsed := 0 |}.
Proof. apply (from_chars_of_to_string 55008 0). lia. Defined.

Lemma from_chars_accepts_plain_decimals_helper (s : string) (initial : Z) :
  (errc_is_ok (ec (from_chars s initial))
   && (ptr (from_chars s initial) =? String.length s)%nat = true
   <-> s <> EmptyString
       /\ forallb is_digit (list_ascii_of_string s) = true
       /\ digits_value (list_ascii_of_string s) < 2 ^ 32)
  /\ (errc_is_ok (ec (from_chars s initial)) = true ->
      parsed (from_chars s initial)
      = digits_value (leading_digits (list_ascii_of_string s)))
  /\ (errc_is_ok (ec (from_chars s initial)) = false ->
      parsed (from_chars s initial) = initial).
Proof.
  unfold from_chars.
  destruct (leading_digits_length (list_ascii_of_string s)) as [Hle Heq].
  rewrite length_list_ascii_of_string in Hle, Heq.
  destruct (leading_digits (list_ascii_of_string s)) as [|d ds] eqn:Eds.
  - cbn. split; [|split; [discriminate|reflexivity]].
    split; [discriminate|]. intros [Hne [Hall _]].
    rewrite (leading_digits_all _ Hall) in Eds.
    destruct s; [congruence|discriminate].
  - destruct (digits_value (d :: ds) <? 2 ^ 32) eqn:Ev;
      cbn [ec ptr parsed errc_is_ok andb].
    + split; [|split; [reflexivity|discriminate]].
      rewrite Nat.eqb_eq. split.
      * intros Hlen. specialize (Heq Hlen).
        rewrite (leading_digits_all _ Heq) in Eds.
        split; [intros ->; discriminate Eds|]. split; [exact Heq|].
        rewrite Eds. lia.
      * intros [_ [Hall _]].
        rewrite (leading_digits_all _ Hall) in Eds.
        rewrite <- Eds at 1. apply length_list_ascii_of_string.
    + split; [|split; [discriminate|reflexivity]].
      split; [discriminate|]. intros [_ [Hall Hval]].
      rewrite (leading_digits_all _ Hall) in Eds. rewrite Eds in Hval. lia.
Qed.

(** X9. The parse of a UAT code counts as successful (no error, whole text
    consumed) exactly when the text is not empty, consists of decimal digits
    only and denotes a number below 2^32; the value stored is then that
    number.  A sign, a blank or any other character makes it fail, and a
    failed parse leaves the value alone. *)
Theorem from_chars_accepts_plain_decimals (s : string) (initial : Z) :
  (errc_is_ok (ec (from_chars s initial))
   && (ptr (from_chars s initial) =? String.length s)%nat = true
   <-> s <> EmptyString
       /\ forallb is_digit (list_ascii_of_string s) = true
       /\ digits_value (list_ascii_of_string s) < 2 ^ 32)
  /\ (errc_is_ok (ec (from_chars s initial))
      && (ptr (from_chars s initial) =? String.length s)%nat = true ->
      parsed (from_chars s initial) = digits_value (list_ascii_of_string s))
  /\ (errc_is_ok (ec (from_chars s initial)) = false ->
      parsed (from_chars s initial) = initial).
Proof.
  destruct (from_chars_accepts_plain_decimals_helper s initial)
    as [Hacc [Hok Hfail]].
  split; [exact Hacc|]. split; [|exact Hfail].
  intros Hfull. destruct (proj1 Hacc Hfull) as [_ [Hall _]].
  apply andb_prop in Hfull. destruct Hfull as [Hec _].
  rewrite (Hok Hec), (leading_digits_all _ Hall). reflexivity.
Qed.

Example from_chars_rejections :
  map (fun s => (ec (from_chars s 7), ptr (from_chars s 7),
                 parsed (from_chars s 7)))
      ["+5"; "-5"; "12a"; "4294967295"; "4294967296"; " 5"; "007"]%string
  = [(invalid_argument, 0%nat, 7); (invalid_argument, 0%nat, 7);
     (errc_ok, 2%nat, 12); (errc_ok, 10%nat, 4294967295);
     (result_out_of_range, 10%nat, 7); (invalid_argument, 0%nat, 7);
     (errc_ok, 3%nat, 7)].
Proof. vm_compute. reflexivity. Qed.

Lemma digit_is_not_space (c : ascii) : is_digit c = true -> isspace c = false.
Proof.
  unfold is_digit, isspace. intros Hd.
  apply andb_prop in Hd. destruct Hd as [Hlo Hhi].
  apply Nat.leb_le in Hlo. apply Nat.leb_le in Hhi.
  apply orb_false_iff. split.
  - apply Nat.eqb_neq. lia.
  - apply andb_false_iff. right. apply Nat.leb_gt. lia.
Qed.

Lemma trimmed_padded (before middle after : list ascii) :
  forallb isspace before = true ->
  forallb isspace after = true ->
  (forall c rest, middle = c :: rest -> isspace c = false) ->
  (forall c front, middle = front ++ [c] -> isspace c = false) ->
  trimmed (before ++ middle ++ after) = middle.
Proof.
  intros Hb Ha Hhead Hlast. unfold trimmed.
  rewrite (drop_spaces_all before Hb).
  destruct middle as [|c rest].
  - cbn [app]. rewrite <- (app_nil_r after), (drop_spaces_all after Ha).
    reflexivity.
  - cbn [app drop_spaces]. rewrite (Hhead c rest eq_refl).
    change (c :: rest ++ after) with ((c :: rest) ++ after).
    rewrite rev_app_distr.
    rewrite drop_spaces_all
      by (rewrite forallb_forall in *; intros d Hd; apply Ha; now apply in_rev).
    rewrite drop_spaces_fixed; [apply rev_involutive|].
    intros d tail Hrev. apply (Hlast d (rev tail)).
    rewrite <- (rev_involutive (c :: rest)), Hrev. reflexivity.
Qed.

Section UatCode.
Context `{Library}.

(** X10. The UAT code of a feature is the number written in its natcode
    property: when the property text is the decimal text of a number below
    2^32, possibly with whitespace before and after, the code is that
    number.  When the column was not resolved, or the trimmed text holds a
    character that is not a digit, the code is 0. *)
Theorem uat_code_of_property_text (f : Feature) (h : Header) (i : Z)
    (text : string) :
  value_of (get_string_value_for_property (Some f) (Some h) i) = Some text ->
  (forall (before after : list ascii) (v : Z),
      list_ascii_of_string text
      = before ++ list_ascii_of_string (to_string v) ++ after ->
      forallb isspace before = true ->
      forallb isspace after = true ->
      0 <= v < 2 ^ 32 ->
      extract_uat_code f h (Some i) = Some v)
  /\ (forallb is_digit (list_ascii_of_string (trim text)) = false ->
      extract_uat_code f h (Some i) = Some 0)
  /\ extract_uat_code f h None = Some 0.
Proof.
  intros Htext. split; [|split; [|reflexivity]].
  - intros before after v Hshape Hb Ha Hv.
    destruct (to_string_digits v ltac:(lia)) as [Hall [Hne Hval]].
    assert (Hmiddle : forall c, In c (list_ascii_of_string (to_string v)) ->
                                isspace c = false).
    { intros c Hc. apply digit_is_not_space.
      rewrite forallb_forall in Hall. now apply Hall. }
    assert (Htrim : trim text = to_string v).
    { rewrite <- (string_of_list_ascii_of_string (trim text)), trim_chars, Hshape.
      rewrite trimmed_padded; [apply string_of_list_ascii_of_string| | | |];
        try assumption.
      - intros c rest E. apply Hmiddle. rewrite E. now left.
      - intros c front E. apply Hmiddle. rewrite E. apply in_or_app.
        right. now left. }
    unfold extract_uat_code. rewrite Htext. cbn [obind].
    destruct (String.eqb text EmptyString) eqn:Eempty.
    { apply String.eqb_eq in Eempty. subst text. cbn in Hshape.
      destruct before; [|discriminate].
      destruct (list_ascii_of_string (to_string v)); [congruence|discriminate]. }
    rewrite Htrim.
    destruct (String.eqb (to_string v) EmptyString) eqn:Ev.
    { apply String.eqb_eq in Ev. rewrite Ev in Hne. cbn in Hne. congruence. }
    rewrite from_chars_decimal_text by lia.
    replace (v <? 2 ^ 32) with true by lia.
    cbn [ec ptr parsed errc_is_ok andb]. rewrite Nat.eqb_refl. reflexivity.
  - intros Hbad. unfold extract_uat_code. rewrite Htext. cbn [obind].
    destruct (String.eqb text EmptyString); [reflexivity|].
    destruct (String.eqb (trim text) EmptyString); [reflexivity|].
    destruct (from_chars_accepts_plain_decimals_helper (trim text) 0) as [Hacc _].
    destruct (errc_is_ok (ec (from_chars (trim text) 0))
              && (ptr (from_chars (trim text) 0) =? String.length (trim text))%nat)
      eqn:E; [|reflexivity].
    destruct (proj1 Hacc eq_refl) as [_ [Hall _]]. congruence.
Qed.

End UatCode.

Lemma uat_code_of_property_text_witness :
  (forall (before after : list ascii) (v : Z),
      list_ascii_of_string " 55008"
      = before ++ list_ascii_of_string (to_string v) ++ after ->
      forallb isspace before = true ->
      forallb isspace after = true ->
      0 <= v < 2 ^ 32 ->
      @extract_uat_code truncated_library dej_feature (uat_header 2) (Some 1)
      = Some v)
  /\ (forallb is_digit (list_ascii_of_string (trim " 55008")) = false ->
      @extract_uat_code truncated_library dej_feature (uat_header 2) (Some 1)
      = Some 0)
  /\ @extract_uat_code truncated_library dej_feature (uat_header 2) None
     = Some 0.
Proof.
  apply (@uat_code_of_property_text truncated_library dej_feature
           (uat_header 2) 1 " 55008").
  vm_compute. reflexivity.
Defined.

(** ** Column lookup *)

Lemma find_column_spec (name : string) (cols : list Column) :
  forall (base : Z),
    match find_column cols name base with
    | Some i =>
        base <= i < base + Z.of_nat (List.length cols)
        /\ (exists col, nth_error cols (Z.to_nat (i - base)) = Some col
                        /\ col_name col = Some name)
        /\ (forall j col, (j < Z.to_nat (i - base))%nat ->
                          nth_error cols j = Some col ->
                          col_name col <> Some name)
    | None => forall col, In col cols -> col_name col <> Some name
    end.
Proof.
  induction cols as [|c cols IH]; intros base; cbn [find_column].
  - intros col [].
  - assert (Hrest :
              col_name c <> Some name ->
              match find_column cols name (base + 1) with
              | Some i =>
                  base <= i < base + Z.of_nat (List.length (c :: cols))
                  /\ (exists col,
                         nth_error (c :: cols) (Z.to_nat (i - base)) = Some col
                         /\ col_name col = Some name)
                  /\ (forall j col, (j < Z.to_nat (i - base))%nat ->
                                    nth_error (c :: cols) j = Some col ->
                                    col_name col <> Some name)
              | None => forall col, In col (c :: cols) -> col_name col <> Some name
              end).
    { intros Hc. specialize (IH (base + 1)).
      destruct (find_column cols name (base + 1)) as [i|].
      - destruct IH as [Hi [[col [Hcol Hname]] Hfirst]].
        cbn [List.length]. split; [lia|].
        replace (Z.to_nat (i - base)) with (S (Z.to_nat (i - (base + 1))))
          by lia.
        split; [exists col; now split|].
        intros [|j] col' Hj Hnth; cbn in Hnth.
        + injection Hnth as <-. exact Hc.
        + apply (Hfirst j col'); [lia|exact Hnth].
      - intros col [<-|Hin]; [exact Hc|now apply IH]. }
    destruct (col_name c) as [n|] eqn:En.
    + destruct (String.eqb n name) eqn:E.
      * apply String.eqb_eq in E. subst n. cbn [List.length].
        replace (Z.to_nat (base - base)) with 0%nat by lia.
        split; [lia|]. split; [exists c; now split|].
        intros j col Hj. lia.
      * apply Hrest. apply String.eqb_neq in E. congruence.
    + apply Hrest. discriminate.
Qed.

Section ColumnLookup.
Context `{Library}.

(** X11. [find_property_index_by_name] returns the position of the first
    column with the given name: the index is inside the schema, the column
    there has the name and no column before it has; it returns nothing
    exactly when no column has the name, when the header has no column list
    and when there is no header. *)
Theorem find_property_index_is_first_match (h : Header) (name : string) :
  match find_property_index_by_name (Some h) name with
  | Some i =>
      exists cols col,
        columns h = Some cols
        /\ 0 <= i < Z.of_nat (List.length cols)
        /\ nth_error cols (Z.to_nat i) = Some col
        /\ col_name col = Some name
        /\ (forall j earlier, (j < Z.to_nat i)%nat ->
                              nth_error cols j = Some earlier ->
                              col_name earlier <> Some name)
  | None =>
      forall cols, columns h = Some cols ->
                   forall col, In col cols -> col_name col <> Some name
  end
  /\ find_property_index_by_name None name = None.
Proof.
  split; [|reflexivity].
  unfold find_property_index_by_name.
  destruct (columns h) as [cols|]; [|discriminate].
  pose proof (find_column_spec name cols 0) as Hspec.
  destruct (find_column cols name 0) as [i|].
  - destruct Hspec as [Hi [[col [Hcol Hname]] Hfirst]].
    rewrite Z.sub_0_r in *.
    exists cols, col. repeat split; try assumption; lia.
  - intros cols' E. injection E as <-. exact Hspec.
Qed.

(** The three columns of the UAT files are found at 0, 1 and 2; a column
    that is not there is not found. *)
Example uat_columns_resolved :
  map (find_property_index_by_name (Some (uat_header 1)))
      [expected_uat_name_column_; expected_uat_code_column_;
       expected_county_mn_column_; "population"%string]
  = [Some 0; Some 1; Some 2; None].
Proof. reflexivity. Qed.

(** X12. The two walkers over a value agree on its width: whenever
    [read_and_convert_property_value_at_offset] reports that it consumed
    bytes, [skip_property_value_at_offset] computes the same number for the
    same type at the same offset, so a scan that skips a value lands where
    a read of it would have ended. *)
Theorem read_and_skip_agree_on_width (ty : ColumnType) (data : list byte)
    (off size : Z) :
  0 <= size < 2 ^ 32 -> 0 <= off ->
  snd (value_of (read_and_convert_property_value_at_offset ty data off size))
  <> 0 ->
  value_of (skip_property_value_at_offset ty data off size)
  = snd (value_of (read_and_convert_property_value_at_offset ty data off size)).
Proof.
  intros Hsize Hoff.
  unfold read_and_convert_property_value_at_offset,
    skip_property_value_at_offset.
  destruct (off >=? size) eqn:E; [cbn; congruence|].
  replace (u32_wrap (size - off)) with (size - off)
    by (unfold u32_wrap; symmetry; apply Z.mod_small; lia).
  assert (Hscalar : forall T,
             snd (value_of (read_scalar_as_string_static_helper T data off
                                                                (size - off)))
             <> 0 ->
             value_of (ret (if sizeof T <=? size - off then sizeof T
                            else size - off))
             = snd (value_of (read_scalar_as_string_static_helper T data off
                                                                  (size - off)))).
  { intros T. unfold read_scalar_as_string_static_helper.
    destruct (sizeof T >? size - off) eqn:ET; [cbn; congruence|].
    rewrite value_of_bind. cbn [ret value_of fst snd]. intros _.
    replace (sizeof T <=? size - off) with true by lia. reflexivity. }
  destruct ty; try (exact (Hscalar _)); try (cbn; congruence).
  - rewrite value_of_bind. cbn [ret value_of fst snd].
    exact (Hscalar uint8_t).
  - destruct (4 >? size - off) eqn:E4; [cbn; congruence|].
    replace (4 <=? size - off) with true by lia. cbn [negb].
    rewrite !value_of_bind.
    destruct (4 + value_of (ReadScalar 4 data off) >? size - off) eqn:El;
      [cbn; congruence|].
    rewrite value_of_bind. cbn [ret value_of fst snd]. intros Hnz.
    assert (Hlen : 0 <= value_of (ReadScalar 4 data off)).
    { unfold ReadScalar, value_of. cbn [fst].
      generalize (map (byte_at data) (span off 4)). intros bs.
      induction bs as [|b bs IH]; cbn [little_endian]; [lia|].
      assert (0 <= byte_val b)
        by (unfold byte_val; apply N2Z.is_nonneg).
      lia. }
    replace (u32_wrap (4 + value_of (ReadScalar 4 data off)))
      with (4 + value_of (ReadScalar 4 data off))
      by (unfold u32_wrap; symmetry; apply Z.mod_small; lia).
    replace (4 + value_of (ReadScalar 4 data off) <=? size - off) with true
      by lia.
    reflexivity.
Qed.

End ColumnLookup.

Lemma read_and_skip_agree_on_width_witness :
  value_of (skip_property_value_at_offset String_ dej_properties 2 28)
  = snd (value_of (@read_and_convert_property_value_at_offset
                     truncated_library String_ dej_properties 2 28)).
Proof.
  apply (@read_and_skip_agree_on_width truncated_library String_
           dej_properties 2 28).
  - lia.
  - lia.
  - vm_compute. discriminate.
Defined.

(** ** Reading back what was written into a property blob *)

Lemma byte_val_range (b : byte) : 0 <= byte_val b < 256.
Proof.
  unfold byte_val. pose proof (Byte.to_N_bounded b) as Hb.
  split; [apply N2Z.is_nonneg|]. lia.
Qed.

Lemma byte_val_of_Z (v : Z) : byte_val (byte_of_Z v) = v mod 256.
Proof.
  unfold byte_of_Z, byte_val.
  assert (Hm : 0 <= v mod 256 < 256) by (apply Z.mod_pos_bound; lia).
  destruct (Byte.of_N (Z.to_N (v mod 256))) as [b|] eqn:E.
  - apply Byte.to_of_N in E. rewrite E. lia.
  - apply Byte.of_N_None_iff in E. lia.
Qed.

Lemma little_endian_le_bytes (width : nat) (v : Z) :
  little_endian (le_bytes width v) = v mod 256 ^ Z.of_nat width.
Proof.
  revert v. induction width as [|width IH]; intros v.
  - cbn. now rewrite Z.mod_1_r.
  - cbn [le_bytes little_endian]. rewrite byte_val_of_Z, IH.
    rewrite Nat2Z.inj_succ, Z.pow_succ_r by lia.
    rewrite Z.rem_mul_r by lia. reflexivity.
Qed.

Lemma length_le_bytes (width : nat) (v : Z) :
  List.length (le_bytes width v) = width.
Proof.
  revert v. induction width as [|width IH]; intros v; cbn;
    [reflexivity|now rewrite IH].
Qed.

(** Reading a span of a list gives the elements that were put there. *)
Lemma bytes_at_middle (before middle after : list byte) :
  map (byte_at (before ++ middle ++ after))
      (span (Z.of_nat (List.length before)) (List.length middle))
  = middle.
Proof.
  unfold span. rewrite map_map.
  apply nth_ext with (d := x00) (d' := x00).
  - now rewrite length_map, length_seq.
  - intros k Hk. rewrite length_map, length_seq in Hk.
    rewrite (nth_indep _ x00 (byte_at (before ++ middle ++ after)
                                (Z.of_nat (List.length before) + Z.of_nat 0)))
      by (now rewrite length_map, length_seq).
    rewrite (map_nth (fun k => byte_at (before ++ middle ++ after)
                                 (Z.of_nat (List.length before) + Z.of_nat k))
                     (seq 0 (List.length middle)) 0%nat k).
    rewrite seq_nth by exact Hk. cbn [Nat.add].
    unfold byte_at.
    replace (Z.to_nat (Z.of_nat (List.length before) + Z.of_nat k))
      with (List.length before + k)%nat by lia.
    rewrite app_nth2_plus, app_nth1 by exact Hk. reflexivity.
Qed.

Lemma read_scalar_written (width : nat) (v : Z) (before after : list byte) :
  value_of (ReadScalar width (before ++ le_bytes width v ++ after)
                       (Z.of_nat (List.length before)))
  = v mod 256 ^ Z.of_nat width.
Proof.
  unfold ReadScalar, value_of. cbn [fst].
  rewrite <- (length_le_bytes width v) at 2.
  rewrite bytes_at_middle. apply little_endian_le_bytes.
Qed.

Lemma read_chars_written (s : string) (before after : list byte) :
  value_of (read_chars (before ++ bytes_of s ++ after)
                       (Z.of_nat (List.length before))
                       (Z.of_nat (String.length s)))
  = s.
Proof.
  unfold read_chars, value_of. cbn [fst]. rewrite Nat2Z.id.
  replace (String.length s) with (List.length (bytes_of s))
    by (unfold bytes_of; now rewrite length_map, length_list_ascii_of_string).
  rewrite <- map_map, bytes_at_middle. unfold bytes_of. rewrite map_map.
  rewrite (map_ext _ (fun a => a)) by (intros a; apply ascii_of_byte_of_ascii).
  rewrite map_id. apply string_of_list_ascii_of_string.
Qed.

Lemma as_signed_of_mod (w z : Z) :
  0 < w -> - 2 ^ (w - 1) <= z < 2 ^ (w - 1) ->
  as_signed w (z mod 2 ^ w) = z.
Proof.
  intros Hw Hz. unfold as_signed.
  assert (Hp : 2 ^ w = 2 * 2 ^ (w - 1)).
  { rewrite <- Z.pow_succ_r by lia. f_equal. lia. }
  assert (Hpos : 0 < 2 ^ (w - 1)) by (apply Z.pow_pos_nonneg; lia).
  destruct (Z_lt_le_dec z 0) as [Hneg|Hnn].
  - replace (z mod 2 ^ w) with (z + 2 ^ w)
      by (apply Z.mod_unique with (q := -1); lia).
    destruct (z + 2 ^ w <? 2 ^ (w - 1)) eqn:E; lia.
  - rewrite Z.mod_small by lia.
    destruct (z <? 2 ^ (w - 1)) eqn:E; lia.
Qed.

Lemma value_payload_length (v : property_value) :
  (1 <= List.length (value_payload v))%nat.
Proof.
  destruct v; cbn [value_payload]; rewrite ?length_app, ?length_le_bytes;
    cbn; lia.
Qed.

Lemma bool_payload (b : bool) :
  [if b then x01 else x00] = le_bytes 1 (if b then 1 else 0).
Proof. destruct b; reflexivity. Qed.

Section WrittenBlob.
Context `{Library}.

Lemma read_scalar_helper_written (T : scalar_type) (z : Z)
    (before after : list byte) (remaining : Z) :
  sizeof T <= remaining ->
  value_of (read_scalar_as_string_static_helper T
              (before ++ le_bytes (Z.to_nat (sizeof T)) z ++ after)
              (Z.of_nat (List.length before)) remaining)
  = (scalar_text T (z mod 256 ^ sizeof T), sizeof T).
Proof.
  intros Hrem. unfold read_scalar_as_string_static_helper.
  replace (sizeof T >? remaining) with false by lia.
  rewrite value_of_bind, read_scalar_written.
  rewrite Z2Nat.id by (destruct T; cbn; lia). reflexivity.
Qed.

Lemma remaining_after (before payload after : list byte) :
  Z.of_nat (List.length (before ++ payload ++ after))
  - Z.of_nat (List.length before)
  = Z.of_nat (List.length payload) + Z.of_nat (List.length after).
Proof. rewrite !length_app. lia. Qed.

Lemma length_bytes_of (s : string) :
  List.length (bytes_of s) = String.length s.
Proof.
  unfold bytes_of. now rewrite length_map, length_list_ascii_of_string.
Qed.

(** Reading a written value gives its text. *)
Lemma read_written_value (v : property_value) (before after : list byte) :
  value_in_range v ->
  Z.of_nat (List.length (before ++ value_payload v ++ after)) < 2 ^ 32 ->
  fst (value_of (read_and_convert_property_value_at_offset (value_type v)
                   (before ++ value_payload v ++ after)
                   (Z.of_nat (List.length before))
                   (Z.of_nat (List.length (before ++ value_payload v ++ after)))))
  = value_text v.
Proof.
  intros Hrange Hsize.
  pose proof (value_payload_length v) as Hlen.
  pose proof (remaining_after before (value_payload v) after) as Hrem.
  unfold read_and_convert_property_value_at_offset.
  replace (Z.of_nat (List.length before)
           >=? Z.of_nat (List.length (before ++ value_payload v ++ after)))
    with false by lia.
  replace (u32_wrap (Z.of_nat (List.length (before ++ value_payload v ++ after))
                     - Z.of_nat (List.length before)))
    with (Z.of_nat (List.length (value_payload v))
          + Z.of_nat (List.length after))
    by (unfold u32_wrap; rewrite Z.mod_small by lia; lia).
  assert (Hroom : Z.of_nat (List.length (value_payload v))
                  + Z.of_nat (List.length after) < 2 ^ 32) by lia.
  clear Hrem Hsize.
  destruct v as [z|z|b|z|z|z|z|z|z|s];
    cbn [value_type value_payload value_text value_in_range] in *;
    rewrite ?length_app, ?length_le_bytes in *.
  - rewrite (read_scalar_helper_written int8_t z) by (cbn [sizeof]; lia).
    cbn [fst scalar_text sizeof].
    change (256 ^ 1) with (2 ^ 8). now rewrite as_signed_of_mod by lia.
  - rewrite (read_scalar_helper_written uint8_t z) by (cbn [sizeof]; lia).
    cbn [fst scalar_text sizeof]. now rewrite Z.mod_small by lia.
  - rewrite value_of_bind, bool_payload.
    rewrite (read_scalar_helper_written uint8_t (if b then 1 else 0))
      by (rewrite length_le_bytes; cbn [sizeof]; lia).
    destruct b; reflexivity.
  - rewrite (read_scalar_helper_written int16_t z) by (cbn [sizeof]; lia).
    cbn [fst scalar_text sizeof].
    change (256 ^ 2) with (2 ^ 16). now rewrite as_signed_of_mod by lia.
  - rewrite (read_scalar_helper_written uint16_t z) by (cbn [sizeof]; lia).
    cbn [fst scalar_text sizeof]. now rewrite Z.mod_small by lia.
  - rewrite (read_scalar_helper_written int32_t z) by (cbn [sizeof]; lia).
    cbn [fst scalar_text sizeof].
    change (256 ^ 4) with (2 ^ 32). now rewrite as_signed_of_mod by lia.
  - rewrite (read_scalar_helper_written uint32_t z) by (cbn [sizeof]; lia).
    cbn [fst scalar_text sizeof]. now rewrite Z.mod_small by lia.
  - rewrite (read_scalar_helper_written int64_t z) by (cbn [sizeof]; lia).
    cbn [fst scalar_text sizeof].
    change (256 ^ 8) with (2 ^ 64). now rewrite as_signed_of_mod by lia.
  - rewrite (read_scalar_helper_written uint64_t z) by (cbn [sizeof]; lia).
    cbn [fst scalar_text sizeof]. now rewrite Z.mod_small by lia.
  - rewrite length_bytes_of in *.
    match goal with
    | |- context [4 >? ?r] => destruct (Z.gtb_spec 4 r); [exfalso; lia|]
    end.
    rewrite <- !app_assoc.
    rewrite !value_of_bind, read_scalar_written.
    change (256 ^ Z.of_nat 4) with (2 ^ 32).
    rewrite (Z.mod_small (Z.of_nat (String.length s))) by lia.
    match goal with
    | |- context [?a >? ?r] => destruct (Z.gtb_spec a r); [exfalso; lia|]
    end.
    rewrite value_of_bind. cbn [ret value_of fst].
    replace (Z.of_nat (List.length before) + 4)
      with (Z.of_nat (List.length (before ++ le_bytes 4 (Z.of_nat (String.length s)))))
      by (rewrite length_app, length_le_bytes; lia).
    rewrite (app_assoc before).
    apply (read_chars_written s).
Qed.

(** Skipping a written value skips exactly its bytes. *)
Lemma skip_written_value (v : property_value) (before after : list byte) :
  value_in_range v ->
  Z.of_nat (List.length (before ++ value_payload v ++ after)) < 2 ^ 32 ->
  value_of (skip_property_value_at_offset (value_type v)
              (before ++ value_payload v ++ after)
              (Z.of_nat (List.length before))
              (Z.of_nat (List.length (before ++ value_payload v ++ after))))
  = Z.of_nat (List.length (value_payload v)).
Proof.
  intros Hrange Hsize.
  pose proof (value_payload_length v) as Hlen.
  pose proof (remaining_after before (value_payload v) after) as Hrem.
  unfold skip_property_value_at_offset.
  replace (Z.of_nat (List.length before)
           >=? Z.of_nat (List.length (before ++ value_payload v ++ after)))
    with false by lia.
  replace (u32_wrap (Z.of_nat (List.length (before ++ value_payload v ++ after))
                     - Z.of_nat (List.length before)))
    with (Z.of_nat (List.length (value_payload v))
          + Z.of_nat (List.length after))
    by (unfold u32_wrap; rewrite Z.mod_small by lia; lia).
  assert (Hroom : Z.of_nat (List.length (value_payload v))
                  + Z.of_nat (List.length after) < 2 ^ 32) by lia.
  clear Hrem Hsize.
  destruct v as [z|z|b|z|z|z|z|z|z|s];
    cbn [value_type value_payload value_in_range] in *;
    rewrite ?length_app, ?length_le_bytes in *;
    try (cbn [ret value_of fst List.length] in *;
         match goal with
         | |- context [?a <=? ?r] =>
             destruct (Z.leb_spec a r); [reflexivity|exfalso; lia]
         end).
  rewrite ?length_bytes_of in *.
  match goal with
  | |- context [4 <=? ?r] => destruct (Z.leb_spec 4 r); [|exfalso; lia]
  end.
  cbn [negb].
  rewrite <- !app_assoc.
  rewrite value_of_bind, read_scalar_written.
  change (256 ^ Z.of_nat 4) with (2 ^ 32).
  rewrite (Z.mod_small (Z.of_nat (String.length s))) by lia.
  replace (u32_wrap (4 + Z.of_nat (String.length s)))
    with (4 + Z.of_nat (String.length s))
    by (unfold u32_wrap; symmetry; apply Z.mod_small; lia).
  cbn [ret value_of fst].
  match goal with
  | |- context [?a <=? ?r] => destruct (Z.leb_spec a r); lia
  end.
Qed.

Lemma entries_no_longer_than_blob (entries : list (Z * property_value)) :
  (List.length entries <= List.length (encode_properties entries))%nat.
Proof.
  induction entries as [|entry rest IH]; [apply Nat.le_refl|].
  cbn [encode_properties flat_map List.length]. fold (encode_properties rest).
  unfold encode_entry. rewrite !length_app, length_le_bytes. lia.
Qed.

Lemma first_value_outside_schema (cols : list Column) (target : Z)
    (entries : list (Z * property_value)) :
  Forall (entry_fits cols) entries -> vector_size cols <= target ->
  first_value target entries = None.
Proof.
  intros Hfit Htarget.
  induction Hfit as [|[c v] rest [Hc _] _ IH]; [reflexivity|].
  cbn [first_value fst] in *.
  destruct (Z.eqb_spec c target); [lia|exact IH].
Qed.

(** The scan started at the first of the written pairs, wherever they lie in
    the blob. *)
Lemma scan_written_entries (cols : list Column) (target : Z)
    (entries : list (Z * property_value)) :
  Forall (entry_fits cols) entries ->
  forall (before : list byte) (fuel : nat),
    Z.of_nat (List.length (before ++ encode_properties entries)) < 2 ^ 32 ->
    (List.length entries <= fuel)%nat ->
    value_of (property_scan fuel cols target
                (before ++ encode_properties entries)
                (Z.of_nat (List.length (before ++ encode_properties entries)))
                (Z.of_nat (List.length before)))
    = Some match first_value target entries with
           | Some v => value_text v
           | None => EmptyString
           end.
Proof.
  induction 1 as [|[c v] rest Hfit _ IH]; intros before fuel Hsize Hfuel.
  - cbn [encode_properties flat_map first_value]. rewrite app_nil_r.
    destruct fuel; cbn [property_scan]; rewrite Z.ltb_irrefl; reflexivity.
  - destruct fuel as [|fuel]; [cbn in Hfuel; lia|].
    destruct Hfit as [Hc [Hc16 [[col [Hcol Htype]] Hrange]]].
    cbn [fst snd] in *.
    cbn [encode_properties flat_map] in *. fold (encode_properties rest) in *.
    unfold encode_entry in *. cbn [fst snd] in *.
    pose proof (value_payload_length v) as Hlen.
    rewrite property_scan_step;
      [|lia|lia|rewrite !length_app, length_le_bytes; lia].
    cbv zeta.
    rewrite <- !app_assoc.
    rewrite read_scalar_written.
    change (256 ^ Z.of_nat 2) with (2 ^ 16).
    rewrite (Z.mod_small c) by lia.
    destruct (Z.geb_spec c (vector_size cols)) as [Hge|_]; [exfalso; lia|].
    rewrite Hcol, Htype. cbn [first_value].
    replace (Z.of_nat (List.length before) + 2)
      with (Z.of_nat (List.length (before ++ le_bytes 2 c)))
      by (rewrite length_app, length_le_bytes; lia).
    replace (before ++ le_bytes 2 c ++ value_payload v ++ encode_properties rest)
      with ((before ++ le_bytes 2 c) ++ value_payload v ++ encode_properties rest)
      in * by (now rewrite <- app_assoc).
    assert (Hsize' : Z.of_nat (List.length ((before ++ le_bytes 2 c)
                       ++ value_payload v ++ encode_properties rest)) < 2 ^ 32)
      by (rewrite !length_app in *; lia).
    destruct (c =? target).
    + now rewrite read_written_value.
    + rewrite skip_written_value by assumption.
      match goal with
      | |- context [?a >? ?r] => destruct (Z.gtb_spec a r) as [Hgt|_]
      end.
      { exfalso. rewrite !length_app in Hgt. lia. }
      replace (Z.of_nat (List.length (before ++ le_bytes 2 c))
               + Z.of_nat (List.length (value_payload v)))
        with (Z.of_nat (List.length ((before ++ le_bytes 2 c) ++ value_payload v)))
        by (rewrite (length_app _ (value_payload v)); lia).
      replace ((before ++ le_bytes 2 c) ++ value_payload v ++ encode_properties rest)
        with (((before ++ le_bytes 2 c) ++ value_payload v) ++ encode_properties rest)
        in * by (now rewrite <- (app_assoc _ (value_payload v))).
      apply IH; [rewrite !length_app in *; lia|cbn in Hfuel; lia].
Qed.

(** X13. What is written is read back: for a property blob that holds, one
    after the other, pairs of a column index and a value of that column's
    type (integers of one to eight bytes, booleans, strings),
    [get_string_value_for_property] returns for every target column the text
    of the first value stored for it (a number in decimal, a boolean as
    [true] or [false], a string as it is), and the empty text for a column
    with no stored value or outside the schema. *)
Theorem written_properties_are_read_back (feature : Feature) (header : Header)
    (cols : list Column) (entries : list (Z * property_value)) (target : Z) :
  properties feature = Some (encode_properties entries) ->
  columns header = Some cols ->
  Forall (entry_fits cols) entries ->
  Z.of_nat (List.length (encode_properties entries)) < 2 ^ 32 ->
  value_of (get_string_value_for_property (Some feature) (Some header) target)
  = Some match first_value target entries with
         | Some v => value_text v
         | None => EmptyString
         end.
Proof.
  intros Hprops Hcols Hfit Hsize.
  unfold get_string_value_for_property. rewrite Hprops, Hcols.
  destruct (Z.geb_spec target (vector_size cols)) as [Hout|_].
  - now rewrite (first_value_outside_schema cols target entries Hfit)
      by lia.
  - unfold scan_blob, vector_size, u32_wrap.
    rewrite Z.mod_small by lia.
    pose proof (entries_no_longer_than_blob entries) as Hcount.
    apply (scan_written_entries cols target entries Hfit []).
    + exact Hsize.
    + lia.
Qed.

End WrittenBlob.

Lemma written_properties_are_read_back_witness :
  value_of (@get_string_value_for_property truncated_library
              (Some {| geometry := None;
                       properties :=
                         Some (encode_properties
                                 [(0, int_value (-2)); (1, bool_value true);
                                  (2, short_value (-1)); (0, int_value 7)]) |})
              (Some {| name := None; geometry_type := Polygon;
                       has_z := false; has_m := false; features_count := 1;
                       columns := Some mixed_columns; index_node_size := 0 |})
              0)
  = Some "-2"%string.
Proof.
  apply (@written_properties_are_read_back truncated_library _ _ mixed_columns
           [(0, int_value (-2)); (1, bool_value true);
            (2, short_value (-1)); (0, int_value 7)] 0).
  - reflexivity.
  - reflexivity.
  - repeat constructor; cbn; try lia;
      eexists; split; reflexivity.
  - vm_compute. reflexivity.
Defined.

(** ** The outcome of a run *)

Lemma with_prefix_put_string (p s : string) (os : ostream) :
  put_string s (with_prefix p os) = with_prefix p (put_string s os).
Proof.
  unfold put_string, with_prefix. cbn [content flags precision].
  now rewrite append_assoc.
Qed.

Lemma with_prefix_put_char (p : string) (c : ascii) (os : ostream) :
  put_char c (with_prefix p os) = with_prefix p (put_char c os).
Proof. apply with_prefix_put_string. Qed.

Lemma with_prefix_set_flags (p : string) (f : Z) (os : ostream) :
  set_flags f (with_prefix p os) = with_prefix p (set_flags f os).
Proof. reflexivity. Qed.

Lemma with_prefix_set_precision (p : string) (n : Z) (os : ostream) :
  set_precision n (with_prefix p os) = with_prefix p (set_precision n os).
Proof. reflexivity. Qed.

Lemma with_prefix_std_fixed (p : string) (os : ostream) :
  std_fixed (with_prefix p os) = with_prefix p (std_fixed os).
Proof. reflexivity. Qed.

Lemma flags_with_prefix (p : string) (os : ostream) :
  flags (with_prefix p os) = flags os.
Proof. reflexivity. Qed.

Lemma precision_with_prefix (p : string) (os : ostream) :
  precision (with_prefix p os) = precision os.
Proof. reflexivity. Qed.

Lemma with_prefix_escaped (p : string) (os : ostream) (value : string) :
  write_csv_escaped_string (with_prefix p os) value
  = with_prefix p (write_csv_escaped_string os value).
Proof.
  unfold write_csv_escaped_string.
  destruct (find_first_of value [comma; dquote; newline] 0).
  - rewrite !escape_loop_content.
    now rewrite with_prefix_put_char, with_prefix_put_string,
      with_prefix_put_char.
  - apply with_prefix_put_string.
Qed.

Lemma with_prefix_fresh (os : ostream) :
  flags os = flags fresh_stream -> precision os = precision fresh_stream ->
  os = with_prefix (content os) fresh_stream.
Proof.
  destruct os as [c f p]. cbn [flags precision content]. intros -> ->.
  unfold with_prefix, fresh_stream. cbn [content flags precision].
  now rewrite append_nil_r.
Qed.

Section RunOutcome.
Context `{Library}.

Lemma with_prefix_put_double (p : string) (v : R) (os : ostream) :
  put_double_value v (with_prefix p os)
  = with_prefix p (put_double_value v os).
Proof. unfold put_double_value. apply with_prefix_put_string. Qed.

Lemma with_prefix_put_unsigned (p : string) (v : Z) (os : ostream) :
  put_unsigned_value v (with_prefix p os)
  = with_prefix p (put_unsigned_value v os).
Proof. unfold put_unsigned_value. apply with_prefix_put_string. Qed.

(** A row is written the same way behind any text. *)
Lemma with_prefix_row (p : string) (os : ostream) (r : task_result) :
  write_result_row (with_prefix p os) r
  = with_prefix p (write_result_row os r).
Proof.
  unfold write_result_row, write_csv_row. cbv zeta.
  destruct (is_valid (bbox r));
    repeat (rewrite ?with_prefix_escaped, ?with_prefix_put_char,
              ?with_prefix_put_unsigned, ?with_prefix_put_string,
              ?with_prefix_put_double, ?with_prefix_std_fixed,
              ?with_prefix_set_precision, ?with_prefix_set_flags,
              ?flags_with_prefix, ?precision_with_prefix);
    reflexivity.
Qed.

Lemma write_result_row_state (os : ostream) (r : task_result) :
  flags (write_result_row os r) = flags os
  /\ precision (write_result_row os r) = precision os.
Proof.
  unfold write_result_row, write_csv_row.
  destruct (write_csv_escaped_string_state os (uat_name r)) as [Hf1 Hp1].
  set (os1 := put_char csv_delimiter_
                (put_unsigned_value (uat_code r)
                   (put_char csv_delimiter_
                      (write_csv_escaped_string os (uat_name r))))).
  assert (H1 : flags os1 = flags os /\ precision os1 = precision os)
    by (split; cbn; assumption).
  destruct (write_csv_escaped_string_state os1
              (county_to_string (county_mn r))) as [Hf2 Hp2].
  destruct H1 as [Hf3 Hp3].
  destruct (is_valid (bbox r)); cbn [flags precision put_string put_char
    set_flags set_precision put_double_value std_fixed];
    split; congruence.
Qed.

(** Rows are appended: the stream after the rows of [results] holds what it
    held before, followed by the text of each row in turn. *)
Lemma rows_appended (results : list task_result) :
  forall os : ostream,
    flags os = flags fresh_stream -> precision os = precision fresh_stream ->
    content (fold_left write_result_row results os)
    = (content os ++ fold_right append EmptyString (map row_text results))%string.
Proof.
  induction results as [|r results IH]; intros os Hf Hp;
    cbn [fold_left map fold_right].
  - now rewrite append_nil_r.
  - destruct (write_result_row_state os r) as [Hf' Hp'].
    rewrite IH by congruence.
    rewrite (with_prefix_fresh os Hf Hp) at 1.
    rewrite with_prefix_row. unfold with_prefix at 1.
    cbn [content]. fold (row_text r). now rewrite append_assoc.
Qed.

(** What [process_features] does for a file that can be read. *)
Lemma process_features_outcome (buf : list byte) (opens : bool) :
  match parse_and_validate_header buf with
  | None =>
      process_features (Some buf) opens
      = Some (Returned {| return_value := false; output_csv := None;
                          submitted := [] |})
  | Some (h, hs) =>
      if negb opens
      then process_features (Some buf) opens
           = Some (Returned {| return_value := false; output_csv := None;
                               submitted := [] |})
      else if negb (supported_geometry_type (geometry_type h))
      then process_features (Some buf) opens
           = Some (Returned {| return_value := false;
                               output_csv := Some EmptyString;
                               submitted := [] |})
      else
        match first_feature_offset h hs with
        | None =>
            process_features (Some buf) opens
            = Some (Thrown "PackedRTree::size")
        | Some off =>
            match reserve_futures (features_count h) with
            | Some what =>
                process_features (Some buf) opens = Some (Thrown what)
            | None =>
                exists (tasks : list task_input_data)
                       (results : list task_result),
                  map process_single_feature_task tasks = map Some results
                  /\ process_features (Some buf) opens
                     = Some (Returned
                               {| return_value := true;
                                  output_csv :=
                                    Some (content (write_csv_header fresh_stream)
                                          ++ fold_right append EmptyString
                                               (map row_text results))%string;
                                  submitted := tasks |})
            end
        end
  end.
Proof.
  rewrite process_features_cases.
  destruct (parse_and_validate_header buf) as [[h hs]|] eqn:Hparse;
    [|reflexivity].
  destruct opens; cbn [negb]; [|reflexivity].
  destruct (supported_geometry_type (geometry_type h)) eqn:Hgeom; cbn [negb];
    [|reflexivity].
  destruct (first_feature_offset h hs) as [off|] eqn:Hoff; [|reflexivity].
  destruct (reserve_futures (features_count h)) as [what|] eqn:Hres.
  - now rewrite (proj2 (submit_feature_tasks_thrown h off _ _ what) Hres).
  - destruct (submit_loop_returns_outcome h (coordinate_stride_of h)
                (Z.to_nat (features_count h)) off (resolve_columns buf h))
      as [ok [st Hloop]].
    assert (Hsubmit : submit_feature_tasks h off (coordinate_stride_of h)
                        (resolve_columns buf h) = Some (Returned (ok, st)))
      by (apply submit_feature_tasks_returned; now split).
    destruct (process_features_after_submission buf h hs off ok st Hparse
                Hgeom Hoff Hsubmit) as [results [Hmap Hrun]].
    rewrite process_features_cases, Hparse in Hrun. cbn [negb] in Hrun.
    rewrite Hgeom, Hoff in Hrun. cbn [negb] in Hrun.
    exists (processing_futures_ st), results. split; [exact Hmap|].
    rewrite Hrun. now rewrite rows_appended.
Qed.

(** X14. The exit code of the [try] block of [run_application], once the
    pool is constructed.  It is 2 exactly when the input file cannot be
    read, or when, the header being accepted, the output file open and the
    geometry type supported, [PackedRTree::size] or the reservation of the
    announced number of futures throws.  It is 0 exactly when the header is
    accepted, the output file opens, the geometry type of the header is
    Polygon or MultiPolygon and neither of the two throws, whatever the
    feature records hold.  In every other case it is 1.  The run always
    ends. *)
Theorem exit_code_of_run (input_file : option (list byte))
    (output_opens : bool) :
  run_application input_file output_opens
  = Some match input_file with
         | None => 2
         | Some fgb_buffer =>
             match parse_and_validate_header fgb_buffer with
             | Some (fbs_header, header_size) =>
                 if output_opens
                    && supported_geometry_type (geometry_type fbs_header)
                 then
                   match first_feature_offset fbs_header header_size,
                         reserve_futures (features_count fbs_header) with
                   | Some _, None => 0
                   | _, _ => 2
                   end
                 else 1
             | None => 1
             end
         end.
Proof.
  destruct input_file as [buf|]; [|reflexivity].
  pose proof (process_features_outcome buf output_opens) as Hcase.
  destruct (parse_and_validate_header buf) as [[h hs]|].
  - destruct output_opens; cbn [negb andb] in *.
    + destruct (supported_geometry_type (geometry_type h)); cbn [negb] in *.
      * destruct (first_feature_offset h hs) as [off|].
        -- destruct (reserve_futures (features_count h)) as [what|].
           ++ exact (run_application_of_exception _ _ _ Hcase).
           ++ destruct Hcase as [tasks [results [_ Hrun]]].
              exact (run_application_of_report _ _ _ Hrun).
        -- exact (run_application_of_exception _ _ _ Hcase).
      * exact (run_application_of_report _ _ _ Hcase).
    + exact (run_application_of_report _ _ _ Hcase).
  - exact (run_application_of_report _ _ _ Hcase).
Qed.

(** A header that announces 2^64 - 1 records in front of the records of
    [truncated_file]: the reservation throws and the exit code is 2. *)
Example oversized_count_exits_with_2 :
  @run_application
    (sample_library (uat_header (2 ^ 64 - 1)) [(16, dej_feature)])
    (Some truncated_file) true
  = Some 2.
Proof. lazy. reflexivity. Qed.

(** X15. What [process_features] leaves in the CSV file when it returns, and
    when it does not return.  No file is created when the header is rejected
    or the output cannot be opened.  A header with an unsupported geometry
    type leaves an empty file, without the header row.  Otherwise, when
    [PackedRTree::size] or the reservation of the futures throws, the
    exception leaves [process_features]; when they do not, the file holds
    the header row followed by one row per submitted task, in submission
    order, each row as it is written to a fresh stream. *)
Theorem csv_file_of_run (fgb_buffer : list byte) (output_opens : bool) :
  exists outcome : completion run_report,
    process_features (Some fgb_buffer) output_opens = Some outcome
    /\ match parse_and_validate_header fgb_buffer with
       | None =>
           exists report, outcome = Returned report
             /\ output_csv report = None /\ submitted report = []
       | Some (fbs_header, header_size) =>
           if negb output_opens
           then exists report, outcome = Returned report
                  /\ output_csv report = None /\ submitted report = []
           else if negb (supported_geometry_type (geometry_type fbs_header))
           then exists report, outcome = Returned report
                  /\ output_csv report = Some EmptyString
                  /\ submitted report = []
           else
             match first_feature_offset fbs_header header_size,
                   reserve_futures (features_count fbs_header) with
             | Some _, None =>
                 exists (report : run_report) (results : list task_result),
                   outcome = Returned report
                   /\ map process_single_feature_task (submitted report)
                      = map Some results
                   /\ output_csv report
                      = Some (content (write_csv_header fresh_stream)
                              ++ fold_right append EmptyString
                                   (map row_text results))%string
             | Some _, Some what => outcome = Thrown what
             | None, _ => exists what, outcome = Thrown what
             end
       end.
Proof.
  pose proof (process_features_outcome fgb_buffer output_opens) as Hcase.
  destruct (parse_and_validate_header fgb_buffer) as [[h hs]|].
  - destruct (negb output_opens).
    { eexists. split; [exact Hcase|]. eexists. now repeat split. }
    destruct (negb (supported_geometry_type (geometry_type h))).
    { eexists. split; [exact Hcase|]. eexists. now repeat split. }
    destruct (first_feature_offset h hs) as [off|].
    + destruct (reserve_futures (features_count h)) as [what|].
      * eexists. split; [exact Hcase|reflexivity].
      * destruct Hcase as [tasks [results [Hmap Hrun]]].
        eexists. split; [exact Hrun|].
        eexists. exists results. split; [reflexivity|]. now split.
    + eexists. split; [exact Hcase|]. now eexists.
  - eexists. split; [exact Hcase|]. eexists. now repeat split.
Qed.

End RunOutcome.

(** ** The tasks [submit_feature_tasks] builds *)

Lemma leading_digits_are_digits (l : list ascii) :
  forallb is_digit (leading_digits l) = true.
Proof.
  induction l as [|c l IH]; cbn [leading_digits]; [reflexivity|].
  destruct (is_digit c) eqn:E; [|reflexivity].
  cbn [forallb]. now rewrite E.
Qed.

Lemma digits_value_nonneg (ds : list ascii) :
  forallb is_digit ds = true -> 0 <= digits_value ds.
Proof.
  unfold digits_value. intros Hds.
  assert (Hacc : forall acc, 0 <= acc ->
            0 <= fold_left (fun a c => 10 * a + (Z.of_nat (nat_of_ascii c) - 48))
                           ds acc).
  { induction ds as [|c ds IH]; intros acc Hacc; cbn [fold_left];
      [exact Hacc|].
    cbn [forallb] in Hds. apply andb_prop in Hds. destruct Hds as [Hc Hds].
    apply IH; [exact Hds|].
    unfold is_digit in Hc. apply andb_prop in Hc. destruct Hc as [Hlo _].
    apply Nat.leb_le in Hlo. lia. }
  apply Hacc. lia.
Qed.

Lemma from_chars_range (s : string) (initial : Z) :
  0 <= initial < 2 ^ 32 -> 0 <= parsed (from_chars s initial) < 2 ^ 32.
Proof.
  intros Hinit. unfold from_chars.
  pose proof (leading_digits_are_digits (list_ascii_of_string s)) as Hds.
  destruct (leading_digits (list_ascii_of_string s)) as [|d ds];
    [exact Hinit|].
  destruct (Z.ltb_spec (digits_value (d :: ds)) (2 ^ 32));
    cbn [parsed]; [|exact Hinit].
  split; [now apply digits_value_nonneg|assumption].
Qed.

Section SubmittedTasks.
Context `{Library}.

Lemma extract_uat_code_range (f : Feature) (h : Header) (i : option Z)
    (v : Z) :
  extract_uat_code f h i = Some v -> 0 <= v < 2 ^ 32.
Proof.
  unfold extract_uat_code. destruct i as [i|]; [|intros [= <-]; lia].
  destruct (value_of (get_string_value_for_property (Some f) (Some h) i))
    as [s|]; [|discriminate].
  cbn [obind].
  destruct (String.eqb s EmptyString); [intros [= <-]; lia|].
  destruct (String.eqb (trim s) EmptyString); [intros [= <-]; lia|].
  destruct (_ && _); intros [= <-]; [|lia].
  apply from_chars_range. lia.
Qed.

Lemma prepare_task_shape (f : Feature) (h : Header) (stride : Z)
    (st : flatgeobuf_processor) (position : nat) (task : task_input_data) :
  feature_submission_count_ st = Z.of_nat position ->
  prepare_task f h stride st = Some task ->
  well_formed_task (uat_name_column_index_ st) stride position task.
Proof.
  intros Hcount. unfold prepare_task.
  destruct (property_or_empty f h (uat_name_column_index_ st))
    as [n|] eqn:Hname; [|discriminate].
  destruct (extract_uat_code f h (uat_code_column_index_ st))
    as [c|] eqn:Hcode; [|discriminate].
  destruct (property_or_empty f h (county_mn_column_index_ st))
    as [m|]; [|discriminate].
  cbn [obind]. intros [= <-]. unfold well_formed_task.
  cbn [in_uat_name in_uat_code coordinate_stride actual_geometry_type
       geometry_ptr].
  rewrite Hcount.
  split; [|split; [|split; [|split; reflexivity]]].
  - destruct (String.eqb_spec n EmptyString) as [_|Hn];
      [discriminate|exact Hn].
  - intros Hnone. rewrite Hnone in Hname. cbn in Hname.
    injection Hname as <-. reflexivity.
  - exact (extract_uat_code_range f h _ c Hcode).
Qed.

Lemma submit_loop_shape (h : Header) (stride : Z) (n : nat) :
  forall (off : Z) (st st' : flatgeobuf_processor) (ok : bool),
    feature_submission_count_ st
    = Z.of_nat (List.length (processing_futures_ st)) ->
    submit_loop n h stride off st = Some (ok, st') ->
    exists new_tasks,
      processing_futures_ st' = processing_futures_ st ++ new_tasks
      /\ (List.length new_tasks <= n)%nat
      /\ forall i task,
           nth_error new_tasks i = Some task ->
           well_formed_task (uat_name_column_index_ st) stride
             (List.length (processing_futures_ st) + i) task.
Proof.
  induction n as [|n IH]; intros off st st' ok Hcount Hrun;
    cbn [submit_loop] in Hrun.
  - injection Hrun as <- <-. exists []. rewrite app_nil_r.
    split; [reflexivity|]. split; [apply Nat.le_refl|].
    intros [|i] task Hi; discriminate Hi.
  - assert (Hstop : Some (false, st) = Some (ok, st') ->
              exists new_tasks,
                processing_futures_ st' = processing_futures_ st ++ new_tasks
                /\ (List.length new_tasks <= S n)%nat
                /\ forall i task,
                     nth_error new_tasks i = Some task ->
                     well_formed_task (uat_name_column_index_ st) stride
                       (List.length (processing_futures_ st) + i) task).
    { intros E. injection E as <- <-. exists []. rewrite app_nil_r.
      split; [reflexivity|]. split; [cbn; lia|].
      intros [|i] task Hi; discriminate Hi. }
    destruct (size_t_wrap (off + 4) >? _); [now apply Hstop|].
    destruct (size_t_wrap (off + 4 + _) >? _); [now apply Hstop|].
    clear Hstop.
    destruct (GetSizePrefixedFeature (fgb_buffer_ st) off) as [feature|].
    + destruct (prepare_task feature h stride st) as [task|] eqn:Htask;
        [|discriminate].
      cbn [obind] in Hrun.
      pose proof (prepare_task_shape feature h stride st _ task Hcount Htask)
        as Hshape.
      apply IH in Hrun.
      2:{ cbn [enqueue feature_submission_count_ processing_futures_].
          rewrite Hcount, length_app. cbn [List.length]. lia. }
      destruct Hrun as [new_tasks [Hf [Hlen Hall]]].
      cbn [enqueue processing_futures_ uat_name_column_index_] in Hf, Hall.
      exists (task :: new_tasks). rewrite Hf, <- app_assoc.
      split; [reflexivity|]. split; [cbn [List.length]; lia|].
      intros [|i] t Hi; cbn [nth_error] in Hi.
      * injection Hi as <-. now rewrite Nat.add_0_r.
      * specialize (Hall i t Hi). rewrite length_app in Hall.
        cbn [List.length] in Hall.
        now replace (List.length (processing_futures_ st) + S i)%nat
          with (List.length (processing_futures_ st) + 1 + i)%nat by lia.
    + apply IH in Hrun; [|exact Hcount].
      destruct Hrun as [new_tasks [Hf [Hlen Hall]]].
      exists new_tasks. split; [exact Hf|]. split; [lia|exact Hall].
Qed.

(** X16. [submit_feature_tasks], started on the processor as
    [process_features] prepares it, throws exactly when features are
    announced and their reservation throws; otherwise it returns, and
    submits at most [features_count] tasks.  The task at position [i] (from
    0) has a name that is not empty, which without a name column is
    [Name_Unavailable_Index_] followed by [i + 1]: the number counts the
    submitted tasks, not the records of the file.  Its code fits 32 bits,
    its stride is the one given and its geometry type is that of its
    geometry, [Unknown] without one.  The counter of submissions equals the
    number of futures. *)
Theorem submitted_tasks_are_well_formed (fgb_buffer : list byte)
    (fbs_header : Header) (initial_offset coordinate_stride : Z) :
  match reserve_futures (features_count fbs_header) with
  | Some what =>
      submit_feature_tasks fbs_header initial_offset coordinate_stride
        (resolve_columns fgb_buffer fbs_header) = Some (Thrown what)
  | None =>
      exists (ok : bool) (st : flatgeobuf_processor),
        submit_feature_tasks fbs_header initial_offset coordinate_stride
          (resolve_columns fgb_buffer fbs_header) = Some (Returned (ok, st))
        /\ (List.length (processing_futures_ st)
            <= Z.to_nat (features_count fbs_header))%nat
        /\ feature_submission_count_ st
           = Z.of_nat (List.length (processing_futures_ st))
        /\ forall i task,
             nth_error (processing_futures_ st) i = Some task ->
             well_formed_task
               (find_property_index_by_name (Some fbs_header)
                                            expected_uat_name_column_)
               coordinate_stride i task
  end.
Proof.
  destruct (reserve_futures (features_count fbs_header)) as [what|] eqn:Hres;
    [now apply submit_feature_tasks_thrown|].
  destruct (submit_loop_returns_outcome fbs_header coordinate_stride
              (Z.to_nat (features_count fbs_header)) initial_offset
              (resolve_columns fgb_buffer fbs_header)) as [ok [st Hrun]].
  exists ok, st.
  split; [apply submit_feature_tasks_returned; now split|].
  destruct (submit_loop_invariant _ _ _ _ _ _ _ Hrun)
    as [counted [Hf' [Hc _]]].
  destruct (submit_loop_shape fbs_header coordinate_stride _ initial_offset
              (resolve_columns fgb_buffer fbs_header) st ok eq_refl Hrun)
    as [new_tasks [Hf [Hlen Hall]]].
  cbn [resolve_columns processing_futures_ feature_submission_count_
       uat_name_column_index_ app List.length Nat.add] in *.
  rewrite Hf. split; [exact Hlen|]. split.
  - rewrite Hc. rewrite Hf' in Hf. now rewrite Hf.
  - exact Hall.
Qed.

End SubmittedTasks.

(** The decoder tables give no feature for the first record of this file,
    and the schema has no name column: the task built from the second
    record is numbered 1. *)
Example fallback_names_count_submissions :
  let header :=
    {| name := None; geometry_type := Polygon; has_z := false;
       has_m := false; features_count := 2; columns := Some mixed_columns;
       index_node_size := 0 |} in
  let library :=
    sample_library header [(22, {| geometry := None; properties := None |})] in
  option_map (fun r => map in_uat_name (processing_futures_ (snd r)))
    (@submit_loop library 2 header 2 16
       (@resolve_columns complete_file header))
  = Some ["Name_Unavailable_Index_1"%string].
Proof. vm_compute. reflexivity. Qed.

(** ** The pool: no task is lost, no run blocks, every run ends *)

Lemma in_list_set_new {A : Type} (l : list A) (i : nat) (v x : A) :
  nth_error l i = Some x -> In v (list_set l i v).
Proof.
  revert i. induction l as [|y l IH]; intros [|i] Hi; cbn in *;
    try discriminate; [now left|right; now apply IH].
Qed.

Lemma in_list_set_other {A : Type} (l : list A) (i : nat) (v x y : A) :
  In x l -> nth_error l i = Some y -> x <> y -> In x (list_set l i v).
Proof.
  revert i. induction l as [|z l IH]; intros [|i] Hin Hi Hne; cbn in *;
    try contradiction.
  - injection Hi as ->. destruct Hin as [->|Hin]; [contradiction|now right].
  - destruct Hin as [->|Hin]; [now left|right; now apply IH].
Qed.

Lemma busy_after_dequeue (l : list (option pool_task)) (w : nat)
    (t : pool_task) :
  nth_error l w = Some None ->
  List.length (filter is_busy (list_set l w (Some t)))
  = S (List.length (filter is_busy l)).
Proof.
  revert w. induction l as [|x l IH]; intros [|w] Hw; cbn in *;
    try discriminate.
  - injection Hw as ->. reflexivity.
  - destruct (is_busy x); cbn [List.length]; now rewrite IH.
Qed.

Lemma busy_after_complete (l : list (option pool_task)) (w : nat)
    (t : pool_task) :
  nth_error l w = Some (Some t) ->
  S (List.length (filter is_busy (list_set l w None)))
  = List.length (filter is_busy l).
Proof.
  revert w. induction l as [|x l IH]; intros [|w] Hw; cbn in *;
    try discriminate.
  - injection Hw as ->. reflexivity.
  - destruct (is_busy x); cbn [List.length]; now rewrite <- (IH w Hw).
Qed.

Lemma no_busy_worker_at_start (n : nat) :
  filter is_busy (repeat (@None pool_task) n) = [].
Proof. induction n as [|n IH]; [reflexivity|exact IH]. Qed.

Section PoolRuns.
Context `{Library}.

Lemma step_keeps_pending_held (s s' : system) :
  step s s' -> pending_is_held s -> pending_is_held s'.
Proof.
  intros Hstep Hheld. unfold pending_is_held in *.
  destruct Hstep as [s x rest Hsub|s w t queue Hw Hq|s w t r Hw Hr|s r Hsub Hc];
    cbn [shared_states tasks_ workers_]; intros i Hi.
  - destruct (Nat.lt_ge_cases i (List.length (shared_states s))) as [Hlt|Hge].
    + rewrite nth_error_app1 in Hi by exact Hlt.
      destruct (Hheld i Hi) as [[t [Hin Hp]]|Hrun]; [left|right; exact Hrun].
      exists t. split; [apply in_or_app; now left|exact Hp].
    + left. eexists. split; [apply in_or_app; right; now left|].
      cbn [promise].
      assert (Hsome : nth_error (shared_states s ++ [None]) i <> None)
        by congruence.
      apply nth_error_Some in Hsome. rewrite length_app in Hsome.
      cbn [List.length] in Hsome. lia.
  - destruct (Hheld i Hi) as [[t0 [Hin Hp]]|[t0 [Hin Hp]]].
    + rewrite Hq in Hin. destruct Hin as [<-|Hin].
      * right. exists t. split; [|exact Hp].
        eapply in_list_set_new. exact Hw.
      * left. now exists t0.
    + right. exists t0. split; [|exact Hp].
      eapply in_list_set_other; [exact Hin|exact Hw|discriminate].
  - rewrite nth_error_list_set in Hi.
    destruct (Nat.eqb_spec (promise t) i) as [Heq|Hne].
    + destruct (nth_error (shared_states s) i); discriminate Hi.
    + destruct (Hheld i Hi) as [Hqueue|[t0 [Hin Hp]]]; [left; exact Hqueue|].
      right. exists t0. split; [|exact Hp].
      eapply in_list_set_other; [exact Hin|exact Hw|].
      intros [= ->]. contradiction.
  - exact (Hheld i Hi).
Qed.

Lemma step_keeps_workers (s s' : system) :
  step s s' -> List.length (workers_ s') = List.length (workers_ s).
Proof.
  intros Hstep. destruct Hstep; cbn [workers_]; try reflexivity;
    apply list_set_length.
Qed.

Lemma reachable_pending_held (inputs : list task_input_data)
    (num_threads : nat) (os0 : ostream) (s : system) :
  reachable (initial_system inputs num_threads os0) s ->
  pending_is_held s /\ List.length (workers_ s) = num_threads.
Proof.
  induction 1 as [|s s' _ [IHheld IHlen] Hstep].
  - split; [|apply repeat_length].
    intros [|i] Hi; discriminate Hi.
  - split.
    + eapply step_keeps_pending_held; eassumption.
    + now rewrite (step_keeps_workers s s' Hstep).
Qed.

(** Each move uses up exactly one of the moves left. *)
Lemma perform_uses_one_move (a : action) (s s' : system) :
  (collected s <= List.length (shared_states s))%nat ->
  perform a s = Some s' ->
  moves_left s = S (moves_left s')
  /\ (collected s' <= List.length (shared_states s'))%nat.
Proof.
  intros Hcol. unfold moves_left, busy_workers.
  destruct a as [|w|w|]; cbn [perform]; intros Hp.
  - destruct (to_submit s) as [|x rest]; [discriminate|].
    injection Hp as <-.
    cbn [to_submit tasks_ workers_ shared_states collected].
    rewrite !length_app. cbn [List.length]. lia.
  - destruct (nth_error (workers_ s) w) as [[t|]|] eqn:Ew; try discriminate.
    destruct (tasks_ s) as [|t queue]; [discriminate|].
    injection Hp as <-.
    cbn [to_submit tasks_ workers_ shared_states collected].
    rewrite (busy_after_dequeue _ _ t Ew). cbn [List.length]. lia.
  - destruct (nth_error (workers_ s) w) as [[t|]|] eqn:Ew; try discriminate.
    destruct (process_single_feature_task (input t)) as [r|]; [|discriminate].
    injection Hp as <-.
    cbn [to_submit tasks_ workers_ shared_states collected].
    rewrite <- (busy_after_complete _ _ t Ew), list_set_length. lia.
  - destruct (to_submit s); [|discriminate].
    destruct (nth_error (shared_states s) (collected s)) as [[r|]|] eqn:Ec;
      try discriminate.
    injection Hp as <-.
    cbn [to_submit tasks_ workers_ shared_states collected].
    assert (Hlt : (collected s < List.length (shared_states s))%nat)
      by (apply nth_error_Some; congruence).
    lia.
Qed.

Lemma run_schedule_uses_moves (schedule : list action) :
  forall s s' : system,
    (collected s <= List.length (shared_states s))%nat ->
    run_schedule schedule s = Some s' ->
    (List.length schedule + moves_left s' = moves_left s)%nat.
Proof.
  induction schedule as [|a rest IH]; intros s s' Hcol Hrun;
    cbn [run_schedule] in Hrun.
  - now injection Hrun as <-.
  - destruct (perform a s) as [s1|] eqn:Ea; [|discriminate].
    destruct (perform_uses_one_move a s s1 Hcol Ea) as [Hone Hcol1].
    specialize (IH s1 s' Hcol1 Hrun). cbn [List.length]. lia.
Qed.

(** X17. A run of the pool cannot block before the last row is written:
    with at least one worker thread and tasks whose stride is positive, in
    every state that the producer, the workers and the collector can reach
    and in which a row is still missing, one of them can move. *)
Theorem pool_never_blocks (inputs : list task_input_data)
    (num_threads : nat) (os0 : ostream) (s : system) :
  (0 < num_threads)%nat ->
  Forall (fun t => 0 < coordinate_stride t) inputs ->
  reachable (initial_system inputs num_threads os0) s ->
  (collected s < List.length inputs)%nat ->
  exists (a : action) (s' : system), perform a s = Some s'.
Proof.
  intros Hn Hstride Hreach Hmissing.
  destruct (reachable_pending_held _ _ _ _ Hreach) as [Hheld Hworkers].
  destruct (reachable_consistent _ _ _ _ Hreach)
    as [done [rows [Hin [Hlen [_ [_ [Hrun [_ _]]]]]]]].
  assert (Hcomplete : forall w t,
            nth_error (workers_ s) w = Some (Some t) ->
            exists s', perform (Complete w) s = Some s').
  { intros w t Hw. cbn [perform]. rewrite Hw.
    assert (Hinput : In (input t) inputs).
    { rewrite Hin. apply in_or_app. left.
      eapply nth_error_In. apply Hrun. eapply nth_error_In. exact Hw. }
    rewrite Forall_forall in Hstride.
    destruct (process_single_feature_task_returns (input t)
                (Hstride _ Hinput)) as [r ->].
    now eexists. }
  destruct (to_submit s) as [|x rest] eqn:Hsub.
  - rewrite app_nil_r in Hin. subst done.
    destruct (nth_error (shared_states s) (collected s)) as [[r|]|] eqn:Hfut.
    + exists Collect. cbn [perform]. rewrite Hsub, Hfut. now eexists.
    + destruct (Hheld _ Hfut) as [[t [Hqueue _]]|[t [Hbusy _]]].
      * destruct (nth_error (workers_ s) 0) as [[t'|]|] eqn:Hw.
        -- exists (Complete 0). now apply (Hcomplete 0%nat t').
        -- exists (Dequeue 0). cbn [perform]. rewrite Hw.
           destruct (tasks_ s) as [|t0 queue]; [contradiction|now eexists].
        -- apply nth_error_None in Hw. lia.
      * apply In_nth_error in Hbusy. destruct Hbusy as [w Hw].
        exists (Complete w). now apply (Hcomplete w t).
    + apply nth_error_None in Hfut. lia.
  - exists Enqueue. cbn [perform]. rewrite Hsub. now eexists.
Qed.

(** X18. Every run of the pool ends: a schedule that can be performed from
    the start uses exactly one of the moves left per move, four moves per
    input being available in all, so no schedule is longer than four times
    the number of inputs. *)
Theorem pool_runs_are_bounded (inputs : list task_input_data)
    (num_threads : nat) (os0 : ostream) (schedule : list action)
    (s : system) :
  run_schedule schedule (initial_system inputs num_threads os0) = Some s ->
  (List.length schedule + moves_left s = 4 * List.length inputs)%nat
  /\ (List.length schedule <= 4 * List.length inputs)%nat.
Proof.
  intros Hrun.
  apply run_schedule_uses_moves in Hrun; [|cbn; lia].
  unfold moves_left at 2, busy_workers in Hrun.
  cbn [initial_system to_submit tasks_ workers_ shared_states collected]
    in Hrun.
  rewrite no_busy_worker_at_start in Hrun. cbn [List.length] in Hrun. lia.
Qed.

End PoolRuns.

Lemma pool_never_blocks_witness :
  exists (a : action) (s' : system),
    @perform corrupt_first_library a
      {| to_submit := []; tasks_ := [{| promise := 1; input := task_b |}];
         workers_ := [Some {| promise := 0; input := task_a |}];
         shared_states := [None; None]; collected := 0;
         out_file := fresh_stream |}
    = Some s'.
Proof.
  apply (@pool_never_blocks corrupt_first_library [task_a; task_b] 1%nat
           fresh_stream).
  - lia.
  - repeat constructor.
  - eapply (@run_schedule_reachable corrupt_first_library
              [Enqueue; Enqueue; Dequeue 0]);
      [apply reachable_start|].
    lazy. reflexivity.
  - cbn. lia.
Defined.

Lemma pool_runs_are_bounded_witness :
  (List.length out_of_order_schedule + moves_left out_of_order_final
   = 4 * List.length [task_a; task_b])%nat
  /\ (List.length out_of_order_schedule <= 4 * List.length [task_a; task_b])%nat.
Proof.
  apply (@pool_runs_are_bounded corrupt_first_library [task_a; task_b] 2%nat
           fresh_stream out_of_order_schedule out_of_order_final).
  lazy. reflexivity.
Defined.

(** Without a worker thread the collector waits for ever: after the two
    submissions no move is possible. *)
Example no_worker_no_progress :
  option_map
    (fun s => map (fun a => match @perform corrupt_first_library a s with
                            | Some _ => true
                            | None => false
                            end)
                  [Enqueue; Dequeue 0; Complete 0; Collect])
    (@run_schedule corrupt_first_library [Enqueue; Enqueue]
       (initial_system [task_a; task_b] 0 fresh_stream))
  = Some [false; false; false; false].
Proof. lazy. reflexivity. Qed.

(** ** Escaped fields can be told apart *)

Lemma append_cancel_l (p a b : string) :
  (p ++ a)%string = (p ++ b)%string -> a = b.
Proof.
  induction p as [|c p IH]; cbn; intros E; [exact E|].
  injection E as E. now apply IH.
Qed.

(** The doubled text followed by the closing quote determines the field. *)
Lemma quotes_doubled_injective (a : string) :
  forall b : string,
    (quotes_doubled a ++ String dquote EmptyString)%string
    = (quotes_doubled b ++ String dquote EmptyString)%string ->
    a = b.
Proof.
  induction a as [|x a IH]; intros [|y b] E;
    cbn [quotes_doubled append] in E.
  - reflexivity.
  - destruct (Ascii.eqb_spec y dquote) as [->|Hy]; cbn [append] in E.
    + discriminate E.
    + injection E as Hc _. congruence.
  - destruct (Ascii.eqb_spec x dquote) as [->|Hx]; cbn [append] in E.
    + discriminate E.
    + injection E as Hc _. congruence.
  - destruct (Ascii.eqb_spec x dquote) as [->|Hx],
             (Ascii.eqb_spec y dquote) as [->|Hy]; cbn [append] in E.
    + injection E as E. now rewrite (IH b E).
    + injection E as Hc _. congruence.
    + injection E as Hc _. congruence.
    + injection E as -> E. now rewrite (IH b E).
Qed.

Lemma escaped_content (os : ostream) (value : string) :
  content (write_csv_escaped_string os value)
  = (content os
     ++ match find_first_of value [comma; dquote; newline] 0 with
        | Some _ => quote_wrapped value
        | None => value
        end)%string.
Proof.
  unfold write_csv_escaped_string.
  destruct (find_first_of value [comma; dquote; newline] 0);
    [|reflexivity].
  rewrite escape_loop_content. unfold quote_wrapped. cbn.
  now rewrite !append_assoc.
Qed.

Lemma plain_field_has_no_quote (value rest : string) :
  find_first_of value [comma; dquote; newline] 0 = None ->
  value <> String dquote rest.
Proof.
  intros Hplain ->.
  apply find_first_of_none with (c := dquote) in Hplain; [|now left].
  discriminate Hplain.
Qed.

(** X19. Escaping loses nothing: two different field values are never
    written as the same text, whether they are quoted or not. *)
Theorem escaped_fields_are_distinct (out_file : ostream) (a b : string) :
  a <> b ->
  content (write_csv_escaped_string out_file a)
  <> content (write_csv_escaped_string out_file b).
Proof.
  intros Hne E. apply Hne. rewrite !escaped_content in E.
  apply append_cancel_l in E.
  destruct (find_first_of a [comma; dquote; newline] 0) eqn:Ea,
           (find_first_of b [comma; dquote; newline] 0) eqn:Eb.
  - unfold quote_wrapped in E. injection E as E.
    now apply quotes_doubled_injective.
  - symmetry in E. now apply plain_field_has_no_quote in E.
  - now apply plain_field_has_no_quote in E.
  - exact E.
Qed.

Lemma escaped_fields_are_distinct_witness :
  content (write_csv_escaped_string fresh_stream "Cluj,Napoca")
  <> content (write_csv_escaped_string fresh_stream
                (String dquote "Cluj,Napoca")).
Proof.
  apply (escaped_fields_are_distinct fresh_stream "Cluj,Napoca"
           (String dquote "Cluj,Napoca")).
  discriminate.
Defined.

(** ** main.cpp: the command line *)

Lemma stoi_range (str : string) (v : Z) :
  stoi str = stoi_value v -> - 2 ^ 31 <= v < 2 ^ 31.
Proof.
  unfold stoi.
  destruct (leading_digits _) as [|d ds]; [discriminate|].
  match goal with
  | |- context [if ?c then stoi_value ?x else _] =>
      destruct c eqn:E; [|discriminate]
  end.
  intros [= <-]. apply andb_prop in E. lia.
Qed.

Lemma parse_thread_count_loop_range (args : list string) (default : Z) :
  1 <= default < 2 ^ 32 ->
  1 <= parse_thread_count_loop args default < 2 ^ 32.
Proof.
  intros Hdefault.
  induction args as [|arg rest IH]; cbn [parse_thread_count_loop];
    [exact Hdefault|].
  destruct rest as [|next rest']; [exact Hdefault|].
  destruct (is_threads_option arg); [|exact IH].
  destruct (stoi next) as [v| |] eqn:Ev; try exact IH.
  apply stoi_range in Ev.
  destruct (Z.gtb_spec v 0); lia.
Qed.

Lemma default_num_threads_range (num_cores : Z) :
  0 <= num_cores < 2 ^ 32 -> 1 <= default_num_threads num_cores < 2 ^ 32.
Proof.
  intros Hcores. unfold default_num_threads, u32_wrap.
  destruct (Z.eqb_spec num_cores 0); [lia|].
  destruct (Z.gtb_spec num_cores 1); [|lia].
  rewrite Z.mod_small; lia.
Qed.

(** X20. The pool is never created without a thread: whatever the command
    line and the number of cores reported, the thread count
    [run_application] passes on is at least 1 (and fits 32 bits). *)
Theorem thread_count_is_positive (argv : list string) (num_cores : Z) :
  0 <= num_cores < 2 ^ 32 ->
  1 <= parse_thread_count argv (default_num_threads num_cores) < 2 ^ 32.
Proof.
  intros Hcores. unfold parse_thread_count.
  apply parse_thread_count_loop_range.
  now apply default_num_threads_range.
Qed.

Lemma thread_count_is_positive_witness :
  1 <= parse_thread_count ["fgb_bbox_extractor"; "in.fgb"; "out.csv";
                           "--threads"; "0"]%string
         (default_num_threads 0) < 2 ^ 32.
Proof.
  apply (thread_count_is_positive
           ["fgb_bbox_extractor"; "in.fgb"; "out.csv"; "--threads"; "0"]%string
           0).
  lia.
Defined.

(** X21. The first thread option that is followed by a number decides: when
    the arguments in front of it are no thread options, the thread count is
    the number read by [std::stoi], or 1 when that number is zero or
    negative; what comes after is not looked at. *)
Theorem first_thread_option_decides (program : string)
    (before after : list string) (flag value : string) (v default : Z) :
  Forall (fun arg => is_threads_option arg = false) before ->
  is_threads_option flag = true ->
  stoi value = stoi_value v ->
  parse_thread_count (program :: before ++ flag :: value :: after) default
  = Z.max 1 v.
Proof.
  intros Hbefore Hflag Hvalue. unfold parse_thread_count. cbn [tl].
  induction Hbefore as [|arg before Harg _ IH]; cbn [app].
  - cbn [parse_thread_count_loop]. rewrite Hflag, Hvalue.
    destruct (Z.gtb_spec v 0); lia.
  - cbn [parse_thread_count_loop]. rewrite Harg.
    destruct (before ++ flag :: value :: after) eqn:E; [|exact IH].
    destruct before; discriminate E.
Qed.

Lemma first_thread_option_decides_witness :
  parse_thread_count
    ("fgb_bbox_extractor"%string
     :: ["in.fgb"; "out.csv"]%string
        ++ "-t"%string :: " +8x"%string :: ["-t"; "2"]%string)
    3
  = Z.max 1 8.
Proof.
  apply (first_thread_option_decides "fgb_bbox_extractor"%string
           ["in.fgb"; "out.csv"]%string ["-t"; "2"]%string
           "-t"%string " +8x"%string 8 3).
  - repeat constructor.
  - reflexivity.
  - vm_compute. reflexivity.
Defined.

Example thread_counts :
  map (fun args => parse_thread_count ("fgb_bbox_extractor"%string :: args) 3)
      [ ["in.fgb"; "out.csv"];
        ["in.fgb"; "out.csv"; "-t"];
        ["-t"; "0"; "in.fgb"; "out.csv"];
        ["-t"; "-5"; "in.fgb"; "out.csv"];
        ["-t"; "many"; "in.fgb"; "out.csv"];
        ["-t"; "99999999999"; "in.fgb"; "out.csv"];
        ["-t"; "-t"; "4"; "out.csv"];
        ["-t"; "x"; "--threads"; "6"] ]%string
  = [3; 3; 1; 1; 3; 3; 4; 6].
Proof. vm_compute. reflexivity. Qed.




(** A thread option in front of the paths takes the next argument as its
    value, whatever it is; after a value that is no number the count is
    looked for again from that value on. *)
Example options_and_paths :
  map (fun args =>
         (extract_positional_args ("fgb_bbox_extractor"%string :: args)
                                  EmptyString EmptyString,
          parse_thread_count ("fgb_bbox_extractor"%string :: args) 3))
      [ ["-t"; "in.fgb"; "out.csv"];
        ["-t"; "-t"; "4"; "out.csv"];
        ["in.fgb"; "out.csv"; "extra"; "-t"] ]%string
  = [ (("out.csv", ""), 3); (("4", "out.csv"), 4);
      (("in.fgb", "out.csv"), 3) ]%string.
Proof. vm_compute. reflexivity. Qed.

(** ** What [submit_feature_tasks] returns *)

Section SubmissionResult.
Context `{Library}.

Lemma submit_loop_result (h : Header) (stride : Z) (n : nat) :
  forall (off : Z) (st : flatgeobuf_processor),
    exists st',
      submit_loop n h stride off st
      = Some (complete_records n (fgb_buffer_ st) off, st')
      /\ fgb_buffer_ st' = fgb_buffer_ st.
Proof.
  induction n as [|n IH]; intros off st;
    cbn [submit_loop complete_records].
  - now exists st.
  - unfold record_complete, record_end, declared_length.
    destruct (Z.gtb_spec (size_t_wrap (off + 4))
                (Z.of_nat (List.length (fgb_buffer_ st)))) as [Hcut|Hlen].
    { exists st. split; [|reflexivity].
      destruct (Z.leb_spec (size_t_wrap (off + 4))
                  (Z.of_nat (List.length (fgb_buffer_ st)))); [lia|].
      reflexivity. }
    destruct (Z.leb_spec (size_t_wrap (off + 4))
                (Z.of_nat (List.length (fgb_buffer_ st)))); [|lia].
    destruct (Z.gtb_spec
                (size_t_wrap (off + 4
                              + value_of (ReadScalar 4 (fgb_buffer_ st) off)))
                (Z.of_nat (List.length (fgb_buffer_ st)))) as [Hcut|Hfits].
    { exists st. split; [|reflexivity].
      destruct (Z.leb_spec
                  (size_t_wrap (off + 4
                                + value_of (ReadScalar 4 (fgb_buffer_ st) off)))
                  (Z.of_nat (List.length (fgb_buffer_ st)))); [lia|].
      reflexivity. }
    destruct (Z.leb_spec
                (size_t_wrap (off + 4
                              + value_of (ReadScalar 4 (fgb_buffer_ st) off)))
                (Z.of_nat (List.length (fgb_buffer_ st)))); [|lia].
    cbn [andb].
    destruct (GetSizePrefixedFeature (fgb_buffer_ st) off) as [feature|].
    + destruct (prepare_task_returns feature h stride st) as [task [-> _]].
      cbn [obind].
      destruct (IH (size_t_wrap
                      (off + (4 + value_of (ReadScalar 4 (fgb_buffer_ st) off))))
                   (enqueue st task)) as [st' [Hrun Hbuf]].
      exists st'. split; [exact Hrun|exact Hbuf].
    + apply IH.
Qed.

(** X24. [submit_feature_tasks] throws exactly when features are announced
    and their reservation throws.  Otherwise it returns, and it returns
    [true] exactly when each of the [features_count] announced records,
    length field and payload, lies inside the file; a record for which the
    decoder gives no feature is skipped without making the result [false].
    The file buffer is left as it was. *)
Theorem submission_succeeds_iff_records_complete (fbs_header : Header)
    (initial_offset coordinate_stride : Z) (st : flatgeobuf_processor) :
  match reserve_futures (features_count fbs_header) with
  | Some what =>
      submit_feature_tasks fbs_header initial_offset coordinate_stride st
      = Some (Thrown what)
  | None =>
      exists st' : flatgeobuf_processor,
        submit_feature_tasks fbs_header initial_offset coordinate_stride st
        = Some (Returned
                  (complete_records (Z.to_nat (features_count fbs_header))
                                    (fgb_buffer_ st) initial_offset,
                   st'))
        /\ fgb_buffer_ st' = fgb_buffer_ st
  end.
Proof.
  destruct (reserve_futures (features_count fbs_header)) as [what|] eqn:Hres;
    [now apply submit_feature_tasks_thrown|].
  destruct (submit_loop_result fbs_header coordinate_stride
              (Z.to_nat (features_count fbs_header)) initial_offset st)
    as [st' [Hrun Hbuf]].
  exists st'. split; [|exact Hbuf].
  apply submit_feature_tasks_returned. now split.
Qed.

End SubmissionResult.

(** ** The coordinate fields of a row *)

Section RowCoordinates.
Context `{Library}.

Lemma ostream_eq (a b : ostream) :
  content a = content b -> flags a = flags b -> precision a = precision b ->
  a = b.
Proof.
  destruct a, b. cbn [content flags precision]. now intros -> -> ->.
Qed.

(** X25. The row writer and [bounding_box::write_to_stream] agree: after
    the name, the code and the county, a row holds exactly what
    [write_to_stream] writes for the box (the four coordinates with three
    decimals, or the three commas of the marker for an invalid box), then a
    comma, the area field, which is empty for an invalid box, and the end
    of the line; the stream is left in the same state. *)
Theorem row_coordinates_are_write_to_stream (out_file : ostream)
    (uat_name : string) (uat_code : Z) (county_mn : county_code)
    (bbox : bounding_box) :
  let before :=
    put_char csv_delimiter_
      (write_csv_escaped_string
         (put_char csv_delimiter_
            (put_unsigned_value uat_code
               (put_char csv_delimiter_
                  (write_csv_escaped_string out_file uat_name))))
         (county_to_string county_mn)) in
  exists area : string,
    write_csv_row out_file uat_name uat_code county_mn bbox
    = put_string (area ++ csv_newline_)
        (put_char csv_delimiter_ (write_to_stream bbox before))
    /\ (is_valid bbox = false -> area = EmptyString).
Proof.
  intros before. unfold write_csv_row, write_to_stream. fold before.
  destruct (is_valid bbox); cbn [negb].
  - exists (put_double
              (Z.lor (Z.land (flags before) (Z.lnot ios_floatfield))
                     (Z.land ios_fixed ios_floatfield))
              1
              ((max_x bbox - min_x bbox) * (max_y bbox - min_y bbox)
               / square_meters_in_square_kilometer_)%R).
    split; [|discriminate].
    apply ostream_eq;
      cbn [content flags precision put_string put_char set_flags
           set_precision put_double_value std_fixed];
      [|reflexivity|reflexivity].
    change (String csv_delimiter_ EmptyString) with ","%string.
    generalize (content before). generalize (flags before). intros f c.
    rewrite !append_assoc. reflexivity.
  - exists EmptyString. split; [|reflexivity].
    apply ostream_eq;
      cbn [content flags precision put_string put_char set_flags
           set_precision put_double_value std_fixed];
      [|reflexivity|reflexivity].
    change (String csv_delimiter_ EmptyString) with ","%string.
    unfold invalid_bbox_csv_marker.
    generalize (content before). intros c.
    rewrite !append_assoc. reflexivity.
Qed.

End RowCoordinates.

(** ** The pool: a task runs once, a finished run is over *)

Lemma nth_error_in_range {A : Type} (l : list A) (i : nat) (x : A) :
  nth_error l i = Some x -> (i < List.length l)%nat.
Proof. intros Hi. apply nth_error_Some. congruence. Qed.

Lemma running_after_set (l : list (option pool_task)) (w : nat)
    (x v : option pool_task) :
  nth_error l w = Some x ->
  Permutation (running_task x ++ flat_map running_task (list_set l w v))
              (running_task v ++ flat_map running_task l).
Proof.
  revert w. induction l as [|y l IH]; intros [|w] Hw; cbn in Hw;
    try discriminate.
  - injection Hw as ->. cbn [list_set flat_map].
    apply Permutation_app_swap_app.
  - cbn [list_set flat_map].
    rewrite (Permutation_app_swap_app (running_task x) (running_task y)).
    rewrite (IH w Hw).
    apply Permutation_app_swap_app.
Qed.

Lemma running_in_workers (l : list (option pool_task)) (w : nat)
    (t : pool_task) :
  nth_error l w = Some (Some t) -> In t (flat_map running_task l).
Proof.
  intros Hw. apply in_flat_map. exists (Some t).
  split; [eapply nth_error_In; exact Hw|now left].
Qed.

Lemma nobody_runs_at_start (n : nat) :
  flat_map running_task (repeat (@None pool_task) n) = [].
Proof. induction n as [|n IH]; [reflexivity|exact IH]. Qed.

Lemma busy_are_running (l : list (option pool_task)) :
  List.length (filter is_busy l) = List.length (flat_map running_task l).
Proof.
  induction l as [|[t|] l IH]; cbn [filter is_busy flat_map running_task app];
    [reflexivity|cbn [List.length]; now rewrite IH|exact IH].
Qed.

Section PoolOrder.
Context `{Library}.

Lemma step_keeps_futures_in_order (s s' : system) :
  step s s' -> futures_in_order s -> futures_in_order s'.
Proof.
  intros Hstep [Hdistinct [Hpending Hready]].
  destruct Hstep as [s x rest Hsub|s w t queue Hw Hq|s w t r Hw Hr|s r Hsub Hc];
    unfold futures_in_order, held_tasks in *;
    cbn [shared_states tasks_ workers_ collected].
  - set (new := {| promise := List.length (shared_states s); input := x |}).
    assert (Hperm : Permutation
                      ((tasks_ s ++ [new])
                       ++ flat_map running_task (workers_ s))
                      (new :: tasks_ s
                            ++ flat_map running_task (workers_ s))).
    { rewrite <- app_assoc. cbn [app]. symmetry. apply Permutation_middle. }
    split; [|split].
    + eapply Permutation_NoDup;
        [apply Permutation_map; symmetry; exact Hperm|].
      cbn [map]. constructor; [|exact Hdistinct].
      intros Hin. apply in_map_iff in Hin. destruct Hin as [t [Hp Hin]].
      specialize (Hpending t Hin). rewrite Hp in Hpending.
      apply nth_error_in_range in Hpending. cbn [new promise] in Hpending. lia.
    + intros t Hin. apply (Permutation_in _ Hperm) in Hin.
      destruct Hin as [<-|Hin].
      * cbn [new promise]. rewrite nth_error_app2 by lia.
        now rewrite Nat.sub_diag.
      * apply nth_error_app_left. now apply Hpending.
    + intros i Hi. destruct (Hready i Hi) as [r Hr]. exists r.
      now apply nth_error_app_left.
  - assert (Hperm : Permutation
                      (queue ++ flat_map running_task
                                  (list_set (workers_ s) w (Some t)))
                      (tasks_ s ++ flat_map running_task (workers_ s))).
    { rewrite Hq. cbn [app].
      pose proof (running_after_set (workers_ s) w None (Some t) Hw) as Hrun.
      cbn [running_task app] in Hrun. rewrite Hrun.
      symmetry. apply Permutation_middle. }
    split; [|split; [|exact Hready]].
    + eapply Permutation_NoDup;
        [apply Permutation_map; symmetry; exact Hperm|exact Hdistinct].
    + intros t0 Hin. apply Hpending. exact (Permutation_in _ Hperm Hin).
  - assert (Hperm : Permutation
                      (tasks_ s ++ flat_map running_task (workers_ s))
                      (t :: tasks_ s
                          ++ flat_map running_task
                               (list_set (workers_ s) w None))).
    { pose proof (running_after_set (workers_ s) w (Some t) None Hw) as Hrun.
      cbn [running_task app] in Hrun. rewrite <- Hrun.
      symmetry. apply Permutation_middle. }
    pose proof (Permutation_NoDup (Permutation_map promise Hperm) Hdistinct)
      as Hnodup.
    cbn [map] in Hnodup. inversion Hnodup as [|p ps Hfresh Hrest]; subst.
    assert (Hself : nth_error (shared_states s) (promise t) = Some None).
    { apply Hpending. apply (Permutation_in _ (Permutation_sym Hperm)).
      now left. }
    split; [exact Hrest|]. split.
    + intros t0 Hin. rewrite nth_error_list_set.
      destruct (Nat.eqb_spec (promise t) (promise t0)) as [Heq|_].
      * exfalso. apply Hfresh. rewrite Heq. now apply in_map.
      * apply Hpending. apply (Permutation_in _ (Permutation_sym Hperm)).
        now right.
    + intros i Hi. destruct (Hready i Hi) as [r0 Hr0]. exists r0.
      rewrite nth_error_list_set.
      destruct (Nat.eqb_spec (promise t) i) as [Heq|_]; [|exact Hr0].
      rewrite Heq in Hself. congruence.
  - split; [exact Hdistinct|]. split; [exact Hpending|].
    intros i Hi. destruct (Nat.eq_dec i (collected s)) as [->|Hne].
    + now exists r.
    + apply Hready. lia.
Qed.

Lemma futures_in_order_at_start (inputs : list task_input_data)
    (num_threads : nat) (os0 : ostream) :
  futures_in_order (initial_system inputs num_threads os0).
Proof.
  unfold futures_in_order, held_tasks.
  cbn [initial_system tasks_ workers_ shared_states collected app].
  rewrite nobody_runs_at_start.
  split; [constructor|]. split; [intros t []|intros i Hi; lia].
Qed.

Lemma reachable_futures_in_order (inputs : list task_input_data)
    (num_threads : nat) (os0 : ostream) (s : system) :
  reachable (initial_system inputs num_threads os0) s -> futures_in_order s.
Proof.
  induction 1 as [|s s' _ IH Hstep].
  - apply futures_in_order_at_start.
  - eapply step_keeps_futures_in_order; eassumption.
Qed.

Lemma step_keeps_ready (s s' : system) (i : nat) (r : task_result) :
  step s s' -> futures_in_order s ->
  nth_error (shared_states s) i = Some (Some r) ->
  nth_error (shared_states s') i = Some (Some r).
Proof.
  intros Hstep [_ [Hpending _]] Hi.
  destruct Hstep as [s x rest Hsub|s w t queue Hw Hq|s w t r0 Hw Hr|s r0 Hsub Hc];
    cbn [shared_states]; try exact Hi.
  - now apply nth_error_app_left.
  - rewrite nth_error_list_set.
    destruct (Nat.eqb_spec (promise t) i) as [Heq|_]; [|exact Hi].
    assert (Hself : nth_error (shared_states s) (promise t) = Some None).
    { apply Hpending. unfold held_tasks. apply in_or_app. right.
      eapply running_in_workers. exact Hw. }
    rewrite Heq in Hself. congruence.
Qed.

Lemma run_keeps_ready (schedule : list action) :
  forall (s s' : system) (i : nat) (r : task_result),
    futures_in_order s ->
    run_schedule schedule s = Some s' ->
    nth_error (shared_states s) i = Some (Some r) ->
    nth_error (shared_states s') i = Some (Some r).
Proof.
  induction schedule as [|a rest IH]; intros s s' i r Horder Hrun Hi;
    cbn [run_schedule] in Hrun.
  - now injection Hrun as <-.
  - destruct (perform a s) as [s1|] eqn:Ea; [|discriminate].
    apply perform_sound in Ea.
    apply (IH s1 s' i r); [|exact Hrun|].
    + eapply step_keeps_futures_in_order; eassumption.
    + eapply step_keeps_ready; eassumption.
Qed.

(** X26. A future that is ready holds the result of the task submitted at
    its position, and keeps it: in whatever way the run goes on from a
    reachable state, no task completes a second time into a ready future. *)
Theorem ready_futures_are_final (inputs : list task_input_data)
    (num_threads : nat) (os0 : ostream) (s s' : system)
    (later : list action) (i : nat) (r : task_result) :
  reachable (initial_system inputs num_threads os0) s ->
  run_schedule later s = Some s' ->
  nth_error (shared_states s) i = Some (Some r) ->
  nth_error (shared_states s') i = Some (Some r)
  /\ exists x, nth_error inputs i = Some x
               /\ process_single_feature_task x = Some r.
Proof.
  intros Hreach Hrun Hi. split.
  - eapply run_keeps_ready; [|exact Hrun|exact Hi].
    eapply reachable_futures_in_order. exact Hreach.
  - destruct (reachable_consistent _ _ _ _ Hreach)
      as [done [rows [Hin [_ [Hres _]]]]].
    destruct (Hres i r Hi) as [x [Hx Hr]]. exists x. split; [|exact Hr].
    rewrite Hin. now apply nth_error_app_left.
Qed.

(** X27. A run that has written all its rows is over: it has made exactly
    four moves per input, the queue is empty, no worker is executing a
    task, and no thread can move any more. *)
Theorem finished_runs_are_over (inputs : list task_input_data)
    (num_threads : nat) (os0 : ostream) (schedule : list action)
    (s : system) :
  run_schedule schedule (initial_system inputs num_threads os0) = Some s ->
  collected s = List.length inputs ->
  List.length schedule = (4 * List.length inputs)%nat
  /\ to_submit s = [] /\ tasks_ s = [] /\ busy_workers s = 0%nat
  /\ forall a : action, perform a s = None.
Proof.
  intros Hrun Hall.
  assert (Hreach : reachable (initial_system inputs num_threads os0) s)
    by (eapply run_schedule_reachable; [apply reachable_start|exact Hrun]).
  destruct (reachable_consistent _ _ _ _ Hreach)
    as [done [rows [Hin [Hlen [_ [_ [_ [Hcol _]]]]]]]].
  destruct (reachable_futures_in_order _ _ _ _ Hreach)
    as [_ [Hpending Hready]].
  assert (Hsub : to_submit s = []).
  { apply length_zero_iff_nil.
    rewrite Hin, length_app in Hall. lia. }
  rewrite Hsub, app_nil_r in Hin. subst done.
  assert (Hheld : held_tasks s = []).
  { destruct (held_tasks s) as [|t held] eqn:E; [reflexivity|].
    assert (Ht : nth_error (shared_states s) (promise t) = Some None)
      by (apply Hpending; now left).
    assert (Hlt : (promise t < collected s)%nat)
      by (apply nth_error_in_range in Ht; lia).
    destruct (Hready _ Hlt) as [r Hr]. congruence. }
  unfold held_tasks in Hheld. apply app_eq_nil in Hheld.
  destruct Hheld as [Hqueue Hrunning].
  assert (Hbusy : busy_workers s = 0%nat).
  { unfold busy_workers. now rewrite busy_are_running, Hrunning. }
  split; [|split; [exact Hsub|split; [exact Hqueue|split; [exact Hbusy|]]]].
  - apply run_schedule_uses_moves in Hrun; [|cbn; lia].
    unfold moves_left, busy_workers in Hrun.
    cbn [initial_system to_submit tasks_ workers_ shared_states collected]
      in Hrun.
    rewrite no_busy_worker_at_start in Hrun.
    unfold busy_workers in Hbusy.
    rewrite Hsub, Hqueue, Hbusy in Hrun. cbn [List.length] in Hrun. lia.
  - intros [|w|w|]; cbn [perform].
    + now rewrite Hsub.
    + rewrite Hqueue. now destruct (nth_error (workers_ s) w) as [[t|]|].
    + destruct (nth_error (workers_ s) w) as [[t|]|] eqn:Hw; try reflexivity.
      apply running_in_workers in Hw. rewrite Hrunning in Hw. contradiction.
    + rewrite Hsub.
      assert (Hnone : nth_error (shared_states s) (collected s) = None)
        by (apply nth_error_None; lia).
      now rewrite Hnone.
Qed.

End PoolOrder.

Lemma ready_futures_are_final_witness :
  nth_error (shared_states out_of_order_final) 1 = Some (Some result_b)
  /\ exists x, nth_error [task_a; task_b] 1 = Some x
               /\ @process_single_feature_task x = Some result_b.
Proof.
  apply (@ready_futures_are_final corrupt_first_library [task_a; task_b]
           2%nat fresh_stream
           {| to_submit := []; tasks_ := [];
              workers_ := [Some {| promise := 0; input := task_a |}; None];
              shared_states := [None; Some result_b]; collected := 0;
              out_file := fresh_stream |}
           out_of_order_final [Complete 0; Collect; Collect] 1%nat result_b).
  - eapply (@run_schedule_reachable corrupt_first_library
              [Enqueue; Enqueue; Dequeue 0; Dequeue 1; Complete 1]);
      [apply reachable_start|].
    lazy. reflexivity.
  - lazy. reflexivity.
  - reflexivity.
Defined.

Lemma finished_runs_are_over_witness :
  List.length out_of_order_schedule = (4 * List.length [task_a; task_b])%nat
  /\ to_submit out_of_order_final = []
  /\ tasks_ out_of_order_final = []
  /\ busy_workers out_of_order_final = 0%nat
  /\ forall a : action, @perform corrupt_first_library a out_of_order_final
                        = None.
Proof.
  apply (@finished_runs_are_over corrupt_first_library [task_a; task_b] 2%nat
           fresh_stream out_of_order_schedule out_of_order_final).
  - lazy. reflexivity.
  - reflexivity.
Defined.

(** ** A stride of zero *)




(** ** A feature without coordinates *)

Section EmptyRows.
Context `{Library}.

(** X29. A task without geometry still returns, with a box that is not
    valid; and the row of a result whose box is not valid ends, after the
    name, the code and the county, with five commas and the end of the
    line: its four coordinate fields and its area field are empty. *)
Theorem missing_geometry_gives_empty_fields (task : task_input_data)
    (out_file : ostream) :
  geometry_ptr task = None ->
  exists r : task_result,
    process_single_feature_task task = Some r
    /\ uat_name r = in_uat_name task
    /\ uat_code r = in_uat_code task
    /\ county_mn r = in_county_mn task
    /\ is_valid (bbox r) = false
    /\ content (write_result_row out_file r)
       = (content
            (write_csv_escaped_string
               (put_char csv_delimiter_
                  (put_unsigned_value (uat_code r)
                     (put_char csv_delimiter_
                        (write_csv_escaped_string out_file (uat_name r)))))
               (county_to_string (county_mn r)))
          ++ ",,,,," ++ csv_newline_)%string.
Proof.
  intros Hgeom. unfold process_single_feature_task. rewrite Hgeom.
  cbn [calculate_for_geometry obind]. eexists. split; [reflexivity|].
  cbn [uat_name uat_code county_mn bbox].
  repeat (split; [reflexivity|]).
  unfold write_result_row, write_csv_row.
  cbn [uat_name uat_code county_mn bbox bounding_box_default is_valid].
  cbn [content flags precision put_string put_char set_flags set_precision
       std_fixed].
  change (String csv_delimiter_ EmptyString) with ","%string.
  generalize (content
                (write_csv_escaped_string
                   (put_char csv_delimiter_
                      (put_unsigned_value (in_uat_code task)
                         (put_char csv_delimiter_
                            (write_csv_escaped_string out_file
                                                      (in_uat_name task)))))
                   (county_to_string (in_county_mn task)))).
  intros c. rewrite !append_assoc. reflexivity.
Qed.

End EmptyRows.

Lemma missing_geometry_gives_empty_fields_witness :
  exists r : task_result,
    @process_single_feature_task task_a = Some r
    /\ uat_name r = in_uat_name task_a
    /\ uat_code r = in_uat_code task_a
    /\ county_mn r = in_county_mn task_a
    /\ is_valid (bbox r) = false
    /\ content (@write_result_row corrupt_first_library fresh_stream r)
       = (content
            (write_csv_escaped_string
               (put_char csv_delimiter_
                  (@put_unsigned_value corrupt_first_library (uat_code r)
                     (put_char csv_delimiter_
                        (write_csv_escaped_string fresh_stream (uat_name r)))))
               (county_to_string (county_mn r)))
          ++ ",,,,," ++ csv_newline_)%string.
Proof.
  apply (@missing_geometry_gives_empty_fields corrupt_first_library task_a
           fresh_stream).
  reflexivity.
Defined.

Example row_without_geometry :
  content (@write_result_row corrupt_first_library fresh_stream result_a)
  = ("Apahida,55473,CJ,,,,," ++ csv_newline_)%string.
Proof. lazy. reflexivity. Qed.
